(** * AI-Stonks dashboard: indicator engine, report assembler and
      temporary-file handling of [dashboard.py]

    The dashboard computes its indicators with pandas on float64 columns.
    The embedding keeps the shape of that code: a column is a list of
    values, a value is either a finite number, one of the two infinities or
    NaN, and the pandas primitives the script calls ([diff], [where],
    [rolling(...).mean()], [rolling(...).std()], [ewm(...).mean()],
    [cumsum], [tail]) are functions on such lists.

    Finite values are rationals.  The special values (NaN, the infinities,
    division by zero) follow float64; the sign of zero is not tracked.  In
    the indicator engine the arithmetic on finite values is exact: what is
    proved there are identities and properties of the formulas, which the
    program computes up to rounding.  Where rounding decides a property (the
    range of the VWAP), the line is embedded a second time with every
    operation rounded to the nearest float64 ([round64], [add_vwap64]), and
    the property is stated on that embedding. *)

From Stdlib Require Import QArith Qpower Qround Qabs Qminmax Lqa Ascii.
From stdpp Require Import gmap strings pretty list fin_maps.

Local Open Scope Q_scope.

(** ** Values of a float64 column *)

Inductive fval : Type :=
  | Fin (q : Q)
  | PInf
  | NInf
  | NaN.

Definition is_nan (x : fval) : bool :=
  match x with NaN => true | _ => false end.

Definition is_finite (x : fval) : bool :=
  match x with Fin _ => true | _ => false end.

(** Sign of a rational as a comparison with zero. *)
Definition Qsign (q : Q) : comparison := q ?= 0.

(** Equality of values: NaN is identified with itself here (this is the
    equality of the model, not the [==] of Python, which is [fval_eqb]
    below on non-NaN values and false on NaN). *)
Definition feq (x y : fval) : Prop :=
  match x, y with
  | Fin a, Fin b => a == b
  | PInf, PInf => True
  | NInf, NInf => True
  | NaN, NaN => True
  | _, _ => False
  end.

Definition feqb (x y : fval) : bool :=
  match x, y with
  | Fin a, Fin b => Qeq_bool a b
  | PInf, PInf => true
  | NInf, NInf => true
  | NaN, NaN => true
  | _, _ => false
  end.

Definition fneg (x : fval) : fval :=
  match x with
  | Fin a => Fin (- a)
  | PInf => NInf
  | NInf => PInf
  | NaN => NaN
  end.

Definition fadd (x y : fval) : fval :=
  match x, y with
  | NaN, _ | _, NaN => NaN
  | Fin a, Fin b => Fin (a + b)
  | PInf, NInf | NInf, PInf => NaN
  | PInf, _ | _, PInf => PInf
  | NInf, _ | _, NInf => NInf
  end.

Definition fsub (x y : fval) : fval := fadd x (fneg y).

Definition fmul (x y : fval) : fval :=
  match x, y with
  | NaN, _ | _, NaN => NaN
  | Fin a, Fin b => Fin (a * b)
  | Fin a, PInf | PInf, Fin a =>
      match Qsign a with Gt => PInf | Lt => NInf | Eq => NaN end
  | Fin a, NInf | NInf, Fin a =>
      match Qsign a with Gt => NInf | Lt => PInf | Eq => NaN end
  | PInf, PInf | NInf, NInf => PInf
  | PInf, NInf | NInf, PInf => NInf
  end.

(** Division as numpy performs it on float64: a non-zero number over zero
    is an infinity, zero over zero is NaN, a finite number over an infinity
    is zero. *)
Definition fdiv (x y : fval) : fval :=
  match x, y with
  | NaN, _ | _, NaN => NaN
  | Fin a, Fin b =>
      if Qeq_bool b 0 then
        match Qsign a with Gt => PInf | Lt => NInf | Eq => NaN end
      else Fin (a / b)
  | Fin _, PInf | Fin _, NInf => Fin 0
  | PInf, Fin b => match Qsign b with Lt => NInf | _ => PInf end
  | NInf, Fin b => match Qsign b with Lt => PInf | _ => NInf end
  | PInf, PInf | PInf, NInf | NInf, PInf | NInf, NInf => NaN
  end.

(** [x > y] and [x < y] on float64: false as soon as one side is NaN. *)
Definition fltb (x y : fval) : bool :=
  match x, y with
  | NaN, _ | _, NaN => false
  | Fin a, Fin b => match a ?= b with Lt => true | _ => false end
  | NInf, NInf => false
  | NInf, _ => true
  | Fin _, PInf => true
  | PInf, _ => false
  | Fin _, NInf => false
  end.

Definition fgtb (x y : fval) : bool := fltb y x.

(** Python's [x != y] on floats. *)
Definition fval_neqb (x y : fval) : bool :=
  match x, y with
  | NaN, _ | _, NaN => true
  | _, _ => negb (feqb x y)
  end.

(** ** pandas primitives on a column

    A [Series] is the list of the values of a column, in index order.  Every
    series of the script is derived from the one DataFrame [data], so all of
    them carry the same index and the label alignment pandas performs in
    binary operations is positional. *)

Abbreviation Series := (list fval) (only parsing).

Definition Qsum (l : list Q) : Q := foldr Qplus 0 l.

(** The observations of a window, if all of them are finite. *)
Fixpoint finite_values (l : list fval) : option (list Q) :=
  match l with
  | [] => Some []
  | Fin q :: t => match finite_values t with
                  | Some qs => Some (q :: qs)
                  | None => None
                  end
  | _ :: _ => None
  end.

(** [s.diff()]: first difference, undefined at the first index. *)
Definition diff (s : Series) : Series :=
  match s with
  | [] => []
  | _ :: t => NaN :: zip_with fsub t s
  end.

(** [s > c] and [s < c] against a scalar. *)
Definition series_gt (s : Series) (c : fval) : list bool :=
  (fun x => fgtb x c) <$> s.
Definition series_lt (s : Series) (c : fval) : list bool :=
  (fun x => fltb x c) <$> s.

(** [s.where(cond, other)]: keep the value where [cond] holds, put [other]
    elsewhere. *)
Definition where_ (s : Series) (cond : list bool) (other : fval) : Series :=
  zip_with (fun x (c : bool) => if c then x else other) s cond.

Definition series_neg (s : Series) : Series := fneg <$> s.
Definition series_add (s t : Series) : Series := zip_with fadd s t.
Definition series_sub (s t : Series) : Series := zip_with fsub s t.
Definition series_mul (s t : Series) : Series := zip_with fmul s t.
Definition series_div (s t : Series) : Series := zip_with fdiv s t.
(** [c + s], [c - s], [c * s], [c / s] with a scalar on the left. *)
Definition scalar_add (c : fval) (s : Series) : Series := fadd c <$> s.
Definition scalar_sub (c : fval) (s : Series) : Series := fsub c <$> s.
Definition scalar_mul (c : fval) (s : Series) : Series := fmul c <$> s.
Definition scalar_div (c : fval) (s : Series) : Series := fdiv c <$> s.

(** The trailing window of [w] points that ends at index [i]; [None] while
    fewer than [w] points have been seen ([min_periods] defaults to the
    window size). *)
Definition window (w : nat) (s : Series) (i : nat) : option (list fval) :=
  if decide (i + 1 < w)%nat then None
  else Some (take w (drop (i + 1 - w) s)).

Definition Qmean (qs : list Q) : Q := Qsum qs / inject_Z (Z.of_nat (length qs)).

(** [s.rolling(window=w).mean()].  A window with a missing or infinite
    observation has fewer than [w] valid observations and yields NaN. *)
Definition rolling_mean_at (w : nat) (s : Series) (i : nat) : fval :=
  match window w s i with
  | None => NaN
  | Some l => match finite_values l with
              | Some qs => if decide (length qs = 0)%nat then NaN
                           else Fin (Qmean qs)
              | None => NaN
              end
  end.

Definition rolling_mean (w : nat) (s : Series) : Series :=
  rolling_mean_at w s <$> seq 0 (length s).

(** Sample variance (ddof = 1) of a window. *)
Definition Qvar (qs : list Q) : Q :=
  let m := Qmean qs in
  Qsum ((fun x => (x - m) * (x - m)) <$> qs)
  / inject_Z (Z.of_nat (length qs - 1)).

(** Infinities are turned into NaN before a window computation. *)
Definition prep_values (s : Series) : Series :=
  (fun x => if is_finite x then x else NaN) <$> s.

(** State of the exponentially weighted mean: the running mean, the weight
    carried by the past, and the number of observations seen. *)
Record ewm_state : Type := EwmState {
  weighted : fval;
  old_wt : Q;
  nobs : nat
}.

Definition ewm_output (st : ewm_state) : fval :=
  if decide (1 ≤ nobs st)%nat then weighted st else NaN.

(** One turn of the loop of the exponentially weighted mean
    ([ignore_na=False], unit time deltas). *)
Definition ewm_step (alpha : Q) (adjust : bool) (st : ewm_state) (cur : fval)
  : ewm_state :=
  let old_wt_factor := 1 - alpha in
  let new_wt := if adjust then 1 else alpha in
  let is_observation := negb (is_nan cur) in
  let nobs' := if is_observation then S (nobs st) else nobs st in
  if negb (is_nan (weighted st)) then
    let old_wt1 := old_wt st * old_wt_factor in
    if is_observation then
      let weighted' :=
        if fval_neqb (weighted st) cur then
          fdiv (fadd (fmul (Fin old_wt1) (weighted st)) (fmul (Fin new_wt) cur))
               (Fin (old_wt1 + new_wt))
        else weighted st in
      EwmState weighted' (if adjust then old_wt1 + new_wt else 1) nobs'
    else EwmState (weighted st) old_wt1 nobs'
  else if is_observation then EwmState cur (old_wt st) nobs'
  else EwmState (weighted st) (old_wt st) nobs'.

Fixpoint ewm_loop (alpha : Q) (adjust : bool) (st : ewm_state) (l : Series)
  : Series :=
  match l with
  | [] => []
  | cur :: t =>
      let st' := ewm_step alpha adjust st cur in
      ewm_output st' :: ewm_loop alpha adjust st' t
  end.

(** [s.ewm(span=span, adjust=adjust).mean()]: the smoothing factor is
    [1 / (1 + com)] with [com = (span - 1) / 2]. *)
Definition ewm_alpha (span : Q) : Q := 1 / (1 + (span - 1) / 2).

Definition ewm_mean (span : Q) (adjust : bool) (s : Series) : Series :=
  match prep_values s with
  | [] => []
  | x0 :: t =>
      let st0 := EwmState x0 1 (if is_nan x0 then 0 else 1) in
      ewm_output st0 :: ewm_loop (ewm_alpha span) adjust st0 t
  end.

(** [s.cumsum()]: running sum; a missing value stays missing and is left
    out of the sum. *)
Fixpoint cumsum_from (acc : fval) (s : Series) : Series :=
  match s with
  | [] => []
  | NaN :: t => NaN :: cumsum_from acc t
  | x :: t => let acc' := fadd acc x in acc' :: cumsum_from acc' t
  end.

Definition cumsum (s : Series) : Series := cumsum_from (Fin 0) s.

(** [s.tail(n)]: the last [n] entries. *)
Definition tail {A : Type} (n : nat) (l : list A) : list A :=
  drop (length l - n) l.

(** ** Data model *)

(** A trading date, the label of a row. *)
Record Timestamp : Type := mkTimestamp {
  year : nat;
  month : nat;
  day : nat
}.

(** The DataFrame held in the session: the date index and the named
    columns.  [data['Close']] is a lookup that raises [KeyError] on a
    missing column, [data['VWAP'] = s] adds or replaces a column. *)
Record DataFrame : Type := mkDataFrame {
  df_index : list Timestamp;
  df_columns : gmap string Series
}.

Inductive exn : Type :=
  | KeyError (key : string)
  | IndexError
  | FileNotFoundError (path : string)
  | OSError
  | RenderError
  | ResponseError.

(** Outcome of a computation that may raise. *)
Inductive result (A : Type) : Type :=
  | Ok (a : A)
  | Raise (e : exn).
Arguments Ok {A} a.
Arguments Raise {A} e.

#[global] Instance result_ret : MRet result := fun A a => Ok a.
#[global] Instance result_bind : MBind result := fun A B f m =>
  match m with
  | Ok a => f a
  | Raise e => Raise e
  end.

Definition getitem (data : DataFrame) (key : string) : result Series :=
  match df_columns data !! key with
  | Some s => Ok s
  | None => Raise (KeyError key)
  end.

Definition setitem (data : DataFrame) (key : string) (s : Series) : DataFrame :=
  mkDataFrame (df_index data) (<[key := s]> (df_columns data)).

Record LineStyle : Type := mkLine {
  dash : string;
  color : string;
  width : nat
}.

(** A trace of the figure.  Every scatter trace of the script is drawn with
    [mode='lines']; [yaxis] is ["y"] unless the trace names another axis. *)
Inductive Trace : Type :=
  | Candlestick (x : list Timestamp) (open high low close : Series)
  | Scatter (x : list Timestamp) (y : Series) (name : string)
            (yaxis : string) (line : option LineStyle).

Abbreviation Figure := (list Trace) (only parsing).

Definition add_trace (fig : Figure) (t : Trace) : Figure := fig ++ [t].

(** [idx[0]] and [idx[-1]]. *)
Definition index_first (idx : list Timestamp) : result Timestamp :=
  match idx with
  | [] => Raise IndexError
  | d :: _ => Ok d
  end.

Definition index_last (idx : list Timestamp) : result Timestamp :=
  match last idx with
  | None => Raise IndexError
  | Some d => Ok d
  end.

Section Indicators.

(** Square root on finite values.  It is irrational in general and rounded
    by the hardware; the development is parametric in it. *)
Variable fsqrt : Q → Q.

(** [s.rolling(window=w).std()], with the default [ddof=1]. *)
Definition rolling_std_at (w : nat) (s : Series) (i : nat) : fval :=
  match window w s i with
  | None => NaN
  | Some l => match finite_values l with
              | Some qs => if decide (length qs ≤ 1)%nat then NaN
                           else Fin (fsqrt (Qvar qs))
              | None => NaN
              end
  end.

Definition rolling_std (w : nat) (s : Series) : Series :=
  rolling_std_at w s <$> seq 0 (length s).

(** ** The indicator engine *)

(** The candlestick figure the script starts from. *)
Definition candlestick_figure (data : DataFrame) : result Figure :=
  open ← getitem data "Open";
  high ← getitem data "High";
  low ← getitem data "Low";
  close ← getitem data "Close";
  Ok [Candlestick (df_index data) open high low close].

(** The locals [gain] and [loss] of [calculate_rsi]. *)
Definition rsi_gain (window : nat) (close : Series) : Series :=
  let delta := diff close in
  rolling_mean window (where_ delta (series_gt delta (Fin 0)) (Fin 0)).

Definition rsi_loss (window : nat) (close : Series) : Series :=
  let delta := diff close in
  rolling_mean window
    (series_neg (where_ delta (series_lt delta (Fin 0)) (Fin 0))).

Definition rsi_of_close (window : nat) (close : Series) : Series :=
  let gain := rsi_gain window close in
  let loss := rsi_loss window close in
  let rs := series_div gain loss in
  scalar_sub (Fin 100) (scalar_div (Fin 100) (scalar_add (Fin 1) rs)).

Definition calculate_rsi (data : DataFrame) (window : nat) : result Series :=
  close ← getitem data "Close";
  Ok (rsi_of_close window close).

Definition macd_of_close (close : Series) : Series * Series :=
  let exp1 := ewm_mean 12 false close in
  let exp2 := ewm_mean 26 false close in
  let macd := series_sub exp1 exp2 in
  let signal := ewm_mean 9 false macd in
  (macd, signal).

Definition calculate_macd (data : DataFrame) : result (Series * Series) :=
  close ← getitem data "Close";
  Ok (macd_of_close close).

Definition dashed (c : string) : option LineStyle := Some (mkLine "dash" c 1).

(** [add_indicator]: the closure works on the session DataFrame [data] and
    on the figure [fig]; both are threaded through. *)
Definition add_indicator (indicator : string) (st : DataFrame * Figure)
  : result (DataFrame * Figure) :=
  let '(data, fig) := st in
  if (indicator =? "20-Day SMA")%string then
    close ← getitem data "Close";
    let sma := rolling_mean 20 close in
    Ok (data, add_trace fig (Scatter (df_index data) sma "SMA (20)" "y" None))
  else if (indicator =? "20-Day EMA")%string then
    close ← getitem data "Close";
    let ema := ewm_mean 20 true close in
    Ok (data, add_trace fig (Scatter (df_index data) ema "EMA (20)" "y" None))
  else if (indicator =? "20-Day Bollinger Bands")%string then
    close ← getitem data "Close";
    let sma := rolling_mean 20 close in
    close' ← getitem data "Close";
    let std := rolling_std 20 close' in
    let bb_upper := series_add sma (scalar_mul (Fin 2) std) in
    let bb_lower := series_sub sma (scalar_mul (Fin 2) std) in
    let fig1 := add_trace fig
                  (Scatter (df_index data) bb_upper "BB Upper" "y" None) in
    Ok (data, add_trace fig1
                (Scatter (df_index data) bb_lower "BB Lower" "y" None))
  else if (indicator =? "VWAP")%string then
    close ← getitem data "Close";
    volume ← getitem data "Volume";
    volume' ← getitem data "Volume";
    let data1 := setitem data "VWAP"
                   (series_div (cumsum (series_mul close volume))
                               (cumsum volume')) in
    vwap ← getitem data1 "VWAP";
    Ok (data1, add_trace fig (Scatter (df_index data1) vwap "VWAP" "y" None))
  else if (indicator =? "RSI")%string then
    rsi ← calculate_rsi data 14;
    let fig1 := add_trace fig (Scatter (df_index data) rsi "RSI" "y2" None) in
    d0 ← index_first (df_index data);
    d1 ← index_last (df_index data);
    let fig2 := add_trace fig1
                  (Scatter [d0; d1] [Fin 70; Fin 70] "Overbought" "y2"
                           (dashed "red")) in
    d0' ← index_first (df_index data);
    d1' ← index_last (df_index data);
    Ok (data, add_trace fig2
                (Scatter [d0'; d1'] [Fin 30; Fin 30] "Oversold" "y2"
                         (dashed "green")))
  else if (indicator =? "MACD")%string then
    '(macd, signal) ← calculate_macd data;
    let fig1 := add_trace fig (Scatter (df_index data) macd "MACD" "y3" None) in
    Ok (data, add_trace fig1
                (Scatter (df_index data) signal "Signal" "y3" None))
  else Ok (data, fig).

(** [for indicator in indicators: add_indicator(indicator)]. *)
Fixpoint add_indicators (indicators : list string) (st : DataFrame * Figure)
  : result (DataFrame * Figure) :=
  match indicators with
  | [] => Ok st
  | indicator :: rest =>
      st' ← add_indicator indicator st;
      add_indicators rest st'
  end.


(** The chart of one run of the script: the candlesticks, then the selected
    indicators in the order of the selection. *)
Definition render_chart (data : DataFrame) (indicators : list string)
  : result (DataFrame * Figure) :=
  fig ← candlestick_figure data;
  add_indicators indicators (data, fig).

End Indicators.

(** ** The report assembler *)

Definition NL : string := String "010"%char "".

(** Decimal digits of [n], padded with zeros on the left to [width]. *)
Definition zero_pad (width : nat) (n : N) : string :=
  let s := pretty n in
  String.concat "" (replicate (width - String.length s) "0") +:+ s.

(** [date.strftime('%Y-%m-%d')]. *)
Definition strftime_Ymd (d : Timestamp) : string :=
  zero_pad 4 (N.of_nat (year d)) +:+ "-" +:+
  zero_pad 2 (N.of_nat (month d)) +:+ "-" +:+
  zero_pad 2 (N.of_nat (day d)).

(** Nearest integer, ties to the even one. *)
Definition round_half_even (q : Q) : Z :=
  let n := Qfloor q in
  match Qcompare (q - inject_Z n) (1 # 2) with
  | Lt => n
  | Gt => (n + 1)%Z
  | Eq => if Z.even n then n else (n + 1)%Z
  end.

(** The number of hundredths shown by the format [.2f]. *)
Definition hundredths (q : Q) : Z := round_half_even (Qabs q * 100).

(** [f"{value:.2f}"]. *)
Definition format_2f (v : fval) : string :=
  match v with
  | NaN => "nan"
  | PInf => "inf"
  | NInf => "-inf"
  | Fin q =>
      let h := Z.to_N (hundredths q) in
      (if Qlt_le_dec q 0 then "-" else "") +:+
      pretty (h `div` 100)%N +:+ "." +:+ zero_pad 2 (h `mod` 100)%N
  end.

(** [s.items()] of a series carrying the index [idx]. *)
Definition items (idx : list Timestamp) (s : Series) : list (Timestamp * fval) :=
  zip idx s.

Definition rsi_line (item : Timestamp * fval) : string :=
  NL +:+ strftime_Ymd item.1 +:+ ": " +:+ format_2f item.2.

Definition macd_line (row : Timestamp * (fval * fval)) : string :=
  NL +:+ strftime_Ymd row.1 +:+ ": MACD=" +:+ format_2f row.2.1 +:+
  ", Signal=" +:+ format_2f row.2.2.

(** The rows the RSI loop visits: the last ten points of the series. *)
Definition recent_rsi (data : DataFrame) (rsi : Series)
  : list (Timestamp * fval) :=
  items (tail 10 (df_index data)) (tail 10 rsi).

(** The rows of the frame built from the last ten points of both MACD
    series. *)
Definition recent_data (data : DataFrame) (macd signal : Series)
  : list (Timestamp * (fval * fval)) :=
  zip (tail 10 (df_index data)) (zip (tail 10 macd) (tail 10 signal)).

Definition rsi_data (data : DataFrame) (rsi : Series) : string :=
  fold_left (fun acc item => acc +:+ rsi_line item) (recent_rsi data rsi)
            (NL +:+ "Recent RSI values:").

Definition macd_data (data : DataFrame) (macd signal : Series) : string :=
  fold_left (fun acc row => acc +:+ macd_line row)
            (recent_data data macd signal)
            (NL +:+ NL +:+ "Recent MACD values:").

(** The text [tech_data] built by the analysis handler. *)
Definition tech_data (data : DataFrame) (indicators : list string)
  : result string :=
  let tech0 := "" in
  tech1 ← (if bool_decide ("RSI" ∈ indicators) then
             rsi ← calculate_rsi data 14;
             Ok (tech0 +:+ rsi_data data rsi)
           else Ok tech0);
  if bool_decide ("MACD" ∈ indicators) then
    '(macd, signal) ← calculate_macd data;
    Ok (tech1 +:+ macd_data data macd signal)
  else Ok tech1.

(** ** The analysis handler and its temporary file *)

(** What the handler can observe and change outside the process: the files
    of the file system with their contents, and the lines written to the
    page. *)
Record World : Type := mkWorld {
  files : gmap string string;
  page : list string
}.

Record Message : Type := mkMessage {
  role : string;
  content : string;
  images : list string
}.

(** The reply of the model client, a dictionary of dictionaries. *)
Abbreviation Response := (gmap string (gmap string string)) (only parsing).

(** The external collaborators, each with its possible failure: the name
    [NamedTemporaryFile] picks (or no name when the creation fails), the
    image export of the figure, base64, and the model call. *)
Record Env : Type := mkEnv {
  env_tmpname : option string;
  env_write_image : Figure → option string;
  env_b64encode : string → string;
  env_chat : string → list Message → option Response
}.

(** A step of the handler: it reads and changes the world and may raise;
    the changes made before an exception stay. *)
Definition Step (A : Type) : Type := World → result A * World.

Definition step_bind {A B : Type} (m : Step A) (f : A → Step B) : Step B :=
  fun w =>
    match m w with
    | (Ok a, w') => f a w'
    | (Raise e, w') => (Raise e, w')
    end.

Definition lift {A : Type} (r : result A) : Step A := fun w => (r, w).

Notation "x ←ˢ m ; k" := (step_bind m (fun x => k))
  (at level 20, m at level 100, k at level 200, right associativity,
   format "x  ←ˢ  m ;  '/' k").

(** [tempfile.NamedTemporaryFile(suffix=".png", delete=False)]: the file
    exists, empty, from the creation on.  Leaving the [with] block closes
    it and, with [delete=False], keeps it, also when the block raises. *)
Definition named_temporary_file (env : Env) : Step string :=
  fun w =>
    match env_tmpname env with
    | None => (Raise OSError, w)
    | Some p => (Ok p, mkWorld (<[p := ""]> (files w)) (page w))
    end.

(** [fig.write_image(p)]: the PNG export of the figure, written to [p]. *)
Definition write_image (env : Env) (fig : Figure) (p : string) : Step unit :=
  fun w =>
    match env_write_image env fig with
    | None => (Raise RenderError, w)
    | Some png => (Ok (), mkWorld (<[p := png]> (files w)) (page w))
    end.

(** [open(p, "rb").read()]. *)
Definition read_file (p : string) : Step string :=
  fun w =>
    match files w !! p with
    | None => (Raise (FileNotFoundError p), w)
    | Some bytes => (Ok bytes, w)
    end.

(** [ollama.chat(model=..., messages=...)]. *)
Definition chat (env : Env) (model : string) (messages : list Message)
  : Step Response :=
  fun w =>
    match env_chat env model messages with
    | None => (Raise ResponseError, w)
    | Some r => (Ok r, w)
    end.

(** [st.write(text)]. *)
Definition st_write (text : string) : Step unit :=
  fun w => (Ok (), mkWorld (files w) (page w ++ [text])).

(** [response["message"]["content"]]. *)
Definition response_content (response : Response) : result string :=
  match response !! "message" with
  | None => Raise (KeyError "message")
  | Some m => match m !! "content" with
              | None => Raise (KeyError "content")
              | Some c => Ok c
              end
  end.

(** [os.remove(p)]. *)
Definition os_remove (p : string) : Step unit :=
  fun w =>
    match files w !! p with
    | None => (Raise (FileNotFoundError p), w)
    | Some _ => (Ok (), mkWorld (delete p (files w)) (page w))
    end.

Definition prompt (tech : string) : string :=
  "You are a Stock Trader specializing in Technical Analysis at a top financial institution." +:+ NL +:+
  "                            Analyze the stock chart's technical indicators and provide a buy/hold/sell recommendation." +:+ NL +:+
  "                            Base your recommendation only on the candlestick chart and the displayed technical indicators." +:+ NL +:+
  "                            First, provide the recommendation, then, provide your detailed reasoning." +:+ NL +:+
  "                            " +:+ NL +:+
  "                            Additional Technical Data:" +:+ tech +:+ NL +:+
  "                ".

(** The body run when the button "Run AI Analysis" is pressed. *)
Definition run_ai_analysis (env : Env) (data : DataFrame)
    (indicators : list string) (fig : Figure) : Step unit :=
  tmpfile_path ←ˢ named_temporary_file env;
  _ ←ˢ write_image env fig tmpfile_path;
  bytes ←ˢ read_file tmpfile_path;
  let image_data := env_b64encode env bytes in
  tech ←ˢ lift (tech_data data indicators);
  let messages := [mkMessage "user" (prompt tech) [image_data]] in
  response ←ˢ chat env "llama3.2-vision" messages;
  _ ←ˢ st_write "**AI Analysis Results:**";
  text ←ˢ lift (response_content response);
  _ ←ˢ st_write text;
  os_remove tmpfile_path.

(** ** The layout of the chart *)

(** The settings of one axis. *)
Record Axis : Type := mkAxis {
  ax_title : option string;
  ax_domain : option (Q * Q);
  ax_gridcolor : option string
}.

Inductive LayoutValue : Type :=
  | LInt (n : Z)
  | LStr (s : string)
  | LBool (b : bool)
  | LAxis (a : Axis).

(** [dict(domain=[lo, hi])] and [dict(title=t, domain=[lo, hi])]. *)
Definition axis_domain (lo hi : Q) : LayoutValue :=
  LAxis (mkAxis None (Some (lo, hi)) None).
Definition axis_titled (t : string) (lo hi : Q) : LayoutValue :=
  LAxis (mkAxis (Some t) (Some (lo, hi)) None).
Definition axis_grid (c : string) : LayoutValue :=
  LAxis (mkAxis None None (Some c)).

(** [d.update(other)]: the entries of [other] replace those of [d]. *)
Definition dict_update {V : Type} (d other : gmap string V) : gmap string V :=
  other ∪ d.

(** The chart title. *)
Definition chart_title (ticker : string) (start_date end_date : Timestamp)
  : string :=
  ticker +:+ " Performance Chart (" +:+ strftime_Ymd start_date +:+ " - " +:+
  strftime_Ymd end_date +:+ ")".

(** The dictionary [layout_update] built from the selection. *)
Definition layout_update (ticker : string) (start_date end_date : Timestamp)
    (indicators : list string) : gmap string LayoutValue :=
  let base : gmap string LayoutValue :=
    <["height" := LInt 800]>
      (<["yaxis" := axis_domain (6 # 10) 1]>
         (<["title" := LStr (chart_title ticker start_date end_date)]> ∅)) in
  if bool_decide ("RSI" ∈ indicators) && bool_decide ("MACD" ∈ indicators) then
    dict_update base
      (<["height" := LInt 1000]>
         (<["yaxis2" := axis_titled "RSI" (35 # 100) (55 # 100)]>
            (<["yaxis3" := axis_titled "MACD" (1 # 10) (3 # 10)]> ∅)))
  else if bool_decide ("RSI" ∈ indicators) then
    dict_update base (<["yaxis2" := axis_titled "RSI" (1 # 10) (3 # 10)]> ∅)
  else if bool_decide ("MACD" ∈ indicators) then
    dict_update base (<["yaxis3" := axis_titled "MACD" (1 # 10) (3 # 10)]> ∅)
  else base.

(** Merging a setting into the one the figure holds: the settings of an
    axis are merged field by field, any other value is replaced. *)
Definition merge_setting (new old : LayoutValue) : option LayoutValue :=
  match new, old with
  | LAxis a, LAxis b =>
      Some (LAxis (mkAxis
                     (match ax_title a with Some t => Some t | None => ax_title b end)
                     (match ax_domain a with Some d => Some d | None => ax_domain b end)
                     (match ax_gridcolor a with Some c => Some c | None => ax_gridcolor b end)))
  | _, _ => Some new
  end.

(** [fig.update_layout] called with the keyword arguments [settings]. *)
Definition update_layout (layout settings : gmap string LayoutValue)
  : gmap string LayoutValue :=
  union_with merge_setting settings layout.

(** The layout of the figure after the three calls of [update_layout]. *)
Definition chart_layout (ticker : string) (start_date end_date : Timestamp)
    (indicators : list string) : gmap string LayoutValue :=
  let l1 := update_layout ∅ (<["xaxis_rangeslider_visible" := LBool false]> ∅) in
  let l2 := update_layout l1
              (<["xaxis_rangeslider_visible" := LBool false]>
                 (<["yaxis" := axis_grid "#31333F"]>
                    (<["xaxis" := axis_grid "#31333F"]> ∅))) in
  update_layout l2 (layout_update ticker start_date end_date indicators).

(** The axis a trace is drawn against, and the layout entry that
    configures an axis. *)
Definition trace_yaxis (t : Trace) : string :=
  match t with
  | Candlestick _ _ _ _ _ => "y"
  | Scatter _ _ _ yaxis _ => yaxis
  end.

Definition axis_entry (yaxis : string) : string :=
  if (yaxis =? "y")%string then "yaxis"
  else if (yaxis =? "y2")%string then "yaxis2"
  else if (yaxis =? "y3")%string then "yaxis3"
  else yaxis.

(** The vertical extent of an axis in a layout, when it is set. *)
Definition domain_of (layout : gmap string LayoutValue) (entry : string)
  : option (Q * Q) :=
  match layout !! entry with
  | Some (LAxis a) => ax_domain a
  | _ => None
  end.

(** ** The script, one run per user interaction *)

(** What the widgets return in one run: the ticker, the two dates, whether
    the button "Fetch Data" was pressed, the selected indicators, whether
    the button "Run AI Analysis" was pressed. *)
Record Inputs : Type := mkInputs {
  in_ticker : string;
  in_start : Timestamp;
  in_end : Timestamp;
  in_fetch : bool;
  in_indicators : list string;
  in_analyze : bool
}.

(** The services behind the script: the price download, which raises or
    returns a frame, and the collaborators of the analysis handler. *)
Record Services : Type := mkServices {
  svc_download : string → Timestamp → Timestamp → option DataFrame;
  svc_env : Env
}.

(** The state a run works on: the session dictionary, which survives from
    one run to the next, the charts drawn, and the world of the handler,
    whose page also receives titles, headers and messages. *)
Record App : Type := mkApp {
  session : gmap string DataFrame;
  charts : list (Figure * gmap string LayoutValue);
  world : World
}.

Definition Run (A : Type) : Type := App → result A * App.

Definition run_bind {A B : Type} (m : Run A) (f : A → Run B) : Run B :=
  fun app =>
    match m app with
    | (Ok a, app') => f a app'
    | (Raise e, app') => (Raise e, app')
    end.

Definition run_ret {A : Type} (a : A) : Run A := fun app => (Ok a, app).

Notation "x ←ʳ m ; k" := (run_bind m (fun x => k))
  (at level 20, m at level 100, k at level 200, right associativity,
   format "x  ←ʳ  m ;  '/' k").

Definition run_lift {A : Type} (r : result A) : Run A := fun app => (r, app).

(** A step of the handler, run on the world of the application. *)
Definition in_world {A : Type} (m : Step A) : Run A :=
  fun app =>
    let '(r, w') := m (world app) in
    (r, mkApp (session app) (charts app) w').

(** [st.title], [st.sidebar.header], [st.success], [st.subheader]: a text
    on the page. *)
Definition st_text (text : string) : Run unit := in_world (st_write text).

(** [st.plotly_chart(fig)]. *)
Definition plotly_chart (fig : Figure) (layout : gmap string LayoutValue)
  : Run unit :=
  fun app =>
    (Ok (), mkApp (session app) (charts app ++ [(fig, layout)]) (world app)).

(** [st.session_state["stock_data"] = yf.download(...)], then the success
    message. *)
Definition fetch_data (svc : Services) (inp : Inputs) : Run unit :=
  fun app =>
    match svc_download svc (in_ticker inp) (in_start inp) (in_end inp) with
    | None => (Raise OSError, app)
    | Some frame =>
        st_text "Stock data loaded successfully!"
          (mkApp (<["stock_data" := frame]> (session app)) (charts app)
                 (world app))
    end.

Section Script.

Variable fsqrt : Q → Q.

(** The loop over the selection, on the frame of the session: an exception
    leaves the frame as the indicators before it left it. *)
Fixpoint indicator_loop (indicators : list string) (data : DataFrame)
    (fig : Figure) : result Figure * DataFrame :=
  match indicators with
  | [] => (Ok fig, data)
  | indicator :: rest =>
      match add_indicator fsqrt indicator (data, fig) with
      | Ok (data', fig') => indicator_loop rest data' fig'
      | Raise e => (Raise e, data)
      end
  end.

(** The loop run on the frame held in the session: [data] is that very
    object, what the loop writes to it is written to the session. *)
Definition loop_in_session (indicators : list string) (data : DataFrame)
    (fig : Figure) : Run (DataFrame * Figure) :=
  fun app =>
    let '(r, data') := indicator_loop indicators data fig in
    let app' := mkApp (<["stock_data" := data']> (session app)) (charts app)
                      (world app) in
    match r with
    | Ok fig' => (Ok (data', fig'), app')
    | Raise e => (Raise e, app')
    end.

(** The body guarded by ["stock_data" in st.session_state]. *)
Definition render_dashboard (svc : Services) (inp : Inputs) (data : DataFrame)
  : Run unit :=
  fig0 ←ʳ run_lift (candlestick_figure data);
  _ ←ʳ st_text "Technical Indicators";
  st ←ʳ loop_in_session (in_indicators inp) data fig0;
  let layout := chart_layout (in_ticker inp) (in_start inp) (in_end inp)
                             (in_indicators inp) in
  _ ←ʳ plotly_chart st.2 layout;
  _ ←ʳ st_text "AI-Powered Analysis";
  if in_analyze inp then
    in_world (run_ai_analysis (svc_env svc) st.1 (in_indicators inp) st.2)
  else run_ret ().

(** One run of the script. *)
Definition run_script (svc : Services) (inp : Inputs) : Run unit :=
  _ ←ʳ st_text "The ChatGippity Stock Analysis Dashboard";
  _ ←ʳ st_text "Configuration";
  _ ←ʳ (if in_fetch inp then fetch_data svc inp else run_ret ());
  fun app =>
    match session app !! "stock_data" with
    | Some data => render_dashboard svc inp data app
    | None => (Ok (), app)
    end.

End Script.

(** ** Line 97 in float64 arithmetic

    [data['VWAP'] = (data['Close'] * data['Volume']).cumsum()
                    / data['Volume'].cumsum()]
    with the arithmetic of the hardware: a product, a sum or a quotient of
    two float64 values is the exact result rounded to the nearest float64,
    ties to the even significand ([round64]); a result beyond the largest
    float64 is an infinity, one below the smallest normal number is rounded
    on the grid of the subnormal numbers.  The int64 column Volume and its
    running sum, which is exact, are converted to float64 where they meet a
    float64 operand. *)

(** The exponent of the binade of [q]: [floor (log2 |q|)], for [q] other
    than zero. *)
Definition ilog2 (q : Q) : Z :=
  let k := (Z.log2 (Z.abs (Qnum q)) - Z.log2 (Zpos (Qden q)))%Z in
  if Qle_bool (2 ^ k) (Qabs q) then k else (k - 1)%Z.

(** The float64 nearest to a rational, ties to the even significand. *)
Definition round64 (q : Q) : fval :=
  if Qeq_bool q 0 then Fin 0
  else
    let e := Z.max (ilog2 q - 52) (-1074) in
    let r := inject_Z (round_half_even (q / 2 ^ e)) * 2 ^ e in
    if Qle_bool (2 ^ 1024) (Qabs r) then
      match Qsign q with Lt => NInf | _ => PInf end
    else Fin r.

(** A result as it is stored: a finite one is rounded, a special value is
    kept. *)
Definition fl (v : fval) : fval :=
  match v with Fin q => round64 q | _ => v end.

(** Sum, product and quotient of two float64 values. *)
Definition fadd64 (x y : fval) : fval := fl (fadd x y).
Definition fmul64 (x y : fval) : fval := fl (fmul x y).
Definition fdiv64 (x y : fval) : fval := fl (fdiv x y).

(** [s * t] and [s / t] on float64 columns. *)
Definition series_mul64 (s t : Series) : Series := zip_with fmul64 s t.
Definition series_div64 (s t : Series) : Series := zip_with fdiv64 s t.

(** [s.cumsum()] on a float64 column: the running sum is rounded at every
    row; a missing value stays missing and is left out of the sum. *)
Fixpoint cumsum64_from (acc : fval) (s : Series) : Series :=
  match s with
  | [] => []
  | NaN :: t => NaN :: cumsum64_from acc t
  | x :: t => let acc' := fadd64 acc x in acc' :: cumsum64_from acc' t
  end.

Definition cumsum64 (s : Series) : Series := cumsum64_from (Fin 0) s.

(** The right-hand side of line 97: [volume] is the int64 column, converted
    value by value for the product, its running sum being converted for
    the quotient. *)
Definition vwap64 (close volume : Series) : Series :=
  series_div64 (cumsum64 (series_mul64 close (fl <$> volume)))
               (fl <$> cumsum volume).

(** The branch "VWAP" of [add_indicator] in float64 arithmetic. *)
Definition add_vwap64 (st : DataFrame * Figure)
  : result (DataFrame * Figure) :=
  let '(data, fig) := st in
  close ← getitem data "Close";
  volume ← getitem data "Volume";
  volume' ← getitem data "Volume";
  let data1 := setitem data "VWAP"
                 (series_div64
                    (cumsum64 (series_mul64 close (fl <$> volume)))
                    (fl <$> cumsum volume')) in
  vwap ← getitem data1 "VWAP";
  Ok (data1, add_trace fig (Scatter (df_index data1) vwap "VWAP" "y" None)).

(** ** Notions used to state the properties *)

(** A share count as a number. *)
Definition count (n : N) : Q := inject_Z (Z.of_N n).

(** A column of finite prices, and a column of share counts. *)
Definition price_series (close : list Q) : Series := Fin <$> close.
Definition count_series (volume : list N) : Series :=
  (fun n => Fin (count n)) <$> volume.

(** The price at row [j]. *)
Definition price_at (close : list Q) (j : nat) : Q := default 0 (close !! j).

(** Arithmetic mean of the [w] prices at rows [i + 1 - w] to [i]. *)
Definition trailing_mean (w : nat) (close : list Q) (i : nat) : Q :=
  Qsum (price_at close <$> seq (i + 1 - w) w) / inject_Z (Z.of_nat w).

(** The RSI at one row, from the rolling gain and loss of that row. *)
Definition rsi_value (gain loss : fval) : fval :=
  fsub (Fin 100) (fdiv (Fin 100) (fadd (Fin 1) (fdiv gain loss))).

(** A rolling mean of magnitudes: missing, or a non-negative number. *)
Definition nan_or_nonneg (x : fval) : Prop :=
  match x with
  | NaN => True
  | Fin q => 0 <= q
  | _ => False
  end.

(** An entry of a masked column of magnitudes: a non-negative number or
    plus infinity. *)
Definition magnitude (x : fval) : Prop :=
  match x with
  | Fin q => 0 <= q
  | PInf => True
  | _ => False
  end.

(** Volume traded, and turnover (price times volume), from the first row
    to row [t] included. *)
Definition volume_upto (volume : list N) (t : nat) : Q :=
  Qsum (count <$> take (S t) volume).

Definition turnover_upto (close : list Q) (volume : list N) (t : nat) : Q :=
  Qsum (zip_with (fun c n => c * count n) (take (S t) close)
                 (take (S t) volume)).

(** Smallest and largest price of a list. *)
Definition min_price (l : list Q) : Q :=
  match l with
  | [] => 0
  | x :: t => foldr Qmin x t
  end.

Definition max_price (l : list Q) : Q :=
  match l with
  | [] => 0
  | x :: t => foldr Qmax x t
  end.

(** Two series with the same values, row by row. *)
Definition series_equiv (s t : Series) : Prop := Forall2 feq s t.

(** The thirty-row Close column of constant value 100. *)
Definition constant_close : list Q := replicate 30 100.

(** The session data [d] hold the same index and the same columns as
    [data], the column VWAP apart. *)
Definition same_ohlcv (d data : DataFrame) : Prop :=
  df_index d = df_index data ∧
  ∀ k : string, k ≠ "VWAP" → df_columns d !! k = df_columns data !! k.

(** The two exponential means as the textbooks define them.  The
    normalised finite-weight mean at row [t] is the sum of the prices of
    rows [t], [t - 1], ..., 0 weighted by 1, [1 - alpha], [(1 - alpha)^2],
    ..., divided by the sum of these weights. *)
Fixpoint qpow (b : Q) (k : nat) : Q :=
  match k with
  | O => 1
  | S k' => b * qpow b k'
  end.

Definition ema_normalized (alpha : Q) (xs : list Q) (t : nat) : Q :=
  Qsum ((fun k => qpow (1 - alpha) k * price_at xs (t - k)) <$> seq 0 (S t))
  / Qsum ((fun k => qpow (1 - alpha) k) <$> seq 0 (S t)).

(** The recursive mean starts at the first price and moves by
    [y(t) = (1 - alpha) y(t-1) + alpha x(t)]. *)
Fixpoint ema_recursive_from (alpha y : Q) (xs : list Q) : list Q :=
  match xs with
  | [] => []
  | x :: rest =>
      let y' := (1 - alpha) * y + alpha * x in
      y' :: ema_recursive_from alpha y' rest
  end.

Definition ema_recursive (alpha : Q) (xs : list Q) : list Q :=
  match xs with
  | [] => []
  | x :: rest => x :: ema_recursive_from alpha x rest
  end.

(** Weighted sum of the prices of a list, the last one with weight 1, the
    one before with weight [b], and so on; and the sum of the weights. *)
Definition weighted_sum (b : Q) (l : list Q) : Q :=
  fold_left (fun acc x => b * acc + x) l 0.

Definition weight_sum (b : Q) (l : list Q) : Q :=
  fold_left (fun acc _ => b * acc + 1) l 0.

(** Concatenation of a list of pieces of text. *)
Fixpoint glue (l : list string) : string :=
  match l with
  | [] => ""
  | piece :: rest => piece +:+ glue rest
  end.

(** Number of rows at which a series is defined. *)
Definition defined_points (s : Series) : nat :=
  length (filter (fun x => is_nan x = false) s).





(** A trace with as many values as labels, and a frame whose columns all
    have one value per row. *)
Definition trace_aligned (t : Trace) : Prop :=
  match t with
  | Candlestick x open high low close =>
      length open = length x ∧ length high = length x ∧
      length low = length x ∧ length close = length x
  | Scatter x y _ _ _ => length y = length x
  end.

Definition frame_aligned (data : DataFrame) : Prop :=
  ∀ (k : string) (s : Series),
    df_columns data !! k = Some s → length s = length (df_index data).

(** The six names [add_indicator] knows. *)
Definition known_indicators : list string :=
  ["20-Day SMA"; "20-Day EMA"; "20-Day Bollinger Bands"; "VWAP"; "MACD"; "RSI"].

(** Number of line breaks in a text. *)
Fixpoint count_newlines (s : string) : nat :=
  match s with
  | EmptyString => 0
  | String c rest =>
      (if Ascii.eqb c "010"%char then 1 else 0) + count_newlines rest
  end.

(** Half a unit in the last place, relative to the value: [2^-53]. *)
Definition u64 : Q := 1 # 9007199254740992.

(** Bound of the relative rounding error of the VWAP of row [t]: one
    rounding for the product, one for each addition and one for the
    quotient, [t + 3] in all, each of at most [2^-53], doubled to stay
    linear. *)
Definition rounding_slack (t : nat) : Q :=
  inject_Z (Z.of_nat (t + 3)) / 2 ^ 52.

(** The text of a number rounded to two decimals: a minus sign if the
    number is negative, then the integer part, a dot and two digits of the
    number [h] of hundredths nearest to the magnitude, the even one of the
    two when the magnitude lies half-way. *)
Definition two_decimals (q : Q) (text : string) : Prop :=
  ∃ h : N,
    Qabs (Qabs q * 100 - count h) <= 1 # 2 ∧
    (Qabs (Qabs q * 100 - count h) == 1 # 2 → N.even h = true) ∧
    text = (if Qlt_le_dec q 0 then "-" else "") +:+
           pretty (h `div` 100)%N +:+ "." +:+
           pretty ((h `mod` 100) `div` 10)%N +:+ pretty (h `mod` 10)%N.

(** The text of a value of a column in the report. *)
Definition value_text (v : fval) (text : string) : Prop :=
  match v with
  | Fin q => two_decimals q text
  | PInf => text = "inf"
  | NInf => text = "-inf"
  | NaN => text = "nan"
  end.

(** ** Sample inputs *)

(** Successive dates of January 2024. *)
Definition january (n : nat) : list Timestamp :=
  (fun d => mkTimestamp 2024 1 (S d)) <$> seq 0 n.

(** A frame with the given Close and Volume columns, one row per day; the
    other three price columns repeat the Close. *)
Definition frame_of (close : list Q) (volume : list N) : DataFrame :=
  mkDataFrame (january (length close))
    (<["Open" := price_series close]>
       (<["High" := price_series close]>
          (<["Low" := price_series close]>
             (<["Close" := price_series close]>
                (<["Volume" := count_series volume]> ∅))))).

(** Thirty days at the constant price 100. *)
Definition constant_frame : DataFrame :=
  frame_of constant_close (replicate 30 1000%N).

(** Fifteen days of prices rising by one a day. *)
Definition ramp_close : list Q := [1; 2; 3; 4; 5; 6; 7; 8; 9; 10; 11; 12; 13; 14; 15].
Definition ramp_frame : DataFrame := frame_of ramp_close (replicate 15 1%N).

(** Eighteen days: the fifteen rising prices, then a fall, a rise and a
    sharp fall. *)
Definition swing_close : list Q := ramp_close ++ [14; 16; 10].
Definition swing_frame : DataFrame :=
  frame_of swing_close (replicate 18 1%N).

(** Twenty-five days of prices rising by one a day, with a volume that is
    zero on the first two days. *)
Definition month_close : list Q :=
  (fun k => inject_Z (Z.of_nat (S k))) <$> seq 0 25.
Definition month_volume : list N := [0; 0]%N ++ replicate 23 200%N.
Definition month_frame : DataFrame := frame_of month_close month_volume.

(** A square root truncated to three decimals. *)
Definition sqrt_3dp (q : Q) : Q :=
  inject_Z (Z.sqrt (Qfloor (q * 1000000))) / 1000.

(** Collaborators of the analysis handler: an export that succeeds, an
    encoding left abstract as the identity, and a model client that either
    raises or returns a well-formed reply. *)
Definition env_model_down : Env :=
  mkEnv (Some "/tmp/tmpq1w2e3.png") (fun _ => Some "PNG") (fun b => b)
        (fun _ _ => None).

Definition env_model_up : Env :=
  mkEnv (Some "/tmp/tmpq1w2e3.png") (fun _ => Some "PNG") (fun b => b)
        (fun _ _ => Some {["message" := {["content" := "HOLD"]}]}).

Definition empty_world : World := mkWorld ∅ [].

(** The handler succeeds exactly when the image export, the report text,
    the model call and the reading of its reply all succeed. *)
Definition all_steps_succeed (env : Env) (data : DataFrame)
    (indicators : list string) (fig : Figure) : Prop :=
  ∃ (png tech : string) (response : Response) (text : string),
    env_write_image env fig = Some png ∧
    tech_data data indicators = Ok tech ∧
    env_chat env "llama3.2-vision"
      [mkMessage "user" (prompt tech) [env_b64encode env png]]
    = Some response ∧
    response_content response = Ok text.


(** Three days of a frame that lacks the column Close. *)
Definition no_close_frame : DataFrame :=
  mkDataFrame (january 3) {["Open" := price_series [1; 2; 3]]}.

(** A frame with the five columns and no row. *)
Definition empty_frame : DataFrame := frame_of [] [].

(** A model client whose reply lacks the entry "content". *)
Definition env_model_odd : Env :=
  mkEnv (Some "/tmp/tmpq1w2e3.png") (fun _ => Some "PNG") (fun b => b)
        (fun _ _ => Some {["message" := ∅]}).

(** What the widgets return in a sample run, the ticker and the dates being
    fixed. *)
Definition sample_inputs (fetch : bool) (indicators : list string)
    (analyze : bool) : Inputs :=
  mkInputs "AAPL" (mkTimestamp 2024 1 1) (mkTimestamp 2024 1 31)
           fetch indicators analyze.

(** Services whose download returns the eighteen-day swing, and services
    whose download raises. *)
Definition services_up : Services :=
  mkServices (fun _ _ _ => Some swing_frame) env_model_up.
Definition services_down : Services :=
  mkServices (fun _ _ _ => None) env_model_down.

(** A first run, and a later run with the fifteen rising prices in the
    session. *)
Definition fresh_app : App := mkApp ∅ [] empty_world.
Definition loaded_app : App := mkApp {["stock_data" := ramp_frame]} [] empty_world.

(** The float64 nearest to 284.65, and two days at that price with 900 and
    100 shares traded. *)
Definition close_284_65 : Q := 2503807878771507 # 8796093022208.
Definition rounding_frame : DataFrame :=
  frame_of [close_284_65; close_284_65] [900; 100]%N.

(** * Properties *)

(** ** Values *)

#[global] Instance feq_equiv : Equivalence feq.
Proof.
  split.
  - intros [q| | |]; simpl; auto. reflexivity.
  - intros [a| | |] [b| | |]; simpl; auto. intros H; symmetry; exact H.
  - intros [a| | |] [b| | |] [c| | |]; simpl; auto; try tauto.
    intros H1 H2; rewrite H1; exact H2.
Qed.

Lemma feqb_spec (x y : fval) : feqb x y = true ↔ feq x y.
Proof.
  destruct x, y; simpl; try (split; [discriminate | tauto]); try tauto.
  apply Qeq_bool_iff.
Qed.

Lemma Qsign_pos (q : Q) : 0 < q → Qsign q = Gt.
Proof. intros H. unfold Qsign. apply Qgt_alt. exact H. Qed.

Lemma Qsign_zero (q : Q) : q == 0 → Qsign q = Eq.
Proof. intros H. unfold Qsign. apply Qeq_alt. exact H. Qed.

Lemma Qeq_bool_false (a b : Q) : ¬ a == b → Qeq_bool a b = false.
Proof.
  intros H. destruct (Qeq_bool a b) eqn:E; [|reflexivity].
  apply Qeq_bool_iff in E. contradiction.
Qed.

Lemma Qeq_bool_true (a b : Q) : a == b → Qeq_bool a b = true.
Proof. apply Qeq_bool_iff. Qed.

(** ** The primitives on documented inputs *)

(** The example of the pandas documentation of [ewm]: with [com=0.5], that
    is span 2, the series 0, 1, 2, NaN, 4 has the adjusted means 0, 0.75,
    1.615385, 1.615385, 3.670213. *)
Example ewm_adjusted_documented :
  series_equiv (ewm_mean 2 true [Fin 0; Fin 1; Fin 2; NaN; Fin 4])
               [Fin 0; Fin (3 # 4); Fin (21 # 13); Fin (21 # 13);
                Fin (345 # 94)].
Proof. repeat constructor. Qed.

(** With [adjust=False] the weights of the last mean and of the new value
    after one missing row are [(1 - alpha)^2] and [alpha], renormalised. *)
Example ewm_unadjusted_documented :
  series_equiv (ewm_mean 2 false [Fin 0; Fin 1; Fin 2; NaN; Fin 4])
               [Fin 0; Fin (2 # 3); Fin (14 # 9); Fin (14 # 9);
                Fin (230 # 63)].
Proof. repeat constructor. Qed.

Example rolling_mean_skips_incomplete_windows :
  series_equiv
    (rolling_mean 2 [Fin 1; NaN; Fin 2; Fin 4; PInf; Fin 1; Fin 3])
    [NaN; NaN; NaN; Fin 3; NaN; NaN; Fin 2].
Proof. repeat constructor. Qed.

Example cumsum_skips_missing :
  series_equiv (cumsum [Fin 1; NaN; Fin 2]) [Fin 1; NaN; Fin 3].
Proof. repeat constructor. Qed.

Example diff_and_masks :
  diff [Fin 3; Fin 5; Fin 4] = [NaN; Fin (5 + - 3); Fin (4 + - 5)] ∧
  series_gt (diff [Fin 3; Fin 5; Fin 4]) (Fin 0) = [false; true; false] ∧
  series_lt (diff [Fin 3; Fin 5; Fin 4]) (Fin 0) = [false; false; true].
Proof. repeat split. Qed.

Example format_2f_samples :
  format_2f (Fin (650 # 7)) = "92.86" ∧ format_2f (Fin (-1 # 3)) = "-0.33" ∧
  format_2f (Fin (-1 # 1000)) = "-0.00" ∧ format_2f (Fin 100) = "100.00" ∧
  format_2f NaN = "nan" ∧ format_2f PInf = "inf".
Proof. repeat split; vm_compute; reflexivity. Qed.

(** ** Series of finite values *)

Lemma finite_values_fmap (qs : list Q) : finite_values (Fin <$> qs) = Some qs.
Proof. induction qs as [|q qs IH]; csimpl; [reflexivity|]. rewrite IH. reflexivity. Qed.

Lemma finite_values_length (l : list fval) (qs : list Q) :
  finite_values l = Some qs → length qs = length l.
Proof.
  revert qs. induction l as [|x l IH]; intros qs; simpl.
  - intros [= <-]. reflexivity.
  - destruct x; try discriminate.
    destruct (finite_values l) as [qs'|]; [|discriminate].
    intros [= <-]. simpl. f_equal. apply IH. reflexivity.
Qed.

Lemma finite_values_Forall (P : Q → Prop) (l : list fval) (qs : list Q) :
  Forall (fun x => match x with Fin q => P q | _ => True end) l →
  finite_values l = Some qs → Forall P qs.
Proof.
  revert qs. induction l as [|x l IH]; intros qs Hall; simpl.
  - intros [= <-]. constructor.
  - destruct x; try discriminate.
    destruct (finite_values l) as [qs'|] eqn:E; [|discriminate].
    intros [= <-]. inversion Hall; subst. constructor; [assumption|].
    apply IH; [assumption|reflexivity].
Qed.

Lemma rolling_mean_length (w : nat) (s : Series) :
  length (rolling_mean w s) = length s.
Proof. unfold rolling_mean. rewrite length_fmap, length_seq. reflexivity. Qed.

Lemma rolling_mean_lookup (w : nat) (s : Series) (i : nat) :
  (i < length s)%nat → rolling_mean w s !! i = Some (rolling_mean_at w s i).
Proof.
  intros Hi. unfold rolling_mean.
  rewrite list_lookup_fmap, lookup_seq_lt by assumption. reflexivity.
Qed.

Lemma rolling_mean_lookup_inv (w : nat) (s : Series) (i : nat) (x : fval) :
  rolling_mean w s !! i = Some x → (i < length s)%nat ∧ x = rolling_mean_at w s i.
Proof.
  intros H. assert (i < length s)%nat as Hi.
  { apply lookup_lt_Some in H. rewrite rolling_mean_length in H. exact H. }
  rewrite rolling_mean_lookup in H by assumption. split; congruence.
Qed.

Lemma rolling_mean_at_short (w : nat) (s : Series) (i : nat) :
  (i + 1 < w)%nat → rolling_mean_at w s i = NaN.
Proof.
  intros H. unfold rolling_mean_at, window.
  destruct (decide (i + 1 < w)%nat); [reflexivity|lia].
Qed.

Lemma window_full_length (w : nat) (s : Series) (i : nat) (l : list fval) :
  (i < length s)%nat → window w s i = Some l → length l = w.
Proof.
  intros Hi. unfold window. destruct (decide (i + 1 < w)%nat); [discriminate|].
  intros [= <-]. rewrite length_take, length_drop. lia.
Qed.

(** On a series of finite values the rolling mean of a full window is the
    mean of its points. *)
Lemma rolling_mean_at_finite (w : nat) (qs : list Q) (i : nat) :
  (0 < w)%nat → (w ≤ i + 1)%nat → (i < length qs)%nat →
  rolling_mean_at w (Fin <$> qs) i
  = Fin (Qmean (take w (drop (i + 1 - w) qs))).
Proof.
  intros Hw Hwi Hi. unfold rolling_mean_at, window.
  destruct (decide (i + 1 < w)%nat); [lia|].
  rewrite <- fmap_drop, <- fmap_take, finite_values_fmap.
  destruct (decide _) as [E|_]; [|reflexivity].
  rewrite length_take, length_drop in E. lia.
Qed.

Lemma take_drop_seq {A : Type} (d : A) (l : list A) (k n : nat) :
  (k + n ≤ length l)%nat →
  take n (drop k l) = (fun j => default d (l !! j)) <$> seq k n.
Proof.
  intros H. apply list_eq. intros i.
  rewrite lookup_take, lookup_drop, list_lookup_fmap.
  destruct (decide (i < n)%nat) as [Hi|Hi].
  - rewrite lookup_seq_lt by assumption. simpl.
    destruct (l !! (k + i)%nat) eqn:E; [reflexivity|].
    apply lookup_ge_None in E. lia.
  - rewrite lookup_seq_ge by lia. reflexivity.
Qed.

(** ** SMA *)

Lemma rolling_mean_trailing (w : nat) (close : list Q) (i : nat) :
  (0 < w)%nat → (w ≤ i + 1)%nat → (i < length close)%nat →
  rolling_mean w (price_series close) !! i
  = Some (Fin (Qmean (take w (drop (i + 1 - w) close)))) ∧
  Qmean (take w (drop (i + 1 - w) close)) == trailing_mean w close i.
Proof.
  intros Hw Hwi Hi. unfold price_series. split.
  - rewrite rolling_mean_lookup by (rewrite length_fmap; assumption).
    rewrite rolling_mean_at_finite by assumption. reflexivity.
  - unfold Qmean, trailing_mean.
    rewrite length_take, length_drop.
    replace (w `min` (length close - (i + 1 - w)))%nat with w by lia.
    rewrite (take_drop_seq 0) by lia. reflexivity.
Qed.


(** ** Bollinger bands *)

Lemma rolling_std_length (fsqrt : Q → Q) (w : nat) (s : Series) :
  length (rolling_std fsqrt w s) = length s.
Proof. unfold rolling_std. rewrite length_fmap, length_seq. reflexivity. Qed.

Lemma rolling_std_lookup (fsqrt : Q → Q) (w : nat) (s : Series) (i : nat) :
  (i < length s)%nat →
  rolling_std fsqrt w s !! i = Some (rolling_std_at fsqrt w s i).
Proof.
  intros Hi. unfold rolling_std.
  rewrite list_lookup_fmap, lookup_seq_lt by assumption. reflexivity.
Qed.

Lemma rolling_std_at_short (fsqrt : Q → Q) (w : nat) (s : Series) (i : nat) :
  (i + 1 < w)%nat → rolling_std_at fsqrt w s i = NaN.
Proof.
  intros H. unfold rolling_std_at, window.
  destruct (decide (i + 1 < w)%nat); [reflexivity|lia].
Qed.

Lemma rolling_std_at_finite (fsqrt : Q → Q) (w : nat) (qs : list Q) (i : nat) :
  (1 < w)%nat → (w ≤ i + 1)%nat → (i < length qs)%nat →
  rolling_std_at fsqrt w (Fin <$> qs) i
  = Fin (fsqrt (Qvar (take w (drop (i + 1 - w) qs)))).
Proof.
  intros Hw Hwi Hi. unfold rolling_std_at, window.
  destruct (decide (i + 1 < w)%nat); [lia|].
  rewrite <- fmap_drop, <- fmap_take, finite_values_fmap.
  destruct (decide _) as [E|_]; [|reflexivity].
  rewrite length_take, length_drop in E. lia.
Qed.

Lemma Qsum_fmap_ext (f g : nat → Q) (l : list nat) :
  (∀ k, k ∈ l → f k == g k) → Qsum (f <$> l) == Qsum (g <$> l).
Proof.
  induction l as [|k l IH]; intros H; csimpl; [reflexivity|].
  rewrite (H k), IH; [reflexivity| |apply elem_of_cons; left; reflexivity].
  intros k' Hk'. apply H. apply elem_of_cons. right. exact Hk'.
Qed.

(** The sample variance of a full window, spelled out over its rows. *)
Lemma Qvar_trailing (w : nat) (close : list Q) (i : nat) :
  (1 < w)%nat → (w ≤ i + 1)%nat → (i < length close)%nat →
  Qvar (take w (drop (i + 1 - w) close))
  == Qsum ((fun j => (price_at close j - trailing_mean w close i)
                     * (price_at close j - trailing_mean w close i))
             <$> seq (i + 1 - w) w)
     / inject_Z (Z.of_nat (w - 1)).
Proof.
  intros Hw Hwi Hi.
  destruct (rolling_mean_trailing w close i) as [_ Hm]; [lia|lia|lia|].
  unfold Qvar. cbv zeta. rewrite length_take, length_drop.
  replace (w `min` (length close - (i + 1 - w)))%nat with w by lia.
  assert (take w (drop (i + 1 - w) close)
          = price_at close <$> seq (i + 1 - w) w) as E
    by (apply (take_drop_seq 0); lia).
  rewrite E at 1. rewrite <- list_fmap_compose.
  apply Qmult_comp; [|reflexivity].
  apply Qsum_fmap_ext. intros j _. unfold compose. rewrite Hm. reflexivity.
Qed.

(** C5: at every row where the Bollinger bands are defined (row 19 and
    later) the upper band minus the lower band is four times the standard
    deviation of the twenty Close values of rows [i - 19] to [i], that is
    the square root of their sample variance, the sum of the squared
    distances to their mean divided by 19; at the first nineteen rows both
    bands are undefined. *)
Theorem bollinger_width_is_4_std (fsqrt : Q → Q) (data : DataFrame)
    (fig : Figure) (close : list Q) :
  getitem data "Close" = Ok (price_series close) →
  ∃ bb_upper bb_lower : Series,
    add_indicator fsqrt "20-Day Bollinger Bands" (data, fig)
    = Ok (data, fig ++ [Scatter (df_index data) bb_upper "BB Upper" "y" None;
                        Scatter (df_index data) bb_lower "BB Lower" "y" None]) ∧
    length bb_upper = length close ∧ length bb_lower = length close ∧
    ∀ i : nat, (i < length close)%nat →
      ((i < 19)%nat → bb_upper !! i = Some NaN ∧ bb_lower !! i = Some NaN) ∧
      ((19 ≤ i)%nat →
         ∃ u l mean var : Q,
           bb_upper !! i = Some (Fin u) ∧ bb_lower !! i = Some (Fin l) ∧
           mean == Qsum (price_at close <$> seq (i - 19) 20) / 20 ∧
           var == Qsum ((fun j => (price_at close j - mean)
                                  * (price_at close j - mean))
                          <$> seq (i - 19) 20) / 19 ∧
           u - l == 4 * fsqrt var).
Proof.
  intros Hclose.
  set (sma := rolling_mean 20 (price_series close)).
  set (std := rolling_std fsqrt 20 (price_series close)).
  exists (series_add sma (scalar_mul (Fin 2) std)),
         (series_sub sma (scalar_mul (Fin 2) std)).
  assert (length sma = length close) as Lsma.
  { unfold sma. rewrite rolling_mean_length. apply length_fmap. }
  assert (length std = length close) as Lstd.
  { unfold std. rewrite rolling_std_length. apply length_fmap. }
  split; [|split; [|split]].
  - unfold add_indicator. simpl. rewrite Hclose. simpl.
    unfold add_trace. rewrite <- app_assoc. reflexivity.
  - unfold series_add, scalar_mul. rewrite length_zip_with, length_fmap. lia.
  - unfold series_sub, scalar_mul. rewrite length_zip_with, length_fmap. lia.
  - intros i Hi.
    assert (i < length (price_series close))%nat as Hi'
      by (unfold price_series; rewrite length_fmap; assumption).
    unfold series_add, series_sub, scalar_mul.
    rewrite !lookup_zip_with, !list_lookup_fmap. unfold sma, std.
    rewrite rolling_mean_lookup, rolling_std_lookup by assumption.
    split.
    + intros Hlt.
      rewrite rolling_mean_at_short, rolling_std_at_short by lia.
      split; reflexivity.
    + intros Hge. unfold price_series.
      rewrite rolling_mean_at_finite, rolling_std_at_finite by lia.
      simpl.
      exists (Qmean (take 20 (drop (i + 1 - 20) close))
              + 2 * fsqrt (Qvar (take 20 (drop (i + 1 - 20) close)))),
             (Qmean (take 20 (drop (i + 1 - 20) close))
              + - (2 * fsqrt (Qvar (take 20 (drop (i + 1 - 20) close))))),
             (trailing_mean 20 close i),
             (Qvar (take 20 (drop (i + 1 - 20) close))).
      split; [reflexivity|]. split; [reflexivity|].
      replace (i - 19)%nat with (i + 1 - 20)%nat by lia.
      split; [reflexivity|]. split; [|ring].
      rewrite Qvar_trailing by lia. reflexivity.
Qed.

(** ** RSI *)

Lemma rsi_of_close_lookup (w : nat) (close : Series) (i : nat) :
  rsi_of_close w close !! i
  = g ← rsi_gain w close !! i; l ← rsi_loss w close !! i;
    Some (rsi_value g l).
Proof.
  unfold rsi_of_close, scalar_sub, scalar_div, scalar_add, series_div.
  rewrite !list_lookup_fmap, lookup_zip_with.
  destruct (rsi_gain w close !! i) as [g|]; simpl; [|reflexivity].
  destruct (rsi_loss w close !! i) as [l|]; reflexivity.
Qed.

Lemma rsi_of_close_length (w : nat) (close : Series) :
  length (rsi_of_close w close) = length close.
Proof.
  unfold rsi_of_close, scalar_sub, scalar_div, scalar_add, series_div.
  rewrite !length_fmap, length_zip_with.
  unfold rsi_gain, rsi_loss. rewrite !rolling_mean_length.
  unfold series_neg, where_, series_gt, series_lt.
  rewrite length_fmap, !length_zip_with, !length_fmap.
  destruct close as [|x t]; simpl; [reflexivity|].
  rewrite length_zip_with. simpl. lia.
Qed.

Lemma Qsum_nonneg (qs : list Q) : Forall (fun q => 0 <= q) qs → 0 <= Qsum qs.
Proof.
  induction 1 as [|q qs Hq _ IH]; simpl; [apply Qle_refl|].
  replace 0 with (0 + 0) by reflexivity. apply Qplus_le_compat; assumption.
Qed.

Lemma Qdiv_nonneg (a b : Q) : 0 <= a → 0 <= b → 0 <= a / b.
Proof.
  intros Ha Hb. unfold Qdiv. apply Qmult_le_0_compat; [assumption|].
  apply Qinv_le_0_compat. assumption.
Qed.

Lemma Qmean_nonneg (qs : list Q) : Forall (fun q => 0 <= q) qs → 0 <= Qmean qs.
Proof.
  intros H. unfold Qmean. apply Qdiv_nonneg; [apply Qsum_nonneg; assumption|].
  change 0 with (inject_Z 0). rewrite <- Zle_Qle. lia.
Qed.

Lemma rolling_mean_at_magnitude (w : nat) (s : Series) (i : nat) :
  Forall magnitude s → nan_or_nonneg (rolling_mean_at w s i).
Proof.
  intros Hs. unfold rolling_mean_at.
  destruct (window w s i) as [l|] eqn:Hw; simpl; [|exact I].
  destruct (finite_values l) as [qs|] eqn:Hf; simpl; [|exact I].
  destruct (decide _); simpl; [exact I|].
  apply Qmean_nonneg. apply (finite_values_Forall _ l); [|assumption].
  unfold window in Hw. destruct (decide _); [discriminate|].
  injection Hw as <-.
  apply Forall_take, Forall_drop.
  eapply Forall_impl; [exact Hs|]. intros [q| | |]; simpl; tauto.
Qed.

Lemma gain_mask_magnitude (delta : Series) :
  Forall magnitude (where_ delta (series_gt delta (Fin 0)) (Fin 0)).
Proof.
  unfold where_, series_gt. apply Forall_lookup. intros i x.
  rewrite lookup_zip_with, list_lookup_fmap.
  destruct (delta !! i) as [d|]; simpl; [|discriminate].
  intros [= <-]. destruct d as [q| | |]; simpl; try apply Qle_refl; try exact I.
  destruct (0 ?= q) eqn:E; simpl; try apply Qle_refl.
  apply Qlt_le_weak, Qlt_alt. exact E.
Qed.

Lemma loss_mask_magnitude (delta : Series) :
  Forall magnitude
    (series_neg (where_ delta (series_lt delta (Fin 0)) (Fin 0))).
Proof.
  unfold series_neg, where_, series_lt. apply Forall_lookup. intros i x.
  rewrite list_lookup_fmap, lookup_zip_with, list_lookup_fmap.
  destruct (delta !! i) as [d|]; simpl; [|discriminate].
  intros [= <-]. destruct d as [q| | |]; simpl; try (compute; discriminate);
    try exact I.
  destruct (q ?= 0) eqn:E; simpl; try (compute; discriminate).
  apply Qlt_alt in E. lra.
Qed.

Lemma rsi_gain_nonneg (w : nat) (close : Series) (i : nat) (g : fval) :
  rsi_gain w close !! i = Some g → nan_or_nonneg g.
Proof.
  unfold rsi_gain. intros H. apply rolling_mean_lookup_inv in H as [_ ->].
  apply rolling_mean_at_magnitude, gain_mask_magnitude.
Qed.

Lemma rsi_loss_nonneg (w : nat) (close : Series) (i : nat) (l : fval) :
  rsi_loss w close !! i = Some l → nan_or_nonneg l.
Proof.
  unfold rsi_loss. intros H. apply rolling_mean_lookup_inv in H as [_ ->].
  apply rolling_mean_at_magnitude, loss_mask_magnitude.
Qed.

(** The value of the RSI formula on a rolling gain and a rolling loss.
    With a zero loss and a positive gain the quotient is an infinity, its
    reciprocal a zero, and the RSI 100; a zero of either sign would give
    the same. *)
Lemma rsi_value_zero_loss (a b : Q) :
  0 <= a → b == 0 →
  (a == 0 ∧ rsi_value (Fin a) (Fin b) = NaN) ∨
  (0 < a ∧ rsi_value (Fin a) (Fin b) = Fin (100 + - 0)).
Proof.
  intros Ha Hb. unfold rsi_value. simpl.
  rewrite (Qeq_bool_true b 0) by assumption.
  destruct (Qlt_le_dec 0 a) as [Hpos|Hle].
  - right. split; [assumption|]. rewrite Qsign_pos by assumption. reflexivity.
  - left. assert (a == 0) as Hz by lra. split; [assumption|].
    rewrite Qsign_zero by assumption. reflexivity.
Qed.

Lemma rsi_value_pos_loss (a b : Q) :
  0 <= a → 0 < b →
  rsi_value (Fin a) (Fin b) = Fin (100 + - (100 / (1 + a / b))) ∧
  0 <= 100 + - (100 / (1 + a / b)) ∧ 100 + - (100 / (1 + a / b)) < 100.
Proof.
  intros Ha Hb.
  assert (0 <= a / b) as Hrs by (apply Qdiv_nonneg; lra).
  assert (0 < 1 + a / b) as Hden by lra.
  split.
  - unfold rsi_value. simpl.
    rewrite (Qeq_bool_false b 0) by lra.
    rewrite (Qeq_bool_false (1 + a / b) 0) by lra. reflexivity.
  - assert (100 / (1 + a / b) <= 100) as Hup.
    { apply Qle_shift_div_r; [assumption|]. nra. }
    assert (0 < 100 / (1 + a / b)) as Hlo.
    { apply Qlt_shift_div_l; [assumption|]. lra. }
    split; lra.
Qed.

(** Wherever the formula yields a number at all, that number is in
    [0, 100]; it is 100 exactly when the loss is zero. *)
Lemma rsi_value_range (g l : fval) :
  nan_or_nonneg g → nan_or_nonneg l →
  rsi_value g l = NaN ∨
  ∃ v : Q, rsi_value g l = Fin v ∧ 0 <= v ∧ v <= 100 ∧
           (∀ b, l = Fin b → b == 0 → v == 100).
Proof.
  intros Hg Hl.
  destruct g as [a| | |]; simpl in Hg; try contradiction; [|left; reflexivity].
  destruct l as [b| | |]; simpl in Hl; try contradiction;
    [|left; unfold rsi_value; reflexivity].
  destruct (Qlt_le_dec 0 b) as [Hb|Hb].
  - destruct (rsi_value_pos_loss a b Hg Hb) as (E & H0 & H100).
    right. eexists. split; [exact E|]. split; [assumption|].
    split; [lra|]. intros b' [= <-] Hz. lra.
  - assert (b == 0) as Hz by lra.
    destruct (rsi_value_zero_loss a b Hg Hz) as [[_ E]|[_ E]];
      [left; assumption|].
    right. eexists. split; [exact E|]. repeat split; try lra.
Qed.

(** [calculate_rsi] returns a series as long as the Close column whenever
    that column exists. *)
Lemma calculate_rsi_returns (data : DataFrame) (close : Series) :
  getitem data "Close" = Ok close →
  calculate_rsi data 14 = Ok (rsi_of_close 14 close) ∧
  length (rsi_of_close 14 close) = length close.
Proof.
  intros Hclose. split; [|apply rsi_of_close_length].
  unfold calculate_rsi. rewrite Hclose. reflexivity.
Qed.


(** C1: at every row where the RSI is defined and the 14-row rolling
    average loss is exactly zero, the RSI returned by [calculate_rsi] is
    100. *)
Theorem rsi_is_100_when_loss_is_zero (data : DataFrame) (close rsi : Series)
    (i : nat) (r : fval) (l : Q) :
  getitem data "Close" = Ok close →
  calculate_rsi data 14 = Ok rsi →
  rsi !! i = Some r → r ≠ NaN →
  rsi_loss 14 close !! i = Some (Fin l) → l == 0 →
  feq r (Fin 100).
Proof.
  intros Hclose Hcalc Hr Hdef Hl Hz.
  destruct (calculate_rsi_returns data close Hclose) as [E _].
  rewrite E in Hcalc. injection Hcalc as <-.
  rewrite rsi_of_close_lookup, Hl in Hr.
  destruct (rsi_gain 14 close !! i) as [g|] eqn:Hg; simpl in Hr;
    [|discriminate].
  injection Hr as <-.
  destruct (rsi_value_range g (Fin l)) as [E'|(v & E' & _ & _ & H100)].
  - eapply rsi_gain_nonneg; eassumption.
  - eapply rsi_loss_nonneg; eassumption.
  - contradiction.
  - rewrite E'. simpl. apply (H100 l); [reflexivity|assumption].
Qed.


(** ** VWAP *)

Lemma cumsum_from_finite (a : Q) (qs : list Q) (t : nat) :
  (t < length qs)%nat →
  ∃ s : Q, cumsum_from (Fin a) (Fin <$> qs) !! t = Some (Fin s) ∧
           s == a + Qsum (take (S t) qs).
Proof.
  revert a t. induction qs as [|q qs IH]; intros a t Ht; simpl in Ht; [lia|].
  csimpl. destruct t as [|t].
  - exists (a + q). split; [reflexivity|]. simpl. ring.
  - destruct (IH (a + q) t) as (s & Hs & Es); [lia|].
    exists s. split; [exact Hs|]. rewrite Es. simpl. ring.
Qed.

Lemma cumsum_length (acc : fval) (s : Series) :
  length (cumsum_from acc s) = length s.
Proof.
  revert acc. induction s as [|x s IH]; intros acc; simpl; [reflexivity|].
  destruct x; simpl; rewrite IH; reflexivity.
Qed.

Lemma series_mul_price_count (close : list Q) (volume : list N) :
  series_mul (price_series close) (count_series volume)
  = Fin <$> zip_with (fun c n => c * count n) close volume.
Proof.
  unfold series_mul, price_series, count_series.
  revert volume. induction close as [|c close IH]; intros [|n volume];
    csimpl; try reflexivity.
  rewrite IH. reflexivity.
Qed.

Lemma count_nonneg (n : N) : 0 <= count n.
Proof. unfold count. change 0 with (inject_Z 0). rewrite <- Zle_Qle. lia. Qed.

Lemma min_price_le (l : list Q) (x : Q) : x ∈ l → min_price l <= x.
Proof.
  destruct l as [|y t]; [intros H; inversion H|]. simpl.
  revert y. induction t as [|z t IH]; intros y Hin; simpl.
  - apply list_elem_of_singleton in Hin. subst. apply Qle_refl.
  - apply elem_of_cons in Hin as [->|Hin].
    + eapply Qle_trans; [apply Q.le_min_r|].
      clear IH. induction t as [|w t IH]; simpl; [apply Qle_refl|].
      eapply Qle_trans; [apply Q.le_min_r|]. exact IH.
    + apply elem_of_cons in Hin as [->|Hin].
      * apply Q.le_min_l.
      * eapply Qle_trans; [apply Q.le_min_r|].
        apply IH. apply elem_of_cons. right. exact Hin.
Qed.

Lemma max_price_ge (l : list Q) (x : Q) : x ∈ l → x <= max_price l.
Proof.
  destruct l as [|y t]; [intros H; inversion H|]. simpl.
  revert y. induction t as [|z t IH]; intros y Hin; simpl.
  - apply list_elem_of_singleton in Hin. subst. apply Qle_refl.
  - apply elem_of_cons in Hin as [->|Hin].
    + eapply Qle_trans; [|apply Q.le_max_r].
      clear IH. induction t as [|w t IH]; simpl; [apply Qle_refl|].
      eapply Qle_trans; [|apply Q.le_max_r]. exact IH.
    + apply elem_of_cons in Hin as [->|Hin].
      * apply Q.le_max_l.
      * eapply Qle_trans; [|apply Q.le_max_r].
        apply IH. apply elem_of_cons. right. exact Hin.
Qed.

(** A volume-weighted sum of prices lies between the total volume times a
    lower bound and times an upper bound of the prices. *)
Lemma turnover_bounds (lo hi : Q) (close : list Q) (volume : list N) :
  Forall (fun c => lo <= c ∧ c <= hi) close →
  length close = length volume →
  lo * Qsum (count <$> volume)
    <= Qsum (zip_with (fun c n => c * count n) close volume) ∧
  Qsum (zip_with (fun c n => c * count n) close volume)
    <= hi * Qsum (count <$> volume).
Proof.
  intros Hall. revert volume.
  induction Hall as [|c close [Hlo Hhi] _ IH]; intros [|n volume] Hlen;
    simpl in Hlen; try discriminate; csimpl.
  - split; lra.
  - destruct (IH volume) as [IH1 IH2]; [lia|].
    pose proof (count_nonneg n) as Hn.
    split; nra.
Qed.

Lemma count_series_fmap (volume : list N) :
  count_series volume = Fin <$> (count <$> volume).
Proof. unfold count_series. rewrite <- list_fmap_compose. reflexivity. Qed.

Lemma prices_within_min_max (l : list Q) :
  Forall (fun c => min_price l <= c ∧ c <= max_price l) l.
Proof.
  apply Forall_forall. intros c Hc.
  split; [apply min_price_le|apply max_price_ge]; assumption.
Qed.

(** ** The constant series *)

(** Evaluate both sides of a comparison of closed series. *)
Ltac eval_series :=
  match goal with
  | |- series_equiv ?a ?b =>
      let a' := eval vm_compute in a in
      let b' := eval vm_compute in b in
      change (series_equiv a' b')
  end.

(** Compare two evaluated series row by row. *)
Ltac rows_equiv :=
  unfold series_equiv;
  repeat match goal with |- Forall2 _ _ _ => constructor end;
  simpl feq.

(** With a square root that maps zero to zero, the bands of the constant
    column coincide with its moving average. *)
Lemma constant_bands_collapse (fsqrt : Q → Q) (band : fval → fval → fval) :
  (∀ q : Q, q == 0 → fsqrt q == 0) →
  band = fadd ∨ band = fsub →
  series_equiv
    (zip_with band (rolling_mean 20 (price_series constant_close))
       (scalar_mul (Fin 2)
          (rolling_std fsqrt 20 (price_series constant_close))))
    (rolling_mean 20 (price_series constant_close)).
Proof.
  intros Hsqrt Hband.
  remember (price_series constant_close) as c eqn:Ec.
  assert (length c = 30%nat) as Lc by (subst c; reflexivity).
  apply Forall2_same_length_lookup_2.
  - rewrite length_zip_with. unfold scalar_mul.
    rewrite length_fmap, rolling_mean_length, rolling_std_length. lia.
  - intros i x y. unfold scalar_mul.
    rewrite lookup_zip_with, list_lookup_fmap. intros Hx Hy.
    apply rolling_mean_lookup_inv in Hy as [Hi ->].
    rewrite rolling_mean_lookup, rolling_std_lookup in Hx by assumption.
    simpl in Hx. injection Hx as <-.
    destruct (decide (i < 19)%nat) as [Hlt|Hge].
    + rewrite !rolling_mean_at_short, rolling_std_at_short by lia.
      destruct Hband as [-> | ->]; exact I.
    + rewrite Lc in Hi. subst c. unfold price_series in *.
      rewrite length_fmap in Lc.
      rewrite !rolling_mean_at_finite, rolling_std_at_finite by lia.
      unfold constant_close.
      rewrite drop_replicate, take_replicate.
      replace (20 `min` (30 - (i + 1 - 20)))%nat with 20%nat by lia.
      assert (fsqrt (Qvar (replicate 20 100)) == 0) as Hz
        by (apply Hsqrt; reflexivity).
      destruct Hband as [-> | ->]; simpl; rewrite Hz; ring.
Qed.

(** C4: on a thirty-row Close column of constant value 100, the SMA(20) is
    100 from row 19 on and undefined before, the EMA(20) is 100 at every
    row, both Bollinger bands coincide with the SMA at every row, and the
    RSI is undefined at every row, the rolling gain and the rolling loss
    being both zero wherever they are defined. *)
Theorem constant_series_indicators (fsqrt : Q → Q) (data : DataFrame)
    (fig : Figure) :
  (∀ q : Q, q == 0 → fsqrt q == 0) →
  getitem data "Close" = Ok (price_series constant_close) →
  ∃ sma ema bb_upper bb_lower rsi : Series,
    add_indicator fsqrt "20-Day SMA" (data, fig)
    = Ok (data, fig ++ [Scatter (df_index data) sma "SMA (20)" "y" None]) ∧
    add_indicator fsqrt "20-Day EMA" (data, fig)
    = Ok (data, fig ++ [Scatter (df_index data) ema "EMA (20)" "y" None]) ∧
    add_indicator fsqrt "20-Day Bollinger Bands" (data, fig)
    = Ok (data, fig ++ [Scatter (df_index data) bb_upper "BB Upper" "y" None;
                        Scatter (df_index data) bb_lower "BB Lower" "y" None]) ∧
    calculate_rsi data 14 = Ok rsi ∧
    series_equiv sma (replicate 19 NaN ++ replicate 11 (Fin 100)) ∧
    series_equiv ema (replicate 30 (Fin 100)) ∧
    series_equiv bb_upper sma ∧
    series_equiv bb_lower sma ∧
    rsi = replicate 30 NaN ∧
    series_equiv (rsi_gain 14 (price_series constant_close))
                 (replicate 13 NaN ++ replicate 17 (Fin 0)) ∧
    series_equiv (rsi_loss 14 (price_series constant_close))
                 (replicate 13 NaN ++ replicate 17 (Fin 0)).
Proof.
  intros Hsqrt Hclose.
  set (c := price_series constant_close).
  exists (rolling_mean 20 c), (ewm_mean 20 true c),
         (series_add (rolling_mean 20 c)
                     (scalar_mul (Fin 2) (rolling_std fsqrt 20 c))),
         (series_sub (rolling_mean 20 c)
                     (scalar_mul (Fin 2) (rolling_std fsqrt 20 c))),
         (rsi_of_close 14 c).
  repeat match goal with |- _ ∧ _ => split end.
  - unfold add_indicator. simpl. rewrite Hclose. reflexivity.
  - unfold add_indicator. simpl. rewrite Hclose. reflexivity.
  - unfold add_indicator. simpl. rewrite Hclose. simpl.
    unfold add_trace. rewrite <- app_assoc. reflexivity.
  - unfold calculate_rsi. rewrite Hclose. reflexivity.
  - eval_series. rows_equiv; first [exact I | reflexivity].
  - eval_series. rows_equiv; first [exact I | reflexivity].
  - apply constant_bands_collapse; [assumption|left; reflexivity].
  - apply constant_bands_collapse; [assumption|right; reflexivity].
  - vm_compute. reflexivity.
  - eval_series. rows_equiv; first [exact I | reflexivity].
  - eval_series. rows_equiv; first [exact I | reflexivity].
Qed.

(** ** Purity of the indicator engine *)

(** Case analysis on the name tested by [add_indicator]. *)
Ltac case_indicator ind :=
  unfold add_indicator;
  destruct (String.eqb_spec ind "20-Day SMA") as [->|?];
  [|destruct (String.eqb_spec ind "20-Day EMA") as [->|?];
    [|destruct (String.eqb_spec ind "20-Day Bollinger Bands") as [->|?];
      [|destruct (String.eqb_spec ind "VWAP") as [->|?];
        [|destruct (String.eqb_spec ind "RSI") as [->|?];
          [|destruct (String.eqb_spec ind "MACD") as [->|?]]]]]].

(** The traces an indicator draws do not depend on what the figure already
    holds, and neither does what it stores. *)
Lemma add_indicator_figure (fsqrt : Q → Q) (ind : string) (data d : DataFrame)
    (tr fig : Figure) :
  add_indicator fsqrt ind (data, []) = Ok (d, tr) →
  add_indicator fsqrt ind (data, fig) = Ok (d, fig ++ tr).
Proof.
  case_indicator ind; simpl; unfold calculate_rsi, calculate_macd, add_trace;
    repeat match goal with
           | |- context [getitem ?a ?b] => destruct (getitem a b); simpl
           | |- context [index_first ?a] => destruct (index_first a); simpl
           | |- context [index_last ?a] => destruct (index_last a); simpl
           end;
    try discriminate;
    intros [= <- <-]; rewrite <- ?app_assoc, ?app_nil_r; reflexivity.
Qed.

Lemma same_ohlcv_refl (data : DataFrame) : same_ohlcv data data.
Proof. split; [reflexivity|]. intros k _. reflexivity. Qed.

Lemma same_ohlcv_trans (d1 d2 d3 : DataFrame) :
  same_ohlcv d1 d2 → same_ohlcv d2 d3 → same_ohlcv d1 d3.
Proof.
  intros [I1 C1] [I2 C2]. split; [congruence|].
  intros k Hk. rewrite C1, C2 by assumption. reflexivity.
Qed.

Lemma same_ohlcv_setitem (data : DataFrame) (s : Series) :
  same_ohlcv (setitem data "VWAP" s) data.
Proof.
  split; [reflexivity|]. intros k Hk. simpl.
  apply lookup_insert_ne. congruence.
Qed.

Lemma same_ohlcv_getitem (d data : DataFrame) (k : string) :
  same_ohlcv d data → k ≠ "VWAP" → getitem d k = getitem data k.
Proof. intros [_ C] Hk. unfold getitem. rewrite C by assumption. reflexivity. Qed.

Lemma getitem_setitem (data : DataFrame) (k : string) (s : Series) :
  getitem (setitem data k s) k = Ok s.
Proof. unfold getitem, setitem. simpl. rewrite lookup_insert_eq. reflexivity. Qed.

(** What an indicator stores: nothing, unless it is VWAP, which writes the
    column VWAP and nothing else. *)
Lemma add_indicator_stores (fsqrt : Q → Q) (ind : string)
    (data d : DataFrame) (fig fig' : Figure) :
  add_indicator fsqrt ind (data, fig) = Ok (d, fig') →
  (ind ≠ "VWAP" → d = data) ∧
  (ind = "VWAP" → ∃ vwap : Series, d = setitem data "VWAP" vwap).
Proof.
  case_indicator ind; simpl; unfold calculate_rsi, calculate_macd;
    repeat match goal with
           | |- context [getitem ?a ?b] => destruct (getitem a b); simpl
           | |- context [index_first ?a] => destruct (index_first a); simpl
           | |- context [index_last ?a] => destruct (index_last a); simpl
           end;
    try discriminate;
    intros [= <- <-]; (split; [intros; try reflexivity; congruence|]);
    intros; try discriminate; try congruence; eauto.
Qed.

(** An indicator reads the index and the columns Close and Volume only:
    on data that agree there it draws the same traces. *)
Lemma add_indicator_reads_ohlcv (fsqrt : Q → Q) (ind : string)
    (d1 d2 d1' : DataFrame) (tr : Figure) :
  same_ohlcv d1 d2 →
  add_indicator fsqrt ind (d1, []) = Ok (d1', tr) →
  ∃ d2' : DataFrame, add_indicator fsqrt ind (d2, []) = Ok (d2', tr).
Proof.
  intros Hsame.
  assert (getitem d1 "Close" = getitem d2 "Close") as HC
    by (apply same_ohlcv_getitem; [assumption|discriminate]).
  assert (getitem d1 "Volume" = getitem d2 "Volume") as HV
    by (apply same_ohlcv_getitem; [assumption|discriminate]).
  destruct Hsame as [HI _].
  case_indicator ind; simpl; unfold calculate_rsi, calculate_macd;
    rewrite ?HC, ?HV, ?HI;
    repeat match goal with
           | |- context [getitem (setitem ?a ?b ?c) ?b] =>
               rewrite !(getitem_setitem a b c); simpl; rewrite ?HI
           | |- context [getitem ?a ?b] => destruct (getitem a b); simpl
           | |- context [index_first ?a] => destruct (index_first a); simpl
           | |- context [index_last ?a] => destruct (index_last a); simpl
           end;
    try discriminate;
    intros [= <- <-]; eexists; reflexivity.
Qed.

Lemma index_first_returns (idx : list Timestamp) :
  idx ≠ [] → ∃ d, index_first idx = Ok d.
Proof. destruct idx as [|d idx]; [congruence|]. intros _. eexists. reflexivity. Qed.

Lemma index_last_returns (idx : list Timestamp) :
  idx ≠ [] → ∃ d, index_last idx = Ok d.
Proof.
  intros Hne. unfold index_last. destruct (last idx) as [d|] eqn:E.
  - eexists. reflexivity.
  - apply last_None in E. contradiction.
Qed.

(** With the columns Close and Volume present and at least one row, every
    indicator returns. *)
Lemma add_indicator_returns (fsqrt : Q → Q) (ind : string) (data : DataFrame)
    (close volume : Series) :
  getitem data "Close" = Ok close →
  getitem data "Volume" = Ok volume →
  df_index data ≠ [] →
  ∃ (d : DataFrame) (tr : Figure),
    add_indicator fsqrt ind (data, []) = Ok (d, tr).
Proof.
  intros HC HV Hne.
  destruct (index_first_returns _ Hne) as [d0 H0].
  destruct (index_last_returns _ Hne) as [d1 H1].
  case_indicator ind; simpl; unfold calculate_rsi, calculate_macd;
    rewrite ?HC, ?HV; simpl; rewrite ?getitem_setitem; simpl;
    rewrite ?H0, ?H1; simpl; rewrite ?H0, ?H1; simpl;
    do 2 eexists; reflexivity.
Qed.

Lemma add_indicators_cons (fsqrt : Q → Q) (ind : string) (rest : list string)
    (st : DataFrame * Figure) :
  add_indicators fsqrt (ind :: rest) st
  = st' ← add_indicator fsqrt ind st; add_indicators fsqrt rest st'.
Proof. reflexivity. Qed.

(** C8: running any selection of indicators, in any order, leaves the index
    and every stored column other than VWAP as they were; the traces each
    indicator draws are those it draws when run alone on the original data;
    the stored data change only when VWAP is selected, by the one column
    VWAP. *)
Theorem indicators_pure_except_vwap (fsqrt : Q → Q) (indicators : list string)
    (data : DataFrame) (fig : Figure) (close volume : Series) :
  getitem data "Close" = Ok close →
  getitem data "Volume" = Ok volume →
  df_index data ≠ [] →
  ∃ (data' : DataFrame) (drawn : list Figure),
    add_indicators fsqrt indicators (data, fig)
    = Ok (data', fig ++ concat drawn) ∧
    Forall2 (fun ind tr =>
               ∃ d, add_indicator fsqrt ind (data, []) = Ok (d, tr))
            indicators drawn ∧
    same_ohlcv data' data ∧
    ("VWAP" ∉ indicators → data' = data) ∧
    ("VWAP" ∈ indicators →
       ∃ vwap : Series, data' = setitem data "VWAP" vwap).
Proof.
  intros HC HV Hne.
  cut (∀ (cur : DataFrame) (fig0 : Figure),
         same_ohlcv cur data →
         ∃ (data' : DataFrame) (drawn : list Figure),
           add_indicators fsqrt indicators (cur, fig0)
           = Ok (data', fig0 ++ concat drawn) ∧
           Forall2 (fun ind tr =>
                      ∃ d, add_indicator fsqrt ind (data, []) = Ok (d, tr))
                   indicators drawn ∧
           same_ohlcv data' data ∧
           ("VWAP" ∉ indicators → data' = cur) ∧
           ("VWAP" ∈ indicators →
              ∃ vwap : Series, data' = setitem cur "VWAP" vwap)).
  { intros H. apply H, same_ohlcv_refl. }
  induction indicators as [|ind rest IH]; intros cur fig0 Hcur.
  - exists cur, []. simpl. rewrite app_nil_r.
    repeat match goal with |- _ ∧ _ => split end;
      [reflexivity|constructor|assumption|reflexivity|].
    intros H. inversion H.
  - destruct (add_indicator_returns fsqrt ind data close volume HC HV Hne)
      as (d0 & tr & Hrun).
    destruct (add_indicator_reads_ohlcv fsqrt ind data cur d0 tr) as [d1 Hcur1];
      [split; [symmetry; apply Hcur|intros k Hk; symmetry; apply Hcur, Hk]
      |assumption|].
    pose proof (add_indicator_figure _ _ _ _ _ fig0 Hcur1) as Hstep.
    destruct (add_indicator_stores _ _ _ _ _ _ Hstep) as [Hkeep Hwrite].
    assert (same_ohlcv d1 data) as Hd1.
    { destruct (decide (ind = "VWAP")) as [E|E].
      - destruct (Hwrite E) as [v ->].
        eapply same_ohlcv_trans; [apply same_ohlcv_setitem|assumption].
      - rewrite (Hkeep E). assumption. }
    destruct (IH d1 (fig0 ++ tr) Hd1) as (data' & drawn & Hrest & Hall & Hsame
                                          & Hno & Hyes).
    exists data', (tr :: drawn).
    repeat match goal with |- _ ∧ _ => split end.
    + rewrite add_indicators_cons, Hstep. simpl.
      rewrite Hrest, <- app_assoc. reflexivity.
    + constructor; [eauto|assumption].
    + assumption.
    + intros Hnot. apply not_elem_of_cons in Hnot as [Hne1 Hne2].
      rewrite (Hno Hne2). apply Hkeep. congruence.
    + intros Hin. destruct (decide ("VWAP" ∈ rest)) as [Hr|Hr].
      * destruct (Hyes Hr) as [v ->].
        destruct (decide (ind = "VWAP")) as [E|E].
        -- destruct (Hwrite E) as [v' ->]. exists v.
           unfold setitem. simpl. rewrite insert_insert_eq. reflexivity.
        -- rewrite (Hkeep E). eauto.
      * rewrite (Hno Hr). apply Hwrite.
        apply elem_of_cons in Hin as [E|E]; [congruence|contradiction].
Qed.

(** ** The temporary file of the analysis handler *)

(** C9: once the temporary file has been created, it is removed when the
    handler runs to its end, and it is still there when any step before
    the final removal raises; files other than the temporary one are never
    touched. *)
Theorem temp_file_removed_only_on_success (env : Env) (data : DataFrame)
    (indicators : list string) (fig : Figure) (w : World) (p : string) :
  env_tmpname env = Some p →
  match run_ai_analysis env data indicators fig w with
  | (Ok _, w') =>
      files w' !! p = None ∧ all_steps_succeed env data indicators fig
  | (Raise _, w') =>
      is_Some (files w' !! p) ∧ ¬ all_steps_succeed env data indicators fig
  end ∧
  ∀ q : string, q ≠ p →
    files (run_ai_analysis env data indicators fig w).2 !! q = files w !! q.
Proof.
  intros Hp.
  unfold run_ai_analysis, step_bind, named_temporary_file, write_image,
    read_file, lift, chat, st_write, os_remove, all_steps_succeed.
  rewrite Hp. simpl.
  destruct (env_write_image env fig) as [png|] eqn:Himg; simpl.
  2:{ split.
      - split; [rewrite lookup_insert_eq; eauto|].
        intros (? & ? & ? & ? & ? & _). discriminate.
      - intros q Hq. apply lookup_insert_ne. congruence. }
  rewrite lookup_insert_eq. simpl.
  destruct (tech_data data indicators) as [tech|e] eqn:Htech; simpl.
  2:{ split.
      - split; [rewrite lookup_insert_eq; eauto|].
        intros (? & ? & ? & ? & _ & ? & _). discriminate.
      - intros q Hq. rewrite !lookup_insert_ne by congruence. reflexivity. }
  destruct (env_chat env _ _) as [response|] eqn:Hchat; simpl.
  2:{ split.
      - split; [rewrite lookup_insert_eq; eauto|].
        intros (png' & tech' & ? & ? & [= <-] & [= <-] & Hc & _).
        rewrite Hchat in Hc. discriminate.
      - intros q Hq. rewrite !lookup_insert_ne by congruence. reflexivity. }
  destruct (response_content response) as [text|e] eqn:Htext; simpl.
  2:{ split.
      - split; [rewrite lookup_insert_eq; eauto|].
        intros (png' & tech' & r' & ? & [= <-] & [= <-] & Hc & Hr).
        rewrite Hchat in Hc. injection Hc as <-. rewrite Htext in Hr.
        discriminate.
      - intros q Hq. rewrite !lookup_insert_ne by congruence. reflexivity. }
  rewrite lookup_insert_eq. simpl. split.
  - split; [apply lookup_delete_eq|]. eauto 10.
  - intros q Hq. rewrite lookup_delete_ne, !lookup_insert_ne by congruence.
    reflexivity.
Qed.

(** ** The two exponential means *)

Lemma prep_values_finite (qs : list Q) : prep_values (Fin <$> qs) = Fin <$> qs.
Proof.
  unfold prep_values. rewrite <- list_fmap_compose.
  apply list_fmap_ext. intros i x _. reflexivity.
Qed.

(** One turn of the loop on a finite mean and a finite observation. *)
Lemma ewm_step_finite (alpha : Q) (adjust : bool) (y d x : Q) (n : nat) :
  let new_wt := if adjust then 1 else alpha in
  ¬ d * (1 - alpha) + new_wt == 0 →
  ∃ w : Q,
    ewm_step alpha adjust (EwmState (Fin y) d n) (Fin x)
    = EwmState (Fin w) (if adjust then d * (1 - alpha) + new_wt else 1) (S n) ∧
    w * (d * (1 - alpha) + new_wt) == d * (1 - alpha) * y + new_wt * x.
Proof.
  intros new_wt Hden. unfold ewm_step. simpl.
  fold new_wt.
  destruct (Qeq_bool y x) eqn:E; simpl.
  - apply Qeq_bool_iff in E. exists y. split; [reflexivity|].
    rewrite E. ring.
  - rewrite (Qeq_bool_false _ 0) by assumption.
    eexists. split; [reflexivity|]. field. assumption.
Qed.

Lemma ewm_loop_unadjusted (alpha : Q) (xs : list Q) (y y' : Q) (n : nat) :
  y == y' →
  series_equiv (ewm_loop alpha false (EwmState (Fin y) 1 (S n)) (Fin <$> xs))
               (Fin <$> ema_recursive_from alpha y' xs).
Proof.
  revert y y' n. induction xs as [|x xs IH]; intros y y' n Hy; csimpl.
  - constructor.
  - destruct (ewm_step_finite alpha false y 1 x (S n)) as (w & Hstep & Hw).
    { simpl. intros H. lra. }
    simpl in Hstep, Hw. rewrite Hstep.
    assert (w == (1 - alpha) * y' + alpha * x) as Hw'.
    { rewrite <- Hy. lra. }
    constructor.
    + unfold ewm_output. simpl. exact Hw'.
    + apply IH. exact Hw'.
Qed.

Lemma ewm_mean_unadjusted (span : Q) (xs : list Q) :
  series_equiv (ewm_mean span false (price_series xs))
               (price_series (ema_recursive (ewm_alpha span) xs)).
Proof.
  unfold ewm_mean, price_series. rewrite prep_values_finite.
  destruct xs as [|x xs]; csimpl; [constructor|].
  constructor; [unfold ewm_output; simpl; reflexivity|].
  apply ewm_loop_unadjusted. reflexivity.
Qed.

Lemma weighted_sum_snoc (b : Q) (l : list Q) (x : Q) :
  weighted_sum b (l ++ [x]) = b * weighted_sum b l + x.
Proof. unfold weighted_sum. rewrite fold_left_app. reflexivity. Qed.

Lemma weight_sum_snoc (b : Q) (l : list Q) (x : Q) :
  weight_sum b (l ++ [x]) = b * weight_sum b l + 1.
Proof. unfold weight_sum. rewrite fold_left_app. reflexivity. Qed.

Lemma weight_sum_nonneg (b : Q) (l : list Q) : 0 <= b → 0 <= weight_sum b l.
Proof.
  intros Hb. induction l as [|x l IH] using rev_ind; [apply Qle_refl|].
  rewrite weight_sum_snoc. nra.
Qed.

(** The loop with [adjust=True] keeps the weighted sum of the prices seen
    over the sum of their weights. *)
Lemma ewm_loop_adjusted (alpha : Q) (suf : list Q) :
  0 <= 1 - alpha →
  ∀ (pre : list Q) (y d : Q) (n j : nat),
    0 < weight_sum (1 - alpha) pre →
    y * weight_sum (1 - alpha) pre == weighted_sum (1 - alpha) pre →
    d == weight_sum (1 - alpha) pre →
    (j < length suf)%nat →
    ∃ v : Q,
      ewm_loop alpha true (EwmState (Fin y) d (S n)) (Fin <$> suf) !! j
      = Some (Fin v) ∧
      v * weight_sum (1 - alpha) (pre ++ take (S j) suf)
      == weighted_sum (1 - alpha) (pre ++ take (S j) suf).
Proof.
  intros Hb. induction suf as [|x suf IH]; intros pre y d n j Hpos Hy Hd Hj;
    simpl in Hj; [lia|].
  pose proof (weight_sum_nonneg (1 - alpha) pre Hb) as Hnn.
  destruct (ewm_step_finite alpha true y d x (S n)) as (w & Hstep & Hw).
  { simpl. rewrite Hd. intros H. nra. }
  simpl in Hstep, Hw. csimpl. rewrite Hstep.
  assert (w * weight_sum (1 - alpha) (pre ++ [x])
          == weighted_sum (1 - alpha) (pre ++ [x])) as Hw'.
  { rewrite weight_sum_snoc, weighted_sum_snoc.
    rewrite Hd in Hw.
    transitivity (w * (weight_sum (1 - alpha) pre * (1 - alpha) + 1));
      [ring|].
    rewrite Hw, <- Hy. ring. }
  destruct j as [|j].
  - exists w. split; [reflexivity|]. exact Hw'.
  - destruct (IH (pre ++ [x]) w (d * (1 - alpha) + 1) (S n) j)
      as (v & Hv & Ev).
    + rewrite weight_sum_snoc. nra.
    + exact Hw'.
    + rewrite weight_sum_snoc, Hd. ring.
    + lia.
    + exists v. split; [exact Hv|].
      rewrite <- app_assoc in Ev. exact Ev.
Qed.

Lemma Qsum_scale (b : Q) (g : nat → Q) (l : list nat) :
  Qsum ((fun k => b * g k) <$> l) == b * Qsum (g <$> l).
Proof. induction l as [|k l IH]; csimpl; [ring|]. rewrite IH. ring. Qed.

Lemma Qsum_seq_S (f : nat → Q) (n : nat) :
  Qsum (f <$> seq 0 (S n)) == f 0%nat + Qsum ((fun k => f (S k)) <$> seq 0 n).
Proof.
  change (seq 0 (S n)) with (0%nat :: seq 1 n).
  rewrite fmap_cons, <- fmap_S_seq, <- list_fmap_compose. reflexivity.
Qed.

Lemma weighted_sum_closed (b : Q) (xs : list Q) (t : nat) :
  (t < length xs)%nat →
  weighted_sum b (take (S t) xs)
  == Qsum ((fun k => qpow b k * price_at xs (t - k)) <$> seq 0 (S t)).
Proof.
  induction t as [|t IH]; intros Ht.
  - destruct xs as [|x xs]; simpl in Ht; [lia|].
    unfold weighted_sum, price_at. simpl. ring.
  - destruct (xs !! S t) as [x|] eqn:E;
      [|apply lookup_ge_None in E; lia].
    rewrite (take_S_r _ _ _ E), weighted_sum_snoc, IH by lia.
    rewrite (Qsum_seq_S _ (S t)). simpl qpow.
    replace (S t - 0)%nat with (S t) by lia.
    unfold price_at at 2. rewrite E. simpl default.
    rewrite <- Qsum_scale.
    rewrite (Qsum_fmap_ext
               (fun k => b * (qpow b k * price_at xs (t - k)))
               (fun k => b * qpow b k * price_at xs (S t - S k))).
    + ring.
    + intros k _. simpl. ring.
Qed.

Lemma weight_sum_closed (b : Q) (xs : list Q) (t : nat) :
  (t < length xs)%nat →
  weight_sum b (take (S t) xs) == Qsum ((fun k => qpow b k) <$> seq 0 (S t)).
Proof.
  induction t as [|t IH]; intros Ht.
  - destruct xs as [|x xs]; simpl in Ht; [lia|].
    unfold weight_sum. simpl. ring.
  - destruct (xs !! S t) as [x|] eqn:E;
      [|apply lookup_ge_None in E; lia].
    rewrite (take_S_r _ _ _ E), weight_sum_snoc, IH by lia.
    rewrite (Qsum_seq_S _ (S t)). simpl qpow.
    rewrite <- Qsum_scale. ring.
Qed.

(** On finite prices, [ewm(span, adjust=True).mean()] is the normalised
    finite-weight mean. *)
Lemma ewm_mean_adjusted (span : Q) (xs : list Q) (t : nat) :
  0 <= 1 - ewm_alpha span →
  (t < length xs)%nat →
  ∃ y : Q,
    ewm_mean span true (price_series xs) !! t = Some (Fin y) ∧
    y == ema_normalized (ewm_alpha span) xs t.
Proof.
  intros Hb Ht. set (b := 1 - ewm_alpha span) in *.
  assert (∃ y : Q,
            ewm_mean span true (price_series xs) !! t = Some (Fin y) ∧
            y * weight_sum b (take (S t) xs) == weighted_sum b (take (S t) xs))
    as (y & Hy & Ey).
  { unfold ewm_mean, price_series. rewrite prep_values_finite.
    destruct xs as [|x xs]; simpl in Ht; [lia|]. csimpl.
    destruct t as [|t].
    - exists x. split; [reflexivity|].
      unfold weight_sum, weighted_sum. simpl. ring.
    - destruct (ewm_loop_adjusted (ewm_alpha span) xs Hb [x] x 1 0 t)
        as (v & Hv & Ev).
      + unfold weight_sum. simpl. fold b. lra.
      + unfold weight_sum, weighted_sum. simpl. ring.
      + unfold weight_sum. simpl. ring.
      + lia.
      + exists v. split; [exact Hv|]. exact Ev. }
  exists y. split; [exact Hy|].
  assert (0 < weight_sum b (take (S t) xs)) as Hpos.
  { destruct (xs !! t) as [x|] eqn:E; [|apply lookup_ge_None in E; lia].
    rewrite (take_S_r _ _ _ E), weight_sum_snoc.
    pose proof (weight_sum_nonneg b (take t xs) Hb). nra. }
  unfold ema_normalized. fold b.
  rewrite <- (weighted_sum_closed b xs t Ht), <- (weight_sum_closed b xs t Ht).
  rewrite <- Ey. field. lra.
Qed.


Lemma series_equiv_finite (s : Series) (r : list Q) :
  series_equiv s (Fin <$> r) → ∃ qs : list Q, s = Fin <$> qs ∧ Forall2 Qeq qs r.
Proof.
  unfold series_equiv. revert s.
  induction r as [|q r IH]; intros s H; csimpl in H.
  - inversion H; subst. exists []. split; [reflexivity|constructor].
  - inversion H as [|x y s' r' Hx Hrest]; subst.
    destruct (IH _ Hrest) as (qs & -> & Hqs).
    destruct x as [q'| | |]; simpl in Hx; try contradiction.
    exists (q' :: qs). split; [reflexivity|]. constructor; assumption.
Qed.

Lemma series_sub_finite (e1 e2 : list Q) :
  series_sub (Fin <$> e1) (Fin <$> e2)
  = Fin <$> zip_with (fun a b => a + - b) e1 e2.
Proof.
  unfold series_sub. revert e2.
  induction e1 as [|a e1 IH]; intros [|b e2]; csimpl; try reflexivity.
  rewrite IH. reflexivity.
Qed.

Lemma zip_with_minus_equiv (e1 e2 r1 r2 : list Q) :
  Forall2 Qeq e1 r1 → Forall2 Qeq e2 r2 →
  Forall2 Qeq (zip_with (fun a b => a + - b) e1 e2) (zip_with Qminus r1 r2).
Proof.
  intros H1. revert e2 r2. induction H1 as [|a a' e1 r1 Ha _ IH];
    intros e2 r2 H2; [constructor|].
  destruct H2 as [|b b' e2 r2 Hb H2]; simpl; constructor.
  - unfold Qminus. rewrite Ha, Hb. reflexivity.
  - apply IH. assumption.
Qed.

(** C10: the trace "EMA (20)" is the exponentially weighted mean with
    [adjust=True], which on finite prices is the normalised finite-weight
    mean; the MACD is the difference of two means computed with
    [adjust=False], each the recursive mean of the prices, and its signal
    line is the recursive mean of the MACD; and the two definitions are not
    the same: on the two closes 1 and 2 they differ at the second row for
    the span 20. *)
Theorem ema_adjusted_macd_unadjusted (fsqrt : Q → Q) (data : DataFrame)
    (fig : Figure) (close : list Q) :
  getitem data "Close" = Ok (price_series close) →
  ∃ (ema macd signal : Series) (m : list Q),
    add_indicator fsqrt "20-Day EMA" (data, fig)
    = Ok (data, fig ++ [Scatter (df_index data) ema "EMA (20)" "y" None]) ∧
    calculate_macd data = Ok (macd, signal) ∧
    ema = ewm_mean 20 true (price_series close) ∧
    (∀ t : nat, (t < length close)%nat →
       ∃ y : Q, ema !! t = Some (Fin y) ∧
                y == ema_normalized (ewm_alpha 20) close t) ∧
    macd = series_sub (ewm_mean 12 false (price_series close))
                      (ewm_mean 26 false (price_series close)) ∧
    signal = ewm_mean 9 false macd ∧
    macd = price_series m ∧
    Forall2 Qeq m (zip_with Qminus (ema_recursive (ewm_alpha 12) close)
                                   (ema_recursive (ewm_alpha 26) close)) ∧
    series_equiv signal (price_series (ema_recursive (ewm_alpha 9) m)) ∧
    ∃ (c : list Q) (i : nat) (a u : fval),
      (2 ≤ length c)%nat ∧
      ewm_mean 20 true (price_series c) !! i = Some a ∧
      ewm_mean 20 false (price_series c) !! i = Some u ∧
      ¬ feq a u.
Proof.
  intros Hclose.
  destruct (series_equiv_finite _ _ (ewm_mean_unadjusted 12 close))
    as (e1 & E1 & R1).
  destruct (series_equiv_finite _ _ (ewm_mean_unadjusted 26 close))
    as (e2 & E2 & R2).
  set (m := zip_with (fun a b => a + - b) e1 e2).
  assert (series_sub (ewm_mean 12 false (price_series close))
                     (ewm_mean 26 false (price_series close))
          = price_series m) as Em.
  { rewrite E1, E2. apply series_sub_finite. }
  exists (ewm_mean 20 true (price_series close)),
         (series_sub (ewm_mean 12 false (price_series close))
                     (ewm_mean 26 false (price_series close))),
         (ewm_mean 9 false
            (series_sub (ewm_mean 12 false (price_series close))
                        (ewm_mean 26 false (price_series close)))),
         m.
  repeat match goal with |- _ ∧ _ => split end; try reflexivity.
  - unfold add_indicator. simpl. rewrite Hclose. reflexivity.
  - unfold calculate_macd. rewrite Hclose. reflexivity.
  - intros t Ht. apply ewm_mean_adjusted; [|assumption].
    vm_compute. discriminate.
  - exact Em.
  - apply zip_with_minus_equiv; assumption.
  - rewrite Em. apply ewm_mean_unadjusted.
  - exists [1; 2], 1%nat. do 2 eexists.
    split; [simpl; lia|].
    split; [vm_compute; reflexivity|].
    split; [vm_compute; reflexivity|].
    simpl. unfold Qeq. simpl. lia.
Qed.

(** ** The report text *)

Lemma append_assoc (a b c : string) : (a +:+ b) +:+ c = a +:+ (b +:+ c).
Proof.
  induction a as [|ch a IH]; [reflexivity|].
  change (String ch ((a +:+ b) +:+ c) = String ch (a +:+ (b +:+ c))).
  f_equal. exact IH.
Qed.

Lemma append_nil_r (a : string) : a +:+ "" = a.
Proof.
  induction a as [|ch a IH]; [reflexivity|].
  change (String ch (a +:+ "") = String ch a). f_equal. exact IH.
Qed.

(** The loop [text += line(row)] appends the lines of the rows in order. *)
Lemma fold_left_append {A : Type} (line : A → string) (rows : list A)
    (init : string) :
  fold_left (fun acc row => acc +:+ line row) rows init
  = init +:+ glue (line <$> rows).
Proof.
  revert init. induction rows as [|row rows IH]; intros init; csimpl.
  - rewrite append_nil_r. reflexivity.
  - rewrite IH, append_assoc. reflexivity.
Qed.

Lemma tail_length {A : Type} (n : nat) (l : list A) :
  length (tail n l) = (n `min` length l)%nat.
Proof. unfold tail. rewrite length_drop. lia. Qed.

Lemma ewm_loop_length (alpha : Q) (adjust : bool) (st : ewm_state)
    (l : Series) :
  length (ewm_loop alpha adjust st l) = length l.
Proof.
  revert st. induction l as [|x l IH]; intros st; simpl; [reflexivity|].
  rewrite IH. reflexivity.
Qed.

Lemma ewm_mean_length (span : Q) (adjust : bool) (s : Series) :
  length (ewm_mean span adjust s) = length s.
Proof.
  unfold ewm_mean, prep_values. destruct s as [|x s]; csimpl; [reflexivity|].
  rewrite ewm_loop_length, length_fmap. reflexivity.
Qed.

Lemma macd_of_close_length (close : Series) :
  length (macd_of_close close).1 = length close ∧
  length (macd_of_close close).2 = length close.
Proof.
  unfold macd_of_close, series_sub. simpl.
  rewrite !ewm_mean_length, length_zip_with, !ewm_mean_length. lia.
Qed.

(** The rounding of the format [.2f] is to a nearest hundredth. *)
Lemma round_half_even_near (q : Q) :
  Qabs (q - inject_Z (round_half_even q)) <= 1 # 2.
Proof.
  unfold round_half_even. cbv zeta.
  pose proof (Qfloor_le q) as Hlo. pose proof (Qlt_floor q) as Hhi.
  rewrite inject_Z_plus in Hhi. change (inject_Z 1) with 1 in Hhi.
  destruct (Qcompare _ _) eqn:E.
  - apply Qeq_alt in E. destruct (Z.even _).
    + apply Qabs_Qle_condition. split; lra.
    + rewrite inject_Z_plus. change (inject_Z 1) with 1.
      apply Qabs_Qle_condition. split; lra.
  - apply Qlt_alt in E. apply Qabs_Qle_condition. split; lra.
  - apply Qgt_alt in E. rewrite inject_Z_plus. change (inject_Z 1) with 1.
    apply Qabs_Qle_condition. split; lra.
Qed.

Lemma hundredths_near (q : Q) :
  Qabs (Qabs q - inject_Z (hundredths q) / 100) <= 1 # 200.
Proof.
  pose proof (round_half_even_near (Qabs q * 100)) as H.
  fold (hundredths q) in H.
  apply Qabs_Qle_condition in H as [H1 H2].
  apply Qabs_Qle_condition. split.
  - apply Qmult_le_r with (z := 100); [reflexivity|].
    field_simplify. field_simplify in H1. lra.
  - apply Qmult_le_r with (z := 100); [reflexivity|].
    field_simplify. field_simplify in H2. lra.
Qed.

Lemma calculate_macd_returns (data : DataFrame) (close : Series) :
  getitem data "Close" = Ok close →
  calculate_macd data = Ok ((macd_of_close close).1, (macd_of_close close).2).
Proof. intros H. unfold calculate_macd. rewrite H. reflexivity. Qed.

Lemma Qfloor_nonneg (q : Q) : 0 <= q → (0 <= Qfloor q)%Z.
Proof.
  intros H. change 0%Z with (Qfloor 0). apply Qfloor_resp_le. exact H.
Qed.

Lemma hundredths_nonneg (q : Q) : (0 <= hundredths q)%Z.
Proof.
  unfold hundredths, round_half_even. cbv zeta.
  assert (0 <= Qabs q * 100) as H by (pose proof (Qabs_nonneg q); nra).
  pose proof (Qfloor_nonneg _ H).
  destruct (Qcompare _ _); [destruct (Z.even _)| |]; lia.
Qed.

Lemma round_half_even_tie (q : Q) :
  Qabs (q - inject_Z (round_half_even q)) == 1 # 2 →
  Z.even (round_half_even q) = true.
Proof.
  unfold round_half_even. cbv zeta.
  pose proof (Qfloor_le q) as Hlo. pose proof (Qlt_floor q) as Hhi.
  rewrite inject_Z_plus in Hhi. change (inject_Z 1) with 1 in Hhi.
  destruct (Qcompare _ _) eqn:E.
  - intros _. destruct (Z.even (Qfloor q)) eqn:Ev; [exact Ev|].
    rewrite Z.even_add, Ev. reflexivity.
  - apply Qlt_alt in E. intros H.
    rewrite Qabs_pos in H by lra. lra.
  - apply Qgt_alt in E. rewrite inject_Z_plus. change (inject_Z 1) with 1.
    intros H. rewrite Qabs_neg in H by lra. lra.
Qed.

Lemma two_digits_below_100 :
  forallb (fun k => String.eqb (zero_pad 2 (N.of_nat k))
                      (pretty (N.of_nat k `div` 10)%N +:+
                       pretty (N.of_nat k `mod` 10)%N))
          (seq 0 100) = true.
Proof. vm_compute. reflexivity. Qed.

Lemma zero_pad_2_digits (n : N) :
  (n < 100)%N →
  zero_pad 2 n = pretty (n `div` 10)%N +:+ pretty (n `mod` 10)%N.
Proof.
  intros Hn. pose proof two_digits_below_100 as H.
  rewrite forallb_forall in H.
  specialize (H (N.to_nat n)). rewrite N2Nat.id in H.
  apply String.eqb_eq, H. apply in_seq. lia.
Qed.

Lemma N_even_of_Z (z : Z) : (0 <= z)%Z → N.even (Z.to_N z) = Z.even z.
Proof. intros H. destruct z as [|p|p]; [reflexivity|destruct p; reflexivity|lia]. Qed.

Lemma format_2f_value_text (v : fval) : value_text v (format_2f v).
Proof.
  destruct v as [q| | |]; try reflexivity. simpl.
  exists (Z.to_N (hundredths q)).
  unfold count. rewrite Z2N.id by apply hundredths_nonneg.
  split; [apply round_half_even_near|]. split.
  - intros H. apply round_half_even_tie in H.
    rewrite N_even_of_Z by apply hundredths_nonneg. exact H.
  - rewrite zero_pad_2_digits by (apply N.mod_lt; discriminate).
    replace ((Z.to_N (hundredths q) `mod` 100) `mod` 10)%N
      with (Z.to_N (hundredths q) `mod` 10)%N; [reflexivity|].
    generalize (Z.to_N (hundredths q)). intros n.
    change 100%N with (10 * 10)%N. rewrite N.Div0.mod_mul_r.
    rewrite (N.mul_comm 10 ((n `div` 10) `mod` 10)).
    rewrite N.Div0.mod_add, N.Div0.mod_mod. reflexivity.
Qed.


Lemma tail_lookup {A : Type} (n : nat) (l : list A) (k : nat) :
  tail n l !! k = l !! (length l - n + k)%nat.
Proof. unfold tail. apply lookup_drop. Qed.

(** C2, as the code has it: with RSI and MACD both selected the text holds
    the block "Recent RSI values" followed by the block "Recent MACD
    values"; each block has one line per row among the last ten rows of
    the data, that is ten lines, or as many as there are rows when there
    are fewer than ten, whether or not the value of the row is defined.
    The line of a row shows its date and, in the first block, the RSI of
    the row, in the second its MACD and its signal, each rounded to two
    decimals, an undefined value reading nan. *)
Theorem report_blocks_cover_last_rows (data : DataFrame)
    (indicators : list string) (close : Series) :
  getitem data "Close" = Ok close →
  length close = length (df_index data) →
  "RSI" ∈ indicators → "MACD" ∈ indicators →
  ∃ (rsi macd signal : Series) (rsi_lines macd_lines : list string),
    calculate_rsi data 14 = Ok rsi ∧
    calculate_macd data = Ok (macd, signal) ∧
    tech_data data indicators
    = Ok ((NL +:+ "Recent RSI values:") +:+ glue rsi_lines +:+
          (NL +:+ NL +:+ "Recent MACD values:") +:+ glue macd_lines) ∧
    length rsi_lines = (10 `min` length (df_index data))%nat ∧
    length macd_lines = (10 `min` length (df_index data))%nat ∧
    ∀ k : nat, (k < 10 `min` length (df_index data))%nat →
      ∃ (date : Timestamp) (r m s : fval) (tr tm ts : string),
        df_index data !! (length (df_index data) - 10 + k)%nat = Some date ∧
        rsi !! (length (df_index data) - 10 + k)%nat = Some r ∧
        macd !! (length (df_index data) - 10 + k)%nat = Some m ∧
        signal !! (length (df_index data) - 10 + k)%nat = Some s ∧
        value_text r tr ∧ value_text m tm ∧ value_text s ts ∧
        rsi_lines !! k = Some (NL +:+ strftime_Ymd date +:+ ": " +:+ tr) ∧
        macd_lines !! k
        = Some (NL +:+ strftime_Ymd date +:+ ": MACD=" +:+ tm +:+
                ", Signal=" +:+ ts).
Proof.
  intros Hclose Hlen Hrsi Hmacd.
  destruct (calculate_rsi_returns data close Hclose) as [Ersi Lrsi].
  pose proof (calculate_macd_returns data close Hclose) as Emacd.
  destruct (macd_of_close_length close) as [Lm Ls].
  set (rsi := rsi_of_close 14 close) in *.
  set (macd := (macd_of_close close).1) in *.
  set (signal := (macd_of_close close).2) in *.
  exists rsi, macd, signal,
         (rsi_line <$> recent_rsi data rsi),
         (macd_line <$> recent_data data macd signal).
  assert (length (recent_rsi data rsi) = (10 `min` length (df_index data))%nat)
    as Lr by (unfold recent_rsi, items; rewrite length_zip, !tail_length; lia).
  assert (length (recent_data data macd signal)
          = (10 `min` length (df_index data))%nat)
    as Ld by (unfold recent_data; rewrite !length_zip, !tail_length; lia).
  repeat match goal with |- _ ∧ _ => split end; try assumption.
  - unfold tech_data. rewrite Ersi, Emacd.
    rewrite !bool_decide_eq_true_2 by assumption. simpl.
    unfold rsi_data, macd_data. rewrite !fold_left_append.
    rewrite !append_assoc. reflexivity.
  - rewrite length_fmap. exact Lr.
  - rewrite length_fmap. exact Ld.
  - intros k Hk.
    set (j := (length (df_index data) - 10 + k)%nat).
    assert (j < length (df_index data))%nat as Hj by (unfold j; lia).
    destruct (lookup_lt_is_Some_2 (df_index data) j Hj) as [date Hd].
    destruct (lookup_lt_is_Some_2 rsi j ltac:(lia)) as [r Hr].
    destruct (lookup_lt_is_Some_2 macd j ltac:(lia)) as [m Hm].
    destruct (lookup_lt_is_Some_2 signal j ltac:(lia)) as [s Hs].
    exists date, r, m, s, (format_2f r), (format_2f m), (format_2f s).
    repeat match goal with |- _ ∧ _ => split end;
      try assumption; try apply format_2f_value_text.
    + rewrite list_lookup_fmap. unfold recent_rsi, items.
      rewrite lookup_zip_with, !tail_lookup.
      replace (length rsi - 10 + k)%nat with j by (unfold j; lia).
      fold j. rewrite Hd, Hr. reflexivity.
    + rewrite list_lookup_fmap. unfold recent_data.
      rewrite !lookup_zip_with, !tail_lookup.
      replace (length macd - 10 + k)%nat with j by (unfold j; lia).
      replace (length signal - 10 + k)%nat with j by (unfold j; lia).
      fold j. rewrite Hd, Hm, Hs. reflexivity.
Qed.

(** The claim as the specification words it, that a block has ten lines or
    as many lines as its series has defined points, fails: on fifteen
    rising prices the RSI is defined at two rows only, and its block still
    has ten lines, eight of which read nan. *)
Lemma report_rsi_block_counterexample :
  ∃ rsi : Series,
    calculate_rsi ramp_frame 14 = Ok rsi ∧
    defined_points rsi = 2%nat ∧
    length (recent_rsi ramp_frame rsi) = 10%nat ∧
    length (recent_rsi ramp_frame rsi) ≠ (10 `min` defined_points rsi)%nat ∧
    tech_data ramp_frame ["RSI"; "MACD"] = Ok "
Recent RSI values:
2024-01-06: nan
2024-01-07: nan
2024-01-08: nan
2024-01-09: nan
2024-01-10: nan
2024-01-11: nan
2024-01-12: nan
2024-01-13: nan
2024-01-14: 100.00
2024-01-15: 100.00

Recent MACD values:
2024-01-06: MACD=0.88, Signal=0.36
2024-01-07: MACD=1.14, Signal=0.51
2024-01-08: MACD=1.41, Signal=0.69
2024-01-09: MACD=1.69, Signal=0.89
2024-01-10: MACD=1.97, Signal=1.11
2024-01-11: MACD=2.24, Signal=1.34
2024-01-12: MACD=2.51, Signal=1.57
2024-01-13: MACD=2.78, Signal=1.81
2024-01-14: MACD=3.03, Signal=2.06
2024-01-15: MACD=3.27, Signal=2.30".
Proof.
  exists (rsi_of_close 14 (price_series ramp_close)).
  split; [reflexivity|].
  split; [vm_compute; reflexivity|].
  split; [vm_compute; reflexivity|].
  split; [vm_compute; lia|].
  vm_compute. reflexivity.
Qed.

(** ** The VWAP in float64 *)

Lemma Qabs_pos_lt (q : Q) : ¬ q == 0 → 0 < Qabs q.
Proof.
  intros Hq. destruct (Qlt_le_dec q 0) as [H|H].
  - rewrite Qabs_neg by lra. lra.
  - rewrite Qabs_pos by lra.
    apply Qle_lteq in H as [H|H]; [exact H|]. symmetry in H. contradiction.
Qed.

Lemma pow2_pos (k : Z) : 0 < 2 ^ k.
Proof. apply Qpower_0_lt. reflexivity. Qed.

Lemma pow2_succ (k : Z) : 2 ^ (k + 1) == 2 * 2 ^ k.
Proof. rewrite Qpower_plus by discriminate. rewrite Qpower_1_r. ring. Qed.

Lemma pow2_pred (k : Z) : 2 ^ (k - 1) == 2 ^ k / 2.
Proof. rewrite Qpower_minus by discriminate. rewrite Qpower_1_r. reflexivity. Qed.

Lemma pow2_log2 (n : Z) :
  (0 < n)%Z →
  2 ^ Z.log2 n <= inject_Z n ∧ inject_Z n < 2 * 2 ^ Z.log2 n.
Proof.
  intros Hn. destruct (Z.log2_spec n Hn) as [Hlo Hhi].
  pose proof (Z.log2_nonneg n) as H0.
  rewrite <- pow2_succ.
  change 2 with (inject_Z 2).
  rewrite <- !Zpower_Qpower by lia.
  split; [rewrite <- Zle_Qle|rewrite <- Zlt_Qlt]; [exact Hlo|].
  replace (Z.log2 n + 1)%Z with (Z.succ (Z.log2 n)) by lia. exact Hhi.
Qed.

(** [ilog2 q] is the exponent of the binade of [q]. *)
Lemma ilog2_spec (q : Q) :
  ¬ q == 0 → 2 ^ ilog2 q <= Qabs q ∧ Qabs q < 2 ^ (ilog2 q + 1).
Proof.
  intros Hq.
  assert (0 < Qabs q) as Hx by (apply Qabs_pos_lt; exact Hq).
  unfold ilog2. cbv zeta.
  set (a := Z.log2 (Z.abs (Qnum q))). set (b := Z.log2 (Z.pos (Qden q))).
  assert (0 < Z.abs (Qnum q))%Z as Hn.
  { destruct q as [n d]. unfold Qeq in Hq. simpl in *. lia. }
  destruct (pow2_log2 _ Hn) as [A1 A2]. fold a in A1, A2.
  destruct (pow2_log2 (Z.pos (Qden q)) ltac:(lia)) as [B1 B2].
  fold b in B1, B2.
  assert (inject_Z (Z.abs (Qnum q)) == Qabs q * inject_Z (Z.pos (Qden q)))
    as Hnd.
  { destruct q as [n d]. unfold Qeq. simpl. lia. }
  pose proof (pow2_pos a) as Pa. pose proof (pow2_pos b) as Pb.
  assert (2 ^ (a - b) == 2 ^ a / 2 ^ b) as Ek
    by (apply Qpower_minus; discriminate).
  set (A := 2 ^ a) in *. set (B := 2 ^ b) in *.
  set (N := inject_Z (Z.abs (Qnum q))) in *.
  set (D := inject_Z (Z.pos (Qden q))) in *.
  set (x := Qabs q) in *.
  assert (A / B / 2 < x) as Hlo.
  { apply Qlt_shift_div_r; [lra|]. apply Qlt_shift_div_r; [lra|]. nra. }
  assert (x < 2 * (A / B)) as Hhi.
  { apply Qmult_lt_r with (z := B); [lra|]. field_simplify; [|lra]. nra. }
  destruct (Qle_bool (2 ^ (a - b)) x) eqn:E.
  - apply Qle_bool_iff in E. split; [exact E|].
    rewrite pow2_succ, Ek. exact Hhi.
  - assert (x < 2 ^ (a - b)) as E'.
    { apply Qnot_le_lt. intros H. apply Qle_bool_iff in H. congruence. }
    split.
    + rewrite pow2_pred, Ek. apply Qlt_le_weak. exact Hlo.
    + replace (a - b - 1 + 1)%Z with (a - b)%Z by lia. exact E'.
Qed.

Lemma round64_zero (q : Q) : q == 0 → round64 q = Fin 0.
Proof.
  intros H. unfold round64. apply Qeq_bool_iff in H. rewrite H. reflexivity.
Qed.

Lemma Qeq_bool_neq (q : Q) : ¬ q == 0 → Qeq_bool q 0 = false.
Proof.
  intros H. destruct (Qeq_bool q 0) eqn:E; [|reflexivity].
  apply Qeq_bool_iff in E. contradiction.
Qed.

Lemma Qle_bool_lt (a b : Q) : b < a → Qle_bool a b = false.
Proof.
  intros H. destruct (Qle_bool a b) eqn:E; [|reflexivity].
  apply Qle_bool_iff in E. lra.
Qed.

Lemma Qabs_bound (x y : Q) : Qabs x <= y → - y <= x ∧ x <= y.
Proof. intros H. apply Qabs_Qle_condition in H. exact H. Qed.

Lemma Qmult_le_l' (x a b : Q) : 0 <= x → a <= b → x * a <= x * b.
Proof.
  intros Hx H. rewrite !(Qmult_comm x). apply Qmult_le_compat_r; assumption.
Qed.

Lemma scale_half (y m E : Q) :
  0 < E → - (1 # 2) <= y - m → y - m <= 1 # 2 →
  - (E / 2) <= m * E - y * E ∧ m * E - y * E <= E / 2.
Proof.
  intros HE H1 H2.
  assert ((y - m) * E <= (1 # 2) * E) as A
    by (apply Qmult_le_compat_r; lra).
  assert (- (1 # 2) * E <= (y - m) * E) as B
    by (apply Qmult_le_compat_r; lra).
  unfold Qdiv. change (/ 2) with (1 # 2). split; lra.
Qed.

Lemma half_ulp (x E P : Q) :
  0 < P → P * E <= x → E / 2 <= x / (2 * P).
Proof.
  intros HP H. apply Qle_shift_div_l; [lra|].
  assert (E / 2 * (2 * P) == P * E) as -> by (field; lra). exact H.
Qed.

Lemma small_part (x P : Q) : 0 < x → 1 <= P → x / (2 * P) < x.
Proof.
  intros Hx HP. apply Qlt_shift_div_r; [lra|].
  assert (x * 1 <= x * P) as A by (apply Qmult_le_l'; lra).
  lra.
Qed.

Lemma no_overflow (r x h M : Q) :
  r <= x + h → h < x → x <= M → r < 2 * M.
Proof. intros. lra. Qed.

(** In the range of the normal numbers a rounding is off by at most half a
    unit in the last place: the relative error is at most [2^-53]. *)
Lemma round64_near (q : Q) :
  2 ^ (-1022) <= Qabs q → Qabs q <= 2 ^ 1023 →
  ∃ r : Q, round64 q = Fin r ∧ Qabs (r - q) <= Qabs q / 2 ^ 53.
Proof.
  intros Hlo Hhi.
  assert (¬ q == 0) as Hq.
  { intros E. rewrite E in Hlo. pose proof (pow2_pos (-1022)).
    change (Qabs 0) with 0 in Hlo. lra. }
  destruct (ilog2_spec q Hq) as [K1 K2].
  unfold round64. rewrite (Qeq_bool_neq q Hq). cbv zeta.
  set (k := ilog2 q) in *.
  assert (-1022 <= k)%Z as Kmin.
  { assert (2 ^ (-1022) < 2 ^ (k + 1)) as H by lra.
    apply Qpower_lt_compat_l_inv in H; [lia|reflexivity]. }
  assert (k <= 1023)%Z as Kmax.
  { assert (2 ^ k <= 2 ^ 1023) as H by lra.
    apply Qpower_le_compat_l_inv in H; [lia|reflexivity]. }
  rewrite Z.max_l by lia.
  set (e := (k - 52)%Z).
  pose proof (pow2_pos e) as Pe.
  pose proof (round_half_even_near (q / 2 ^ e)) as Hm.
  set (m := inject_Z (round_half_even (q / 2 ^ e))) in *.
  apply Qabs_bound in Hm as [M1 M2].
  assert (2 ^ k == 2 ^ 52 * 2 ^ e) as Ek.
  { unfold e. rewrite <- Qpower_plus by discriminate.
    replace (52 + (k - 52))%Z with k by lia. reflexivity. }
  pose proof (pow2_pos 52) as P52.
  assert (2 ^ 53 == 2 * 2 ^ 52) as E53 by (apply (pow2_succ 52)).
  set (x := Qabs q) in *. set (E := 2 ^ e) in *. set (P := 2 ^ 52) in *.
  assert (q / E * E == q) as Hqe by (field; lra).
  set (y := q / E) in *.
  assert (- (E / 2) <= m * E - q ∧ m * E - q <= E / 2) as [R1 R2].
  { rewrite <- Hqe. apply scale_half; assumption. }
  assert (E / 2 <= x / 2 ^ 53) as HE.
  { rewrite E53. rewrite Ek in K1. apply half_ulp; assumption. }
  assert (Qabs (m * E - q) <= x / 2 ^ 53) as Hnear.
  { apply Qabs_Qle_condition. split; lra. }
  rewrite Qle_bool_lt.
  - exists (m * E). split; [reflexivity|exact Hnear].
  - assert (Qabs (m * E) <= x + x / 2 ^ 53) as Hr.
    { replace (m * E) with (m * E) by reflexivity.
      assert (m * E == q + (m * E - q)) as -> by ring.
      eapply Qle_trans; [apply Qabs_triangle|].
      fold x. lra. }
    assert (0 < x) as Hx by (apply Qabs_pos_lt; exact Hq).
    assert (x / 2 ^ 53 < x) as Hlt.
    { rewrite E53. apply small_part; [exact Hx|]. clear -P52.
      assert (2 ^ 0 <= 2 ^ 52) as H
        by (apply Qpower_le_compat_l; [lia|discriminate]).
      change (2 ^ 0) with 1 in H. exact H. }
    rewrite (pow2_succ 1023).
    exact (no_overflow _ _ _ _ Hr Hlt Hhi).
Qed.

Lemma round_half_even_int (x : Q) (n : Z) :
  x == inject_Z n → round_half_even x = n.
Proof.
  intros H. unfold round_half_even. cbv zeta.
  assert (Qfloor x = n) as F by (rewrite H; apply Qfloor_Z).
  rewrite F.
  assert (x - inject_Z n == 0) as -> by (rewrite H; ring).
  reflexivity.
Qed.

(** An integer below [2^53] is a float64: its rounding is exact. *)
Lemma round64_int (q : Q) (z : Z) :
  q == inject_Z z → (0 < z < 2 ^ 53)%Z →
  ∃ r : Q, round64 q = Fin r ∧ r == q.
Proof.
  intros Hz [Z1 Z2].
  assert (1 <= q) as Q1.
  { rewrite Hz. change 1 with (inject_Z 1). rewrite <- Zle_Qle. lia. }
  assert (q < 2 ^ 53) as Q2.
  { rewrite Hz. change 2 with (inject_Z 2). rewrite <- Zpower_Qpower by lia.
    rewrite <- Zlt_Qlt. exact Z2. }
  assert (¬ q == 0) as Hq by lra.
  destruct (ilog2_spec q Hq) as [K1 K2].
  rewrite Qabs_pos in K1, K2 by lra.
  unfold round64. rewrite (Qeq_bool_neq q Hq). cbv zeta.
  set (k := ilog2 q) in *.
  assert (0 <= k)%Z as Kmin.
  { assert (2 ^ 0 < 2 ^ (k + 1)) as H by (change (2 ^ 0) with 1; lra).
    apply (Qpower_lt_compat_l_inv 2 0 (k + 1)) in H; [lia|reflexivity]. }
  assert (k <= 52)%Z as Kmax.
  { assert (2 ^ k < 2 ^ 53) as H by lra.
    apply (Qpower_lt_compat_l_inv 2 k 53) in H; [lia|reflexivity]. }
  rewrite Z.max_l by lia.
  set (e := (k - 52)%Z).
  pose proof (pow2_pos e) as Pe.
  assert (2 ^ (52 - k) * 2 ^ e == 1) as Inv.
  { unfold e. rewrite <- Qpower_plus by discriminate.
    replace (52 - k + (k - 52))%Z with 0%Z by lia. reflexivity. }
  assert (q / 2 ^ e == inject_Z (z * 2 ^ (52 - k))) as Hx.
  { rewrite inject_Z_mult, Zpower_Qpower by lia. change (inject_Z 2) with 2.
    rewrite <- Hz. apply Qmult_inj_r with (z := 2 ^ e); [lra|].
    rewrite <- Qmult_assoc, Inv. field. lra. }
  rewrite (round_half_even_int _ _ Hx).
  assert (inject_Z (z * 2 ^ (52 - k)) * 2 ^ e == q) as Hr.
  { rewrite <- Hx. field. lra. }
  rewrite Qle_bool_lt.
  - eexists. split; [reflexivity|exact Hr].
  - rewrite Hr, Qabs_pos by lra.
    assert (2 ^ 53 <= 2 ^ 1024) as H
      by (apply Qpower_le_compat_l; [lia|discriminate]).
    lra.
Qed.

Lemma u64_pow : 2 ^ 53 * u64 == 1.
Proof. reflexivity. Qed.

Lemma u64_pos : 0 < u64.
Proof. reflexivity. Qed.

Lemma u64_le : u64 <= 1 # 4.
Proof. discriminate. Qed.

(** Powers of [1 - u] and [1 + u]. *)
Section Powers.

Variable u : Q.
Hypothesis u_pos : 0 < u.
Hypothesis u_small : u <= 1 # 4.

Lemma qpow_down_pos (k : nat) : 0 < qpow (1 - u) k.
Proof.
  induction k as [|k IH]; simpl; [reflexivity|].
  apply Qmult_lt_0_compat; lra.
Qed.

Lemma qpow_up_ge_1 (k : nat) : 1 <= qpow (1 + u) k.
Proof.
  induction k as [|k IH]; simpl; [discriminate|].
  assert (1 * 1 <= (1 + u) * qpow (1 + u) k) as H.
  { apply Qmult_le_compat_nonneg; split; lra. }
  lra.
Qed.

Lemma qpow_down_le_1 (k : nat) : qpow (1 - u) k <= 1.
Proof.
  induction k as [|k IH]; simpl; [discriminate|].
  pose proof (qpow_down_pos k).
  assert ((1 - u) * qpow (1 - u) k <= 1 * 1) as H0.
  { apply Qmult_le_compat_nonneg; split; lra. }
  lra.
Qed.

Lemma qpow_down_S (k : nat) : qpow (1 - u) (S k) <= qpow (1 - u) k.
Proof.
  simpl. pose proof (qpow_down_pos k).
  assert (u * qpow (1 - u) k >= 0) by (apply Qmult_le_0_compat; lra).
  lra.
Qed.

Lemma qpow_up_S (k : nat) : qpow (1 + u) k <= qpow (1 + u) (S k).
Proof.
  simpl. pose proof (qpow_up_ge_1 k).
  assert (u * qpow (1 + u) k >= 0) by (apply Qmult_le_0_compat; lra).
  lra.
Qed.

Lemma qpow_down_le (j k : nat) :
  (j ≤ k)%nat → qpow (1 - u) k <= qpow (1 - u) j.
Proof.
  induction 1 as [|k _ IH]; [apply Qle_refl|].
  eapply Qle_trans; [apply qpow_down_S|exact IH].
Qed.

Lemma qpow_up_le (j k : nat) :
  (j ≤ k)%nat → qpow (1 + u) j <= qpow (1 + u) k.
Proof.
  induction 1 as [|k _ IH]; [apply Qle_refl|].
  eapply Qle_trans; [exact IH|apply qpow_up_S].
Qed.

(** Bernoulli's inequality, and its counterpart for [1 + u]. *)
Lemma qpow_down_bernoulli (k : nat) :
  1 - inject_Z (Z.of_nat k) * u <= qpow (1 - u) k.
Proof.
  induction k as [|k IH].
  - change (inject_Z (Z.of_nat 0)) with 0. simpl. lra.
  - rewrite Nat2Z.inj_succ, <- Z.add_1_r, inject_Z_plus.
    change (inject_Z 1) with 1.
    set (n := inject_Z (Z.of_nat k)) in *.
    assert (0 <= n) as Hn
      by (unfold n; change 0 with (inject_Z 0); rewrite <- Zle_Qle; lia).
    pose proof (qpow_down_pos k) as Hp. simpl.
    set (p := qpow (1 - u) k) in *.
    destruct (Qlt_le_dec (1 - n * u) 0) as [Hneg|Hnn].
    + assert (0 <= (1 - u) * p) by (apply Qmult_le_0_compat; lra).
      assert (0 <= n * u) by (apply Qmult_le_0_compat; lra).
      lra.
    + assert ((1 - u) * (1 - n * u) <= (1 - u) * p) as H
        by (apply Qmult_le_l'; lra).
      assert (0 <= n * u * u)
        by (repeat apply Qmult_le_0_compat; lra).
      lra.
Qed.

Lemma qpow_up_bound (k : nat) :
  qpow (1 + u) k * (1 - inject_Z (Z.of_nat k) * u) <= 1.
Proof.
  induction k as [|k IH].
  - change (inject_Z (Z.of_nat 0)) with 0. simpl. lra.
  - rewrite Nat2Z.inj_succ, <- Z.add_1_r, inject_Z_plus.
    change (inject_Z 1) with 1.
    set (n := inject_Z (Z.of_nat k)) in *.
    assert (0 <= n) as Hn
      by (unfold n; change 0 with (inject_Z 0); rewrite <- Zle_Qle; lia).
    pose proof (qpow_up_ge_1 k) as Hp. simpl.
    set (p := qpow (1 + u) k) in *.
    assert (0 <= p * ((n + 1) * u * u)) as H.
    { apply Qmult_le_0_compat; [lra|].
      repeat apply Qmult_le_0_compat; lra. }
    lra.
Qed.

Lemma qpow_up_linear (k : nat) :
  inject_Z (Z.of_nat k) * u <= 1 # 2 →
  qpow (1 + u) k <= 1 + 2 * (inject_Z (Z.of_nat k) * u).
Proof.
  intros Hk. pose proof (qpow_up_bound k) as H.
  pose proof (qpow_up_ge_1 k) as Hp.
  set (w := inject_Z (Z.of_nat k) * u) in *.
  assert (0 <= w) as Hw.
  { unfold w. apply Qmult_le_0_compat; [|lra].
    change 0 with (inject_Z 0). rewrite <- Zle_Qle. lia. }
  set (p := qpow (1 + u) k) in *.
  destruct (Qlt_le_dec (1 + 2 * w) p) as [Hgt|Hle]; [|exact Hle].
  exfalso.
  assert ((1 + 2 * w) * (1 - w) <= p * (1 - w)) as A
    by (apply Qmult_le_compat_r; lra).
  assert (0 <= w * (1 - 2 * w)) as B by (apply Qmult_le_0_compat; lra).
  assert (0 < (p - (1 + 2 * w)) * (1 - w)) as C
    by (apply Qmult_lt_0_compat; lra).
  lra.
Qed.

End Powers.

Lemma inv_pow53 (q : Q) : q / 2 ^ 53 == q * u64.
Proof. unfold Qdiv. assert (/ 2 ^ 53 == u64) as -> by reflexivity. reflexivity. Qed.

(** A non-negative result in the normal range, or zero, is rounded with a
    relative error of at most [u64]. *)
Lemma round64_rel (q : Q) :
  0 <= q → q == 0 ∨ 2 ^ (-1022) <= q → q <= 2 ^ 1023 →
  ∃ r : Q, round64 q = Fin r ∧ q * (1 - u64) <= r ∧ r <= q * (1 + u64).
Proof.
  intros H0 [Hz|Hlo] Hhi.
  - exists 0. rewrite (round64_zero q Hz). split; [reflexivity|].
    rewrite Hz. split; lra.
  - destruct (round64_near q) as (r & Hr & Hn).
    + rewrite (Qabs_pos q H0). exact Hlo.
    + rewrite (Qabs_pos q H0). exact Hhi.
    + exists r. split; [exact Hr|].
      rewrite (Qabs_pos q H0), inv_pow53 in Hn.
      apply Qabs_bound in Hn as [N1 N2]. split; lra.
Qed.

Lemma count_int (v : N) : count v == 0 ∨ 1 <= count v.
Proof.
  unfold count. destruct (decide (Z.of_N v = 0%Z)) as [E|E].
  - left. rewrite E. reflexivity.
  - right. change 1 with (inject_Z 1). rewrite <- Zle_Qle. lia.
Qed.

Lemma count_lt_pow53 (v : N) : count v < 2 ^ 53 → (Z.of_N v < 2 ^ 53)%Z.
Proof.
  unfold count. change 2 with (inject_Z 2).
  rewrite <- Zpower_Qpower by lia. rewrite <- Zlt_Qlt. trivial.
Qed.

(** Bounds of a product and of a quotient of bounded factors. *)
Lemma product_range (c v a b M : Q) :
  0 < a → a <= c → c <= b → 1 <= v → v <= M →
  a <= c * v ∧ c * v <= b * M.
Proof.
  intros Ha H1 H2 H3 H4. split.
  - assert (c * 1 <= c * v) by (apply Qmult_le_l'; lra). lra.
  - apply Qmult_le_compat_nonneg; split; lra.
Qed.

Lemma pow_1021 : 2 ^ (-1021) == 2 * 2 ^ (-1022).
Proof. apply (pow2_succ (-1022)). Qed.

Lemma pow_1023 : 2 ^ 1023 == 2 * (2 ^ 969 * 2 ^ 53).
Proof.
  rewrite <- Qpower_plus by discriminate.
  change (969 + 53)%Z with 1022%Z. apply (pow2_succ 1022).
Qed.

(** The product of a price and a volume in float64. *)
Lemma product64 (c : Q) (v : N) :
  2 ^ (-1021) <= c → c <= 2 ^ 969 → count v < 2 ^ 53 →
  ∃ p : Q, fmul64 (Fin c) (fl (Fin (count v))) = Fin p ∧
           c * count v * (1 - u64) <= p ∧ p <= c * count v * (1 + u64).
Proof.
  intros Hlo Hhi Hv. pose proof (pow2_pos (-1022)) as Pl.
  pose proof pow_1021 as E1. pose proof pow_1023 as E2.
  pose proof (pow2_pos 969) as P969. pose proof (pow2_pos 53) as P53.
  destruct (count_int v) as [Hz|Hp].
  - exists 0. split.
    + unfold fmul64, fl. rewrite (round64_zero _ Hz). simpl.
      apply round64_zero. ring.
    + rewrite Hz. split; lra.
  - destruct (round64_int (count v) (Z.of_N v)) as (v' & Ev & Hv').
    { reflexivity. }
    { split; [|apply count_lt_pow53; exact Hv].
      unfold count in Hp. change 1 with (inject_Z 1) in Hp.
      rewrite <- Zle_Qle in Hp. lia. }
    unfold fmul64. simpl. rewrite Ev. simpl.
    destruct (product_range c v' (2 ^ (-1021)) (2 ^ 969) (2 ^ 53))
      as [R1 R2]; try lra.
    destruct (round64_rel (c * v')) as (p & Ep & B1 & B2); try lra.
    exists p. split; [exact Ep|]. rewrite <- Hv'. split; assumption.
Qed.

(** With at most [2^51] roundings the accumulated factors stay within
    [1/2] and [2]. *)
Lemma qpow_down_half (k : nat) :
  (Z.of_nat k <= 2 ^ 51)%Z → 1 # 2 <= qpow (1 - u64) k.
Proof.
  intros Hk.
  pose proof (qpow_down_bernoulli u64 u64_pos u64_le k) as H.
  assert (inject_Z (Z.of_nat k) * u64 <= 1 # 4) as Hw.
  { assert (inject_Z (Z.of_nat k) <= inject_Z (2 ^ 51)) as Hq
      by (rewrite <- Zle_Qle; exact Hk).
    assert (inject_Z (Z.of_nat k) * u64 <= inject_Z (2 ^ 51) * u64) as H1
      by (apply Qmult_le_compat_r; [exact Hq|discriminate]).
    assert (inject_Z (2 ^ 51) * u64 == 1 # 4) as E by reflexivity.
    lra. }
  lra.
Qed.

Lemma slack_small (k : nat) :
  (Z.of_nat k <= 2 ^ 51)%Z → inject_Z (Z.of_nat k) * u64 <= 1 # 4.
Proof.
  intros Hk.
  assert (inject_Z (Z.of_nat k) <= inject_Z (2 ^ 51)) as Hq
    by (rewrite <- Zle_Qle; exact Hk).
  assert (inject_Z (Z.of_nat k) * u64 <= inject_Z (2 ^ 51) * u64) as H1
    by (apply Qmult_le_compat_r; [exact Hq|discriminate]).
  assert (inject_Z (2 ^ 51) * u64 == 1 # 4) as E by reflexivity.
  lra.
Qed.

Lemma qpow_up_two (k : nat) :
  (Z.of_nat k <= 2 ^ 51)%Z → qpow (1 + u64) k <= 2.
Proof.
  intros Hk. pose proof (slack_small k Hk) as Hw.
  pose proof (qpow_up_linear u64 u64_pos k) as H.
  assert (inject_Z (Z.of_nat k) * u64 <= 1 # 2) as Hw' by lra.
  specialize (H Hw'). lra.
Qed.

(** Arithmetic of one step of the running sum: the sum of an accumulated
    value and a fresh product keeps the accumulated bounds. *)
Lemma sum_bounds (s p T w dn up u : Q) :
  0 <= T → 0 <= w → 0 < dn → dn <= 1 - u → 1 + u <= up →
  T * dn <= s → s <= T * up →
  w * (1 - u) <= p → p <= w * (1 + u) →
  (T + w) * dn <= s + p ∧ s + p <= (T + w) * up.
Proof.
  intros HT Hw Hd Hd1 Hu1 S1 S2 P1 P2.
  assert (w * dn <= w * (1 - u)) by (apply Qmult_le_l'; lra).
  assert (w * (1 + u) <= w * up) by (apply Qmult_le_l'; lra).
  split; lra.
Qed.

Lemma scaled_bounds (x r T dn up u : Q) :
  0 <= T → 0 < u → u < 1 → 0 < dn → 0 < up →
  T * dn <= x → x <= T * up →
  x * (1 - u) <= r → r <= x * (1 + u) →
  T * ((1 - u) * dn) <= r ∧ r <= T * ((1 + u) * up).
Proof.
  intros HT Hu Hu1 Hd Hup X1 X2 R1 R2.
  assert (T * dn * (1 - u) <= x * (1 - u))
    by (apply Qmult_le_compat_r; lra).
  assert (x * (1 + u) <= T * up * (1 + u))
    by (apply Qmult_le_compat_r; lra).
  split; lra.
Qed.

Lemma range_bounds (x T a b V M dn up lo hi : Q) :
  0 < a → a <= b → 1 <= V → V <= M →
  a * V <= T → T <= b * V →
  1 # 2 <= dn → up <= 2 → 0 < dn → 
  T * dn <= x → x <= T * up →
  a == 2 * lo → hi == 2 * (b * M) →
  lo <= x ∧ x <= hi.
Proof.
  intros Ha Hab HV HM T1 T2 Hd Hu Hd0 X1 X2 Ea Eh.
  assert (a * 1 <= a * V) by (apply Qmult_le_l'; lra).
  assert (b * V <= b * M) by (apply Qmult_le_l'; lra).
  assert (0 <= T) by lra.
  assert (T * (1 # 2) <= T * dn) by (apply Qmult_le_l'; lra).
  assert (T * up <= T * 2) by (apply Qmult_le_l'; lra).
  split; lra.
Qed.

Lemma vwap_step (s T V : Q) (k : nat) (c : Q) (v : N) :
  2 ^ (-1021) <= c → c <= 2 ^ 969 →
  V == 0 ∨ 1 <= V → V + count v < 2 ^ 53 →
  2 ^ (-1021) * V <= T → T <= 2 ^ 969 * V →
  T * qpow (1 - u64) k <= s → s <= T * qpow (1 + u64) k →
  (1 ≤ k)%nat → (Z.of_nat k <= 2 ^ 51)%Z →
  ∃ s' : Q,
    fadd64 (Fin s) (fmul64 (Fin c) (fl (Fin (count v)))) = Fin s' ∧
    (T + c * count v) * qpow (1 - u64) (S k) <= s' ∧
    s' <= (T + c * count v) * qpow (1 + u64) (S k).
Proof.
  intros Hlo Hhi HV Hsum T1 T2 S1 S2 Hk1 Hk.
  pose proof (pow2_pos (-1021)) as Pa. pose proof (pow2_pos 969) as Pb.
  pose proof (pow2_pos (-1022)) as Pl. pose proof (pow2_pos 53) as P53.
  pose proof (count_nonneg v) as Hv0.
  assert (0 <= V) as HV0 by (destruct HV; lra).
  destruct (product64 c v Hlo Hhi) as (p & Ep & P1 & P2); [lra|].
  rewrite Ep. unfold fadd64. simpl.
  pose proof u64_pos as Hu. pose proof u64_le as Hu4.
  pose proof (qpow_down_pos u64 u64_le k) as Dpos.
  pose proof (qpow_up_ge_1 u64 u64_pos k) as Uge.
  pose proof (qpow_down_le u64 u64_pos u64_le 1 k Hk1) as D1.
  pose proof (qpow_up_le u64 u64_pos 1 k Hk1) as U1.
  simpl in D1, U1.
  pose proof (qpow_down_half k Hk) as Dh.
  pose proof (qpow_up_two k Hk) as U2.
  set (dn := qpow (1 - u64) k) in *. set (up := qpow (1 + u64) k) in *.
  set (w := c * count v) in *.
  assert (0 <= T) as HT.
  { assert (0 <= 2 ^ (-1021) * V) by (apply Qmult_le_0_compat; lra). lra. }
  assert (0 <= w) as Hw by (unfold w; apply Qmult_le_0_compat; lra).
  destruct (sum_bounds s p T w dn up u64) as [X1 X2]; try lra.
  assert (2 ^ (-1021) <= 2 ^ 969) as Hab
    by (apply Qpower_le_compat_l; [lia|discriminate]).
  assert (2 ^ (-1021) * count v <= w ∧ w <= 2 ^ 969 * count v) as [W1 W2].
  { unfold w. split; apply Qmult_le_compat_r; lra. }
  assert (2 ^ (-1021) * (V + count v) <= T + w) as T1' by lra.
  assert (T + w <= 2 ^ 969 * (V + count v)) as T2' by lra.
  assert (V + count v <= 2 ^ 53) as HM by lra.
  assert (s + p == 0 ∨ 2 ^ (-1022) <= s + p ∧ s + p <= 2 ^ 1023) as Hrange.
  { assert (V + count v == 0 ∨ 1 <= V + count v) as [Z0|Z1].
    { destruct HV as [Vz|V1]; [destruct (count_int v) as [vz|v1]|];
        [left|right|right]; lra. }
    - left. assert (T + w == 0) as E.
      { rewrite Z0 in T1', T2'. lra. }
      rewrite E in X1, X2. lra.
    - right.
      exact (range_bounds (s + p) (T + w) (2 ^ (-1021)) (2 ^ 969)
               (V + count v) (2 ^ 53) dn up (2 ^ (-1022)) (2 ^ 1023)
               Pa Hab Z1 HM T1' T2' Dh U2 Dpos X1 X2 pow_1021 pow_1023). }
  assert (0 <= s + p) as Hnn.
  { assert (0 <= (T + w) * dn) by (apply Qmult_le_0_compat; lra). lra. }
  destruct (round64_rel (s + p)) as (r & Er & R1 & R2);
    [exact Hnn|destruct Hrange as [?|[? ?]]; [left|right]; assumption| |].
  { destruct Hrange as [E|[_ ?]]; [rewrite E|assumption].
    apply Qlt_le_weak, pow2_pos. }
  exists r. split; [exact Er|].
  change (qpow (1 - u64) (S k)) with ((1 - u64) * dn).
  change (qpow (1 + u64) (S k)) with ((1 + u64) * up).
  apply (scaled_bounds (s + p) r (T + w) dn up u64); try lra.
Qed.

(** The products of line 97 are finite values. *)
Lemma series_mul64_cons (c : Q) (close : list Q) (v : N) (volume : list N) :
  series_mul64 (price_series (c :: close)) (fl <$> count_series (v :: volume))
  = fmul64 (Fin c) (fl (Fin (count v)))
    :: series_mul64 (price_series close) (fl <$> count_series volume).
Proof. reflexivity. Qed.

Lemma turnover_upto_cons (c : Q) (close : list Q) (v : N) (volume : list N)
    (t : nat) :
  turnover_upto (c :: close) (v :: volume) (S t)
  == c * count v + turnover_upto close volume t.
Proof. unfold turnover_upto. simpl. reflexivity. Qed.

Lemma turnover_upto_0 (c : Q) (close : list Q) (v : N) (volume : list N) :
  turnover_upto (c :: close) (v :: volume) 0 == c * count v.
Proof. unfold turnover_upto. simpl. ring. Qed.

(** The running sum of the products in float64: after the row [t] it is the
    exact turnover up to a factor between [(1 - u64)^(k + t + 1)] and
    [(1 + u64)^(k + t + 1)]. *)
Lemma cumsum64_near (close : list Q) :
  ∀ (volume : list N) (s T V : Q) (k t : nat),
    Forall (fun c => 2 ^ (-1021) <= c ∧ c <= 2 ^ 969) close →
    length close = length volume →
    V == 0 ∨ 1 <= V →
    V + Qsum (count <$> volume) < 2 ^ 53 →
    2 ^ (-1021) * V <= T → T <= 2 ^ 969 * V →
    T * qpow (1 - u64) k <= s → s <= T * qpow (1 + u64) k →
    (1 ≤ k)%nat → (Z.of_nat (k + length close) <= 2 ^ 51)%Z →
    (t < length close)%nat →
    ∃ r : Q,
      cumsum64_from (Fin s)
        (series_mul64 (price_series close) (fl <$> count_series volume)) !! t
      = Some (Fin r) ∧
      (T + turnover_upto close volume t) * qpow (1 - u64) (k + S t) <= r ∧
      r <= (T + turnover_upto close volume t) * qpow (1 + u64) (k + S t).
Proof.
  induction close as [|c close IH];
    intros [|v volume] s T V k t Hall Hlen HV Hsum T1 T2 S1 S2 Hk1 Hk Ht;
    simpl in Hlen, Ht; try discriminate; try lia.
  apply Forall_cons in Hall as [[Hlo Hhi] Hall].
  assert (Qsum (count <$> v :: volume)
          == count v + Qsum (count <$> volume)) as Ecs by reflexivity.
  rewrite Ecs in Hsum.
  pose proof (count_nonneg v) as Hv0.
  assert (0 <= Qsum (count <$> volume)) as Hrest.
  { apply Qsum_nonneg, Forall_fmap, Forall_forall. intros n _.
    apply count_nonneg. }
  destruct (vwap_step s T V k c v) as (s' & Es & B1 & B2);
    try assumption; [lra|lia|].
  rewrite series_mul64_cons. 
  assert (cumsum64_from (Fin s)
            (fmul64 (Fin c) (fl (Fin (count v)))
             :: series_mul64 (price_series close) (fl <$> count_series volume))
          = Fin s' :: cumsum64_from (Fin s')
                        (series_mul64 (price_series close)
                                      (fl <$> count_series volume))) as ->.
  { destruct (product64 c v Hlo Hhi) as (p & Ep & _); [lra|].
    rewrite Ep in Es |- *. simpl. rewrite Es. reflexivity. }
  destruct t as [|t].
  - exists s'. split; [reflexivity|].
    rewrite turnover_upto_0. replace (k + 1)%nat with (S k) by lia.
    split; assumption.
  - assert (2 ^ (-1021) * count v <= c * count v ∧
            c * count v <= 2 ^ 969 * count v) as [W1 W2].
    { split; apply Qmult_le_compat_r; lra. }
    assert (V + count v == 0 ∨ 1 <= V + count v) as HV'.
    { destruct HV as [Vz|V1]; [destruct (count_int v) as [vz|v1]|];
        [left|right|right]; lra. }
    assert (V + count v + Qsum (count <$> volume) < 2 ^ 53) as Hsum'.
    { clear -Hsum. lra. }
    assert (2 ^ (-1021) * (V + count v) <= T + c * count v) as T1'
      by (clear -T1 W1; lra).
    assert (T + c * count v <= 2 ^ 969 * (V + count v)) as T2'
      by (clear -T2 W2; lra).
    assert (Z.of_nat (S k + length close) <= 2 ^ 51)%Z as Hk'
      by (simpl in Hk; lia).
    destruct (IH volume s' (T + c * count v) (V + count v) (S k) t
                Hall ltac:(lia) HV' Hsum' T1' T2' B1 B2 ltac:(lia) Hk'
                ltac:(lia))
      as (r & Er & R1 & R2).
    exists r. split; [exact Er|].
    rewrite turnover_upto_cons.
    replace (k + S (S t))%nat with (S k + S t)%nat by lia.
    split; [rewrite Qplus_assoc; exact R1|rewrite Qplus_assoc; exact R2].
Qed.

Lemma div_bounds (s T V dn up : Q) :
  0 < V → T * dn <= s → s <= T * up →
  T / V * dn <= s / V ∧ s / V <= T / V * up.
Proof.
  intros HV S1 S2. assert (0 < / V) as Hi by (apply Qinv_lt_0_compat; exact HV).
  unfold Qdiv. split.
  - assert (T * / V * dn == T * dn * / V) as -> by ring.
    apply Qmult_le_compat_r; lra.
  - assert (T * / V * up == T * up * / V) as -> by ring.
    apply Qmult_le_compat_r; lra.
Qed.

Lemma div_range (T V a b : Q) :
  0 < V → a * V <= T → T <= b * V → a <= T / V ∧ T / V <= b.
Proof.
  intros HV T1 T2. split.
  - apply Qle_shift_div_l; assumption.
  - apply Qle_shift_div_r; assumption.
Qed.

(** The quotient of line 97 in float64, on a non-zero cumulative volume. *)
Lemma vwap_div (s T Vq : Q) (z : Z) (k : nat) :
  Vq == inject_Z z → (0 < z < 2 ^ 53)%Z →
  2 ^ (-1021) * Vq <= T → T <= 2 ^ 969 * Vq →
  T * qpow (1 - u64) k <= s → s <= T * qpow (1 + u64) k →
  (Z.of_nat k <= 2 ^ 51)%Z →
  ∃ r : Q,
    fdiv64 (Fin s) (fl (Fin Vq)) = Fin r ∧
    T / Vq * qpow (1 - u64) (S k) <= r ∧
    r <= T / Vq * qpow (1 + u64) (S k).
Proof.
  intros Hz Hzr T1 T2 S1 S2 Hk.
  destruct (round64_int Vq z Hz Hzr) as (V' & EV & HV').
  assert (1 <= Vq) as V1.
  { rewrite Hz. change 1 with (inject_Z 1). rewrite <- Zle_Qle. lia. }
  unfold fdiv64. simpl. rewrite EV. simpl.
  rewrite (Qeq_bool_neq V') by (clear -V1 HV'; lra). simpl.
  pose proof (pow2_pos (-1021)) as Pa. pose proof (pow2_pos 969) as Pb.
  pose proof u64_pos as Hu. pose proof u64_le as Hu4.
  pose proof (qpow_down_pos u64 u64_le k) as Dpos.
  pose proof (qpow_up_ge_1 u64 u64_pos k) as Uge.
  pose proof (qpow_down_half k Hk) as Dh.
  pose proof (qpow_up_two k Hk) as U2.
  set (dn := qpow (1 - u64) k) in *. set (up := qpow (1 + u64) k) in *.
  assert (0 < Vq) as Vpos by (clear -V1; lra).
  destruct (div_bounds s T Vq dn up Vpos S1 S2) as [X1 X2].
  destruct (div_range T Vq _ _ Vpos T1 T2) as [Y1 Y2].
  assert (s / V' == s / Vq) as Ex by (rewrite HV'; reflexivity).
  set (y := T / Vq) in *.
  assert (2 ^ (-1021) <= 2 ^ 969) as Hab
    by (apply Qpower_le_compat_l; [lia|discriminate]).
  assert (1 <= 2 ^ 53) as H53.
  { change 1 with (2 ^ 0). apply Qpower_le_compat_l; [lia|discriminate]. }
  assert (2 ^ (-1021) * 1 <= y) as Y1' by (clear -Y1; lra).
  assert (y <= 2 ^ 969 * 1) as Y2' by (clear -Y2; lra).
  destruct (range_bounds (s / Vq) y (2 ^ (-1021)) (2 ^ 969) 1 (2 ^ 53)
              dn up (2 ^ (-1022)) (2 ^ 1023) Pa Hab (Qle_refl 1) H53
              Y1' Y2' Dh U2 Dpos X1 X2 pow_1021 pow_1023) as [R1 R2].
  assert (0 <= y) as Hy by (clear -Y1 Pa; lra).
  destruct (round64_rel (s / V')) as (r & Er & B1 & B2).
  { rewrite Ex. clear -R1. pose proof (pow2_pos (-1022)). lra. }
  { right. rewrite Ex. exact R1. }
  { rewrite Ex. exact R2. }
  exists r. split; [exact Er|].
  rewrite Ex in B1, B2.
  change (qpow (1 - u64) (S k)) with ((1 - u64) * dn).
  change (qpow (1 + u64) (S k)) with ((1 + u64) * up).
  assert (u64 < 1) as Hu1 by reflexivity.
  assert (0 < up) as Upos by (clear -Uge; lra).
  exact (scaled_bounds (s / Vq) r y dn up u64 Hy Hu Hu1 Dpos Upos
           X1 X2 B1 B2).
Qed.

Lemma vwap_div_zero (s Vq : Q) :
  s == 0 → Vq == 0 → fdiv64 (Fin s) (fl (Fin Vq)) = NaN.
Proof.
  intros Hs HV. unfold fdiv64. simpl. rewrite (round64_zero Vq HV). simpl.
  unfold Qsign. apply Qeq_alt in Hs. rewrite Hs. reflexivity.
Qed.

Lemma Qsum_count_int (l : list N) :
  ∃ z : Z, (0 <= z)%Z ∧ Qsum (count <$> l) == inject_Z z.
Proof.
  induction l as [|n l (z & Hz & E)]; csimpl.
  - exists 0%Z. split; [lia|reflexivity].
  - exists (Z.of_N n + z)%Z. split; [lia|].
    rewrite E, inject_Z_plus. reflexivity.
Qed.

Lemma Qsum_count_take (l : list N) (n : nat) :
  Qsum (count <$> take n l) <= Qsum (count <$> l).
Proof.
  revert n. induction l as [|x l IH]; intros [|n]; csimpl; try apply Qle_refl.
  - pose proof (count_nonneg x).
    assert (0 <= Qsum (count <$> l)).
    { apply Qsum_nonneg, Forall_fmap, Forall_forall. intros ? _.
      apply count_nonneg. }
    lra.
  - specialize (IH n). lra.
Qed.

Lemma cumsum64_length (acc : fval) (s : Series) :
  length (cumsum64_from acc s) = length s.
Proof.
  revert acc. induction s as [|x s IH]; intros acc; simpl; [reflexivity|].
  destruct x; simpl; rewrite IH; reflexivity.
Qed.

Lemma vwap64_length (close : list Q) (volume : list N) :
  length close = length volume →
  length (vwap64 (price_series close) (count_series volume)) = length close.
Proof.
  intros Hlen. unfold vwap64, series_div64, series_mul64, cumsum64, cumsum,
    price_series, count_series.
  rewrite length_zip_with, cumsum64_length, length_zip_with, !length_fmap,
    cumsum_length, !length_fmap. lia.
Qed.

Lemma rounding_slack_eq (t : nat) :
  rounding_slack t == 2 * (inject_Z (Z.of_nat (t + 3)) * u64).
Proof.
  unfold rounding_slack, Qdiv.
  assert (/ 2 ^ 52 == 2 * u64) as -> by reflexivity. ring.
Qed.

(** The float64 VWAP of a row against the exact quotient. *)
Lemma vwap64_near (close : list Q) (volume : list N) (t : nat) :
  Forall (fun c => 2 ^ (-1021) <= c ∧ c <= 2 ^ 969) close →
  length close = length volume →
  Qsum (count <$> volume) < 2 ^ 53 →
  (Z.of_nat (length close) + 3 <= 2 ^ 51)%Z →
  (t < length close)%nat →
  (¬ volume_upto volume t == 0 →
     ∃ r : Q,
       vwap64 (price_series close) (count_series volume) !! t
       = Some (Fin r) ∧
       turnover_upto close volume t / volume_upto volume t
         * (1 - rounding_slack t) <= r ∧
       r <= turnover_upto close volume t / volume_upto volume t
              * (1 + rounding_slack t)) ∧
  (volume_upto volume t == 0 →
     vwap64 (price_series close) (count_series volume) !! t = Some NaN).
Proof.
  intros Hall Hlen Hsum Hrows Ht.
  pose proof (pow2_pos (-1021)) as Pa. pose proof (pow2_pos 969) as Pb.
  destruct (cumsum64_near close volume 0 0 0 1 t) as (s & Es & S1 & S2);
    try assumption; try lia.
  { left. reflexivity. }
  { clear -Hsum. lra. }
  { clear. lra. }
  { clear. lra. }
  { clear. lra. }
  { clear. lra. }
  destruct (cumsum_from_finite 0 (count <$> volume) t) as (Vq & EV & HV).
  { rewrite length_fmap. lia. }
  rewrite <- fmap_take in HV. fold (volume_upto volume t) in HV.
  rewrite Qplus_0_l in HV.
  assert (vwap64 (price_series close) (count_series volume) !! t
          = Some (fdiv64 (Fin s) (fl (Fin Vq)))) as ->.
  { unfold vwap64, series_div64, cumsum64, cumsum.
    rewrite lookup_zip_with, Es, list_lookup_fmap, count_series_fmap, EV.
    reflexivity. }
  rewrite !Qplus_0_l in S1, S2. replace (1 + S t)%nat with (t + 2)%nat in * by lia.
  destruct (turnover_bounds (2 ^ (-1021)) (2 ^ 969) (take (S t) close)
              (take (S t) volume)) as [T1 T2].
  { apply Forall_take. exact Hall. }
  { rewrite !length_take. lia. }
  fold (turnover_upto close volume t) in T1, T2.
  fold (volume_upto volume t) in T1, T2.
  set (T := turnover_upto close volume t) in *.
  set (V := volume_upto volume t) in *.
  split.
  - intros Vnz.
    destruct (Qsum_count_int (take (S t) volume)) as (z & Hz0 & Hz).
    fold (volume_upto volume t) in Hz. fold V in Hz.
    assert (V <= Qsum (count <$> volume)) as Hle
      by (apply Qsum_count_take).
    assert (0 < z < 2 ^ 53)%Z as Hzr.
    { split.
      - destruct (decide (z = 0%Z)) as [->|]; [|lia].
        exfalso. apply Vnz. exact Hz.
      - rewrite Zlt_Qlt. rewrite <- Hz.
        rewrite Zpower_Qpower by lia. change (inject_Z 2) with 2.
        clear -Hle Hsum. lra. }
    destruct (vwap_div s T Vq z (t + 2)) as (r & Er & R1 & R2).
    { rewrite HV. exact Hz. }
    { exact Hzr. }
    { rewrite HV. exact T1. }
    { rewrite HV. exact T2. }
    { exact S1. }
    { exact S2. }
    { lia. }
    exists r. split; [rewrite Er; reflexivity|].
    rewrite HV in R1, R2.
    assert (0 < V) as Vpos.
    { rewrite Hz. change 0 with (inject_Z 0). rewrite <- Zlt_Qlt. lia. }
    destruct (div_range T V _ _ Vpos T1 T2) as [Y1 Y2].
    set (q := T / V) in *.
    assert (0 <= q) as Hq by (clear -Y1 Pa; lra).
    replace (S (t + 2)) with (t + 3)%nat in * by lia.
    pose proof (qpow_down_bernoulli u64 u64_pos u64_le (t + 3)) as D.
    pose proof (slack_small (t + 3) ltac:(lia)) as Hw.
    pose proof (qpow_up_linear u64 u64_pos (t + 3)) as U.
    assert (inject_Z (Z.of_nat (t + 3)) * u64 <= 1 # 2) as Hw'
      by (clear -Hw; lra).
    specialize (U Hw').
    assert (0 <= inject_Z (Z.of_nat (t + 3)) * u64) as Hw0.
    { apply Qmult_le_0_compat; [|discriminate].
      change 0 with (inject_Z 0). rewrite <- Zle_Qle. lia. }
    rewrite rounding_slack_eq.
    set (w := inject_Z (Z.of_nat (t + 3)) * u64) in *.
    set (dn := qpow (1 - u64) (t + 3)) in *.
    set (up := qpow (1 + u64) (t + 3)) in *.
    assert (q * (1 - 2 * w) <= q * dn) as A
      by (apply Qmult_le_l'; [exact Hq|clear -D Hw0; lra]).
    assert (q * up <= q * (1 + 2 * w)) as B
      by (apply Qmult_le_l'; [exact Hq|exact U]).
    clear -A B R1 R2. split; lra.
  - intros Vz. f_equal. apply vwap_div_zero.
    + rewrite Vz in T1, T2.
      assert (T == 0) as ET by (clear -T1 T2; lra).
      rewrite ET in S1, S2. clear -S1 S2. lra.
    + rewrite HV. exact Vz.
Qed.

(** C7, as the code has it: for positive Close prices away from overflow
    and underflow (between [2^-1021] and [2^969]), a total volume below
    [2^53] and fewer than [2^51] rows, at each row [t] with non-zero
    cumulative volume the VWAP stored by line 97 is a number [r] that
    equals the cumulative turnover divided by the cumulative volume, [q],
    up to the rounding of its [t + 3] float64 operations: [r] lies between
    [q * (1 - (t + 3) / 2^52)] and [q * (1 + (t + 3) / 2^52)]; the exact
    quotient [q] lies between the smallest and the largest Close of rows 0
    to [t], and [r] does so up to the same relative error; the VWAP is
    undefined (NaN) exactly at the rows where the cumulative volume is
    zero. *)
Theorem vwap_is_ratio_up_to_rounding (data : DataFrame) (fig : Figure)
    (close : list Q) (volume : list N) :
  getitem data "Close" = Ok (price_series close) →
  getitem data "Volume" = Ok (count_series volume) →
  length close = length volume →
  Forall (fun c => 2 ^ (-1021) <= c ∧ c <= 2 ^ 969) close →
  Qsum (count <$> volume) < 2 ^ 53 →
  (Z.of_nat (length close) + 3 <= 2 ^ 51)%Z →
  ∃ vwap : Series,
    add_vwap64 (data, fig)
    = Ok (setitem data "VWAP" vwap,
          fig ++ [Scatter (df_index data) vwap "VWAP" "y" None]) ∧
    length vwap = length close ∧
    ∀ t : nat, (t < length close)%nat →
      (¬ volume_upto volume t == 0 →
         ∃ r q : Q,
           vwap !! t = Some (Fin r) ∧
           q == turnover_upto close volume t / volume_upto volume t ∧
           q * (1 - rounding_slack t) <= r ∧
           r <= q * (1 + rounding_slack t) ∧
           min_price (take (S t) close) <= q ∧
           q <= max_price (take (S t) close) ∧
           min_price (take (S t) close) * (1 - rounding_slack t) <= r ∧
           r <= max_price (take (S t) close) * (1 + rounding_slack t)) ∧
      (volume_upto volume t == 0 → vwap !! t = Some NaN).
Proof.
  intros Hclose Hvolume Hlen Hall Hsum Hrows.
  exists (vwap64 (price_series close) (count_series volume)).
  split; [|split].
  - unfold add_vwap64. rewrite Hclose, Hvolume. simpl.
    unfold getitem, setitem. simpl. rewrite lookup_insert_eq. reflexivity.
  - apply vwap64_length. exact Hlen.
  - intros t Ht.
    destruct (vwap64_near close volume t Hall Hlen Hsum Hrows Ht)
      as [Hnz Hz].
    split; [|exact Hz].
    intros Vnz. destruct (Hnz Vnz) as (r & Er & R1 & R2).
    exists r, (turnover_upto close volume t / volume_upto volume t).
    split; [exact Er|]. split; [reflexivity|].
    split; [exact R1|]. split; [exact R2|].
    destruct (turnover_bounds (min_price (take (S t) close))
                (max_price (take (S t) close)) (take (S t) close)
                (take (S t) volume)) as [Blo Bhi].
    { apply prices_within_min_max. }
    { rewrite !length_take. lia. }
    fold (turnover_upto close volume t) in Blo, Bhi.
    fold (volume_upto volume t) in Blo, Bhi.
    assert (0 <= volume_upto volume t) as Vnn.
    { unfold volume_upto. apply Qsum_nonneg. apply Forall_fmap, Forall_forall.
      intros n _. apply count_nonneg. }
    assert (0 < volume_upto volume t) as Vpos.
    { apply Qle_lteq in Vnn as [H|H]; [exact H|].
      exfalso. apply Vnz. symmetry. exact H. }
    destruct (div_range _ _ _ _ Vpos Blo Bhi) as [Q1 Q2].
    split; [exact Q1|]. split; [exact Q2|].
    pose proof (slack_small (t + 3) ltac:(lia)) as Hw.
    assert (0 <= inject_Z (Z.of_nat (t + 3)) * u64) as Hw0.
    { apply Qmult_le_0_compat; [|discriminate].
      change 0 with (inject_Z 0). rewrite <- Zle_Qle. lia. }
    rewrite rounding_slack_eq in *.
    set (w := inject_Z (Z.of_nat (t + 3)) * u64) in *.
    set (q := turnover_upto close volume t / volume_upto volume t) in *.
    assert (min_price (take (S t) close) * (1 - 2 * w) <= q * (1 - 2 * w))
      as A by (apply Qmult_le_compat_r; [exact Q1|clear -Hw; lra]).
    assert (q * (1 + 2 * w) <= max_price (take (S t) close) * (1 + 2 * w))
      as B by (apply Qmult_le_compat_r; [exact Q2|clear -Hw0; lra]).
    clear -A B R1 R2. split; lra.
Qed.

(** The claim as the specification words it, that the VWAP lies between
    the smallest and the largest Close so far, fails in float64.  Two days
    at the same price: the float64 VWAP of the second day is one
    unit in the last place below that price, outside the range of the
    Close values. *)
Lemma vwap_below_close_range_counterexample :
  ∃ (d : DataFrame) (vwap : Series) (r : Q),
    add_vwap64 (rounding_frame, [])
    = Ok (d, [Scatter (df_index rounding_frame) vwap "VWAP" "y" None]) ∧
    ¬ volume_upto [900; 100]%N 1 == 0 ∧
    vwap !! 1%nat = Some (Fin r) ∧
    r == 5007615757543013 # 17592186044416 ∧
    r < min_price (take 2 [close_284_65; close_284_65]) ∧
    ¬ r == turnover_upto [close_284_65; close_284_65] [900; 100]%N 1
           / volume_upto [900; 100]%N 1.
Proof.
  do 3 eexists. split; [vm_compute; reflexivity|].
  split; [vm_compute; discriminate|].
  split; [reflexivity|].
  split; [vm_compute; reflexivity|].
  split; [vm_compute; reflexivity|].
  vm_compute. discriminate.
Qed.

(** * Further properties of the code *)

(** ** RSI on finite prices *)


















Lemma rsi_value_nan_l (l : fval) : rsi_value NaN l = NaN.
Proof. reflexivity. Qed.

(** X1: the RSI is undefined at rows 0 to 12, whatever the prices. *)
Theorem rsi_undefined_before_row_13 (data : DataFrame) (close : Series) :
  getitem data "Close" = Ok close →
  ∃ rsi : Series,
    calculate_rsi data 14 = Ok rsi ∧ length rsi = length close ∧
    ∀ i : nat, (i < 13)%nat → (i < length close)%nat → rsi !! i = Some NaN.
Proof.
  intros Hclose. destruct (calculate_rsi_returns data close Hclose) as [E L].
  exists (rsi_of_close 14 close). split; [exact E|]. split; [exact L|].
  intros i H13 Hi. rewrite rsi_of_close_lookup.
  assert (length (rsi_gain 14 close) = length close) as Lg.
  { unfold rsi_gain. rewrite rolling_mean_length. unfold where_, series_gt.
    rewrite length_zip_with, length_fmap. destruct close; simpl; [reflexivity|].
    rewrite length_zip_with. simpl. lia. }
  assert (length (rsi_loss 14 close) = length close) as Ll.
  { unfold rsi_loss. rewrite rolling_mean_length. unfold series_neg, where_, series_lt.
    rewrite length_fmap, length_zip_with, length_fmap.
    destruct close; simpl; [reflexivity|].
    rewrite length_zip_with. simpl. lia. }
  destruct (rsi_gain 14 close !! i) as [g|] eqn:Eg;
    [|apply lookup_ge_None in Eg; lia].
  destruct (rsi_loss 14 close !! i) as [l|] eqn:El;
    [|apply lookup_ge_None in El; lia].
  simpl. unfold rsi_gain in Eg.
  apply rolling_mean_lookup_inv in Eg as [_ ->].
  rewrite rolling_mean_at_short by lia. reflexivity.
Qed.









(** X3: with a positive rolling loss the RSI is the share of the gain in the
    total move, in percent. *)
Theorem rsi_is_gain_share (data : DataFrame) (close rsi : Series)
    (i : nat) (g l : Q) :
  getitem data "Close" = Ok close →
  calculate_rsi data 14 = Ok rsi →
  rsi_gain 14 close !! i = Some (Fin g) →
  rsi_loss 14 close !! i = Some (Fin l) →
  0 < l →
  ∃ v : Q, rsi !! i = Some (Fin v) ∧ v == 100 * g / (g + l).
Proof.
  intros Hclose Hcalc Hg Hl Hpos.
  destruct (calculate_rsi_returns data close Hclose) as [E _].
  rewrite E in Hcalc. injection Hcalc as <-.
  pose proof (rsi_gain_nonneg _ _ _ _ Hg) as Hg0. simpl in Hg0.
  destruct (rsi_value_pos_loss g l Hg0 Hpos) as (Ev & _ & _).
  rewrite rsi_of_close_lookup, Hg, Hl. simpl. rewrite Ev.
  eexists. split; [reflexivity|].
  assert (0 <= g / l) by (apply Qdiv_nonneg; lra).
  field. repeat split; lra.
Qed.





(** ** EMA and MACD on a constant column *)

(** On a constant column the loop of the exponentially weighted mean never
    leaves the constant. *)
Lemma ewm_loop_constant (alpha : Q) (adjust : bool) (c w : Q) (k n : nat) :
  ewm_loop alpha adjust (EwmState (Fin c) w (S k)) (replicate n (Fin c))
  = replicate n (Fin c).
Proof.
  revert w k. induction n as [|n IH]; intros w k; [reflexivity|].
  simpl. unfold ewm_step. simpl.
  rewrite (Qeq_bool_true c c) by reflexivity. simpl.
  unfold ewm_output at 1. simpl. f_equal. apply IH.
Qed.

Lemma ewm_mean_constant (span : Q) (adjust : bool) (c : Q) (n : nat) :
  ewm_mean span adjust (replicate n (Fin c)) = replicate n (Fin c).
Proof.
  unfold ewm_mean, prep_values. rewrite fmap_replicate. simpl.
  destruct n as [|n]; [reflexivity|]. simpl.
  unfold ewm_output at 1. simpl. f_equal. apply ewm_loop_constant.
Qed.

Lemma series_sub_replicate (a b : Q) (n : nat) :
  series_sub (replicate n (Fin a)) (replicate n (Fin b))
  = replicate n (Fin (a + - b)).
Proof.
  unfold series_sub. induction n as [|n IH]; [reflexivity|].
  simpl. rewrite IH. reflexivity.
Qed.

(** X7: on a Close column that holds one and the same finite price at every
    row, of any length, the trace "EMA (20)" is that price and the MACD and
    its signal line are zero at every row. *)
Theorem constant_prices_flat_ema_zero_macd (fsqrt : Q → Q)
    (data : DataFrame) (fig : Figure) (c : Q) (n : nat) :
  getitem data "Close" = Ok (price_series (replicate n c)) →
  add_indicator fsqrt "20-Day EMA" (data, fig)
  = Ok (data, fig ++ [Scatter (df_index data) (replicate n (Fin c))
                              "EMA (20)" "y" None]) ∧
  ∃ z : Q, z == 0 ∧
    calculate_macd data = Ok (replicate n (Fin z), replicate n (Fin z)).
Proof.
  intros Hclose. unfold price_series in Hclose.
  rewrite fmap_replicate in Hclose. split.
  - unfold add_indicator. simpl. rewrite Hclose. simpl.
    rewrite ewm_mean_constant. reflexivity.
  - exists (c + - c). split; [ring|].
    unfold calculate_macd. rewrite Hclose. simpl. unfold macd_of_close.
    rewrite !ewm_mean_constant, series_sub_replicate, ewm_mean_constant.
    reflexivity.
Qed.


(** ** SMA, Bollinger bands and the engine *)






Lemma rsi_of_close_len (w : nat) (close : Series) :
  length (rsi_of_close w close) = length close.
Proof. apply rsi_of_close_length. Qed.

Lemma frame_aligned_getitem (data : DataFrame) (k : string) (s : Series) :
  frame_aligned data → getitem data k = Ok s →
  length s = length (df_index data).
Proof.
  intros Ha. unfold getitem. destruct (df_columns data !! k) eqn:E;
    [|discriminate]. intros [= <-]. apply (Ha k). exact E.
Qed.

Lemma frame_aligned_setitem (data : DataFrame) (k : string) (s : Series) :
  frame_aligned data → length s = length (df_index data) →
  frame_aligned (setitem data k s).
Proof.
  intros Ha Hs k' s'. unfold setitem. simpl.
  destruct (decide (k = k')) as [->|Hne].
  - rewrite lookup_insert_eq. intros [= <-]. exact Hs.
  - rewrite lookup_insert_ne by assumption. apply Ha.
Qed.

(** [add_indicator] keeps the frame and the figure well formed: every
    column keeps one value per row and every trace has as many values as
    labels. *)
Lemma add_indicator_aligned (fsqrt : Q → Q) (ind : string)
    (data d : DataFrame) (fig fig' : Figure) :
  frame_aligned data → Forall trace_aligned fig →
  add_indicator fsqrt ind (data, fig) = Ok (d, fig') →
  frame_aligned d ∧ Forall trace_aligned fig'.
Proof.
  intros Ha Hfig.
  assert (∀ s, getitem data "Close" = Ok s → length s = length (df_index data))
    as HC by (intros s; apply frame_aligned_getitem; assumption).
  assert (∀ s, getitem data "Volume" = Ok s → length s = length (df_index data))
    as HV by (intros s; apply frame_aligned_getitem; assumption).
  case_indicator ind; simpl; unfold calculate_rsi, calculate_macd.
  - destruct (getitem data "Close") as [c|] eqn:E; simpl; [|discriminate].
    intros [= <- <-]. split; [assumption|]. unfold add_trace.
    apply Forall_app. split; [assumption|]. repeat constructor. simpl.
    rewrite rolling_mean_length. auto.
  - destruct (getitem data "Close") as [c|] eqn:E; simpl; [|discriminate].
    intros [= <- <-]. split; [assumption|]. unfold add_trace.
    apply Forall_app. split; [assumption|]. repeat constructor. simpl.
    rewrite ewm_mean_length. auto.
  - destruct (getitem data "Close") as [c|] eqn:E; simpl; [|discriminate].
    intros [= <- <-]. split; [assumption|]. unfold add_trace.
    rewrite !Forall_app. repeat split; try assumption;
      repeat constructor; simpl;
      unfold series_add, series_sub, scalar_mul;
      rewrite length_zip_with, length_fmap, rolling_mean_length,
        rolling_std_length, (HC c eq_refl); lia.
  - destruct (getitem data "Close") as [c|] eqn:E; simpl; [|discriminate].
    destruct (getitem data "Volume") as [v|] eqn:E2; simpl; [|discriminate].
    rewrite getitem_setitem. simpl. intros [= <- <-].
    assert (length (series_div (cumsum (series_mul c v)) (cumsum v))
            = length (df_index data)) as Hlen.
    { unfold series_div, cumsum, series_mul.
      rewrite length_zip_with, !cumsum_length, length_zip_with,
        (HC c eq_refl), (HV v eq_refl). lia. }
    split; [apply frame_aligned_setitem; assumption|].
    unfold add_trace. apply Forall_app. split; [assumption|].
    repeat constructor. simpl. exact Hlen.
  - destruct (getitem data "Close") as [c|] eqn:E; simpl; [|discriminate].
    destruct (index_first (df_index data)) as [d0|]; simpl; [|discriminate].
    destruct (index_last (df_index data)) as [d1|]; simpl; [|discriminate].
    intros [= <- <-]. split; [assumption|]. unfold add_trace.
    rewrite !Forall_app. repeat split; try assumption;
      repeat constructor; simpl.
    rewrite rsi_of_close_length. auto.
  - destruct (getitem data "Close") as [c|] eqn:E; simpl; [|discriminate].
    intros [= <- <-]. split; [assumption|]. unfold add_trace.
    destruct (macd_of_close_length c) as [L1 L2].
    rewrite !Forall_app. repeat split; try assumption;
      repeat constructor; simpl.
    + unfold macd_of_close in L1. simpl in L1. rewrite L1. auto.
    + unfold macd_of_close in L2. simpl in L2. rewrite L2. auto.
  - intros [= <- <-]. split; assumption.
Qed.

(** X11: a chart rendered from a well-formed frame is well formed, and so is
    the frame the run leaves in store. *)
Theorem render_chart_aligned (fsqrt : Q → Q) (data d : DataFrame)
    (indicators : list string) (fig : Figure) :
  frame_aligned data →
  render_chart fsqrt data indicators = Ok (d, fig) →
  frame_aligned d ∧ Forall trace_aligned fig.
Proof.
  intros Ha. unfold render_chart, candlestick_figure.
  destruct (getitem data "Open") as [o|] eqn:EO; simpl; [|discriminate].
  destruct (getitem data "High") as [h|] eqn:EH; simpl; [|discriminate].
  destruct (getitem data "Low") as [l|] eqn:EL; simpl; [|discriminate].
  destruct (getitem data "Close") as [c|] eqn:EC; simpl; [|discriminate].
  assert (Forall trace_aligned [Candlestick (df_index data) o h l c]) as H0.
  { repeat constructor; simpl;
      eapply frame_aligned_getitem; eassumption. }
  revert H0 Ha. generalize [Candlestick (df_index data) o h l c].
  clear EO EH EL EC. revert data.
  induction indicators as [|ind rest IH]; intros data fig0 Hfig Ha.
  - intros [= <- <-]. split; assumption.
  - rewrite add_indicators_cons.
    destruct (add_indicator fsqrt ind (data, fig0)) as [[d1 f1]|] eqn:E;
      simpl; [|discriminate].
    destruct (add_indicator_aligned _ _ _ _ _ _ Ha Hfig E) as [Ha1 Hf1].
    apply IH; assumption.
Qed.

Lemma getitem_missing (data : DataFrame) (k : string) :
  df_columns data !! k = None → getitem data k = Raise (KeyError k).
Proof. intros H. unfold getitem. rewrite H. reflexivity. Qed.

(** X12: on a frame without the column Close each of the six indicators
    raises [KeyError] for that column, whatever else the frame holds. *)
Theorem add_indicator_missing_close (fsqrt : Q → Q) (ind : string)
    (data : DataFrame) (fig : Figure) :
  ind ∈ known_indicators →
  df_columns data !! "Close" = None →
  add_indicator fsqrt ind (data, fig) = Raise (KeyError "Close").
Proof.
  intros Hin Hmiss. apply getitem_missing in Hmiss.
  unfold known_indicators in Hin.
  repeat (apply elem_of_cons in Hin as [->|Hin]);
    try (unfold add_indicator, calculate_rsi, calculate_macd; simpl;
         rewrite Hmiss; reflexivity).
  inversion Hin.
Qed.

(** X13: on a frame that holds the columns but no row, the indicator RSI
    raises [IndexError], although the RSI series itself is computed; each of
    the other five indicators draws its traces. *)
Theorem add_indicator_on_empty_frame (fsqrt : Q → Q)
    (data : DataFrame) (fig : Figure) (close volume : Series) :
  df_index data = [] →
  getitem data "Close" = Ok close →
  getitem data "Volume" = Ok volume →
  calculate_rsi data 14 = Ok (rsi_of_close 14 close) ∧
  add_indicator fsqrt "RSI" (data, fig) = Raise IndexError ∧
  Forall (fun ind =>
            ∃ (d : DataFrame) (tr : Figure),
              add_indicator fsqrt ind (data, fig) = Ok (d, fig ++ tr))
         ["20-Day SMA"; "20-Day EMA"; "20-Day Bollinger Bands"; "VWAP"; "MACD"].
Proof.
  intros Hidx HC HV. split; [|split].
  - unfold calculate_rsi. rewrite HC. reflexivity.
  - unfold add_indicator, calculate_rsi. simpl. rewrite HC, Hidx. reflexivity.
  - repeat constructor;
      unfold add_indicator, calculate_macd; simpl; rewrite ?HC, ?HV;
      simpl; rewrite ?getitem_setitem; simpl;
      unfold add_trace; rewrite <- ?app_assoc;
      do 2 eexists; reflexivity.
Qed.

(** On data that agree on the index and on every column but VWAP, an
    indicator draws the same traces and writes the same column. *)
Lemma add_indicator_on_same_ohlcv (fsqrt : Q → Q) (ind : string)
    (d1 d2 d1' : DataFrame) (tr : Figure) :
  same_ohlcv d1 d2 →
  add_indicator fsqrt ind (d1, []) = Ok (d1', tr) →
  ∃ d2' : DataFrame,
    add_indicator fsqrt ind (d2, []) = Ok (d2', tr) ∧
    same_ohlcv d1' d2' ∧
    (ind ≠ "VWAP" → d1' = d1 ∧ d2' = d2) ∧
    (ind = "VWAP" →
     ∃ v : Series, d1' = setitem d1 "VWAP" v ∧ d2' = setitem d2 "VWAP" v).
Proof.
  intros Hsame Hrun.
  destruct (decide (ind = "VWAP")) as [->|Hne].
  - assert (getitem d1 "Close" = getitem d2 "Close") as HC
      by (apply same_ohlcv_getitem; [assumption|discriminate]).
    assert (getitem d1 "Volume" = getitem d2 "Volume") as HV
      by (apply same_ohlcv_getitem; [assumption|discriminate]).
    pose proof (proj1 Hsame) as HI.
    revert Hrun. unfold add_indicator. simpl. rewrite HC, HV.
    destruct (getitem d2 "Close") as [c|]; simpl; [|discriminate].
    destruct (getitem d2 "Volume") as [v|]; simpl; [|discriminate].
    rewrite !getitem_setitem. simpl. rewrite HI. intros [= <- <-].
    eexists. split; [reflexivity|]. split.
    + destruct Hsame as [H1 H2]. split; [exact H1|].
      intros k Hk. simpl. rewrite !lookup_insert_ne by congruence.
      apply H2. exact Hk.
    + split; [congruence|]. intros _. eexists. split; reflexivity.
  - destruct (add_indicator_reads_ohlcv fsqrt ind d1 d2 d1' tr Hsame Hrun)
      as [d2' Hrun2].
    destruct (add_indicator_stores _ _ _ _ _ _ Hrun) as [K1 _].
    destruct (add_indicator_stores _ _ _ _ _ _ Hrun2) as [K2 _].
    exists d2'. split; [exact Hrun2|].
    rewrite (K1 Hne), (K2 Hne). split; [exact Hsame|].
    split; [auto|]. intros E. contradiction.
Qed.

(** X14: the frame left in store by a run of the loop is a fixed point of
    the loop: run again on it, as the next interaction does, the same
    selection draws the same traces and stores the same frame. *)
Theorem rerun_draws_same_chart (fsqrt : Q → Q) (indicators : list string)
    (data d : DataFrame) (fig fig' fig2 : Figure) :
  add_indicators fsqrt indicators (data, fig) = Ok (d, fig') →
  ∃ drawn : Figure,
    fig' = fig ++ drawn ∧
    add_indicators fsqrt indicators (d, fig2) = Ok (d, fig2 ++ drawn).
Proof.
  intros Hrun.
  cut (∀ (inds : list string) (d1 d2 d1' : DataFrame) (f1 f1' f2 : Figure),
         same_ohlcv d1 d2 →
         add_indicators fsqrt inds (d1, f1) = Ok (d1', f1') →
         ∃ (drawn : Figure) (d2' : DataFrame),
           f1' = f1 ++ drawn ∧
           add_indicators fsqrt inds (d2, f2) = Ok (d2', f2 ++ drawn) ∧
           same_ohlcv d1' d2' ∧ same_ohlcv d1' d1 ∧
           ("VWAP" ∉ inds → d1' = d1 ∧ d2' = d2) ∧
           ("VWAP" ∈ inds →
            ∃ v : Series, d1' = setitem d1 "VWAP" v ∧
                          d2' = setitem d2 "VWAP" v)).
  { intros H.
    destruct (H indicators data data d fig fig' fig (same_ohlcv_refl data) Hrun)
      as (drawn & d0 & -> & _ & _ & Hsame & Hno & Hyes).
    destruct (H indicators data d d fig (fig ++ drawn) fig2) as
      (drawn' & d2' & Ed & Hrun2 & _ & _ & Hno2 & Hyes2).
    { split; [symmetry; apply Hsame|]. intros k Hk. symmetry.
      apply Hsame. exact Hk. }
    { exact Hrun. }
    apply app_inv_head in Ed. subst drawn'.
    exists drawn. split; [reflexivity|].
    destruct (decide ("VWAP" ∈ indicators)) as [Hin|Hnot].
    - destruct (Hyes2 Hin) as (v & Ev & ->). rewrite Hrun2.
      do 2 f_equal. rewrite Ev. unfold setitem. simpl.
      rewrite insert_insert_eq. reflexivity.
    - destruct (Hno2 Hnot) as [_ ->]. exact Hrun2. }
  clear. intros inds.
  induction inds as [|ind rest IH]; intros d1 d2 d1' f1 f1' f2 Hsame Hrun.
  - injection Hrun as <- <-. exists [], d2. rewrite !app_nil_r.
    repeat split; try assumption; try apply same_ohlcv_refl; try apply Hsame.
    intros H. inversion H.
  - rewrite add_indicators_cons in Hrun.
    destruct (add_indicator fsqrt ind (d1, f1)) as [[da fa]|] eqn:Ea;
      simpl in Hrun; [|discriminate].
    assert (∃ tr, add_indicator fsqrt ind (d1, []) = Ok (da, tr) ∧
                  fa = f1 ++ tr) as (tr & Ea0 & ->).
    { destruct (add_indicator fsqrt ind (d1, [])) as [[db tb]|eb] eqn:Eb.
      - pose proof (add_indicator_figure _ _ _ _ _ f1 Eb) as Eb'.
        rewrite Ea in Eb'. injection Eb' as -> ->. eauto.
      - exfalso. revert Ea Eb. clear.
        case_indicator ind; simpl; unfold calculate_rsi, calculate_macd;
          repeat match goal with
                 | |- context [getitem (setitem ?a ?b ?c) ?b] =>
                     rewrite !(getitem_setitem a b c); simpl
                 | |- context [getitem ?a ?b] => destruct (getitem a b); simpl
                 | |- context [index_first ?a] => destruct (index_first a); simpl
                 | |- context [index_last ?a] => destruct (index_last a); simpl
                 end; intros; discriminate. }
    destruct (add_indicator_on_same_ohlcv fsqrt ind d1 d2 da tr Hsame Ea0)
      as (db & Eb & Hsab & Hkeep & Hwrite).
    destruct (IH da db d1' (f1 ++ tr) f1' (f2 ++ tr) Hsab Hrun)
      as (drawn & d2' & -> & Hrun2 & Hs2 & Hs1 & Hno & Hyes).
    exists (tr ++ drawn), d2'.
    assert (same_ohlcv da d1) as Hda.
    { destruct (decide (ind = "VWAP")) as [E|E].
      - destruct (Hwrite E) as (v & -> & _). apply same_ohlcv_setitem.
      - destruct (Hkeep E) as [-> _]. apply same_ohlcv_refl. }
    repeat match goal with |- _ ∧ _ => split end.
    + rewrite app_assoc. reflexivity.
    + rewrite add_indicators_cons.
      rewrite (add_indicator_figure _ _ _ _ _ f2 Eb). simpl.
      rewrite Hrun2, app_assoc. reflexivity.
    + exact Hs2.
    + eapply same_ohlcv_trans; eassumption.
    + intros Hnot. apply not_elem_of_cons in Hnot as [Hn1 Hn2].
      destruct (Hno Hn2) as [-> ->].
      apply Hkeep. congruence.
    + intros Hin. destruct (decide ("VWAP" ∈ rest)) as [Hr|Hr].
      * destruct (Hyes Hr) as (v & -> & ->).
        destruct (decide (ind = "VWAP")) as [E|E].
        -- destruct (Hwrite E) as (v' & -> & ->). exists v.
           unfold setitem. simpl. rewrite !insert_insert_eq. split; reflexivity.
        -- destruct (Hkeep E) as [-> ->]. eauto.
      * destruct (Hno Hr) as [-> ->]. apply Hwrite.
        apply elem_of_cons in Hin as [E|E]; [congruence|contradiction].
Qed.


(** ** The layout *)

(** The layout of the chart, entry by entry, for the four kinds of
    selection. *)
Lemma chart_layout_entries (ticker : string) (s e : Timestamp)
    (indicators : list string) :
  let rsi := bool_decide ("RSI" ∈ indicators) in
  let macd := bool_decide ("MACD" ∈ indicators) in
  let sub2 := if rsi && macd then axis_titled "RSI" (35 # 100) (55 # 100)
              else axis_titled "RSI" (1 # 10) (3 # 10) in
  let with3 (m : gmap string LayoutValue) :=
    if macd then <["yaxis3" := axis_titled "MACD" (1 # 10) (3 # 10)]> m else m in
  let with2 (m : gmap string LayoutValue) :=
    if rsi then <["yaxis2" := sub2]> m else m in
  chart_layout ticker s e indicators
  = with2 (with3
      (<["height" := LInt (if rsi && macd then 1000 else 800)]>
         (<["title" := LStr (chart_title ticker s e)]>
            (<["yaxis" := LAxis (mkAxis None (Some (6 # 10, 1)) (Some "#31333F"))]>
               (<["xaxis" := axis_grid "#31333F"]>
                  (<["xaxis_rangeslider_visible" := LBool false]> ∅)))))).
Proof.
  unfold chart_layout, layout_update. simpl.
  destruct (bool_decide ("RSI" ∈ indicators));
    destruct (bool_decide ("MACD" ∈ indicators)); simpl;
    apply map_eq; intros k; vm_compute; reflexivity.
Qed.

Lemma chart_layout_domains (ticker : string) (s e : Timestamp)
    (indicators : list string) :
  let L := chart_layout ticker s e indicators in
  let rsi := bool_decide ("RSI" ∈ indicators) in
  let macd := bool_decide ("MACD" ∈ indicators) in
  (∀ k d, domain_of L k = Some d → k = "yaxis" ∨ k = "yaxis2" ∨ k = "yaxis3") ∧
  domain_of L "yaxis" = Some (6 # 10, 1) ∧
  domain_of L "yaxis2"
  = (if rsi then Some (if macd then (35 # 100, 55 # 100) else (1 # 10, 3 # 10))
     else None) ∧
  domain_of L "yaxis3" = (if macd then Some (1 # 10, 3 # 10) else None).
Proof.
  intros L rsi macd. unfold L, domain_of.
  rewrite chart_layout_entries. fold rsi macd.
  split.
  - intros k d.
    destruct rsi, macd; simpl;
      repeat (rewrite lookup_insert; case_decide;
              [subst; simpl; try (intros; discriminate); auto|]);
      rewrite lookup_empty; discriminate.
  - destruct rsi, macd; repeat split; reflexivity.
Qed.

(** The extent a layout sets for an axis is one of four. *)
Lemma chart_panel_cases (ticker : string) (s e : Timestamp)
    (indicators : list string) (k : string) (d : Q * Q) :
  domain_of (chart_layout ticker s e indicators) k = Some d →
  (k = "yaxis" ∧ d = ((6 # 10), 1)) ∨
  (k = "yaxis2" ∧ "MACD" ∈ indicators ∧ d = ((35 # 100), (55 # 100))) ∨
  (k = "yaxis2" ∧ ("MACD" ∉ indicators) ∧ d = ((1 # 10), (3 # 10))) ∨
  (k = "yaxis3" ∧ "MACD" ∈ indicators ∧ d = ((1 # 10), (3 # 10))).
Proof.
  intros H.
  destruct (chart_layout_domains ticker s e indicators) as (Hk & Hy & Hy2 & Hy3).
  destruct (Hk _ _ H) as [-> | [-> | ->]].
  - rewrite Hy in H. injection H as <-. left. split; reflexivity.
  - rewrite Hy2 in H.
    destruct (bool_decide ("RSI" ∈ indicators)); [|discriminate].
    destruct (bool_decide ("MACD" ∈ indicators)) eqn:E; injection H as <-.
    + apply bool_decide_eq_true in E. right. left. repeat split. exact E.
    + apply bool_decide_eq_false in E. right. right. left.
      repeat split. exact E.
  - rewrite Hy3 in H.
    destruct (bool_decide ("MACD" ∈ indicators)) eqn:E; [|discriminate].
    injection H as <-. apply bool_decide_eq_true in E.
    right. right. right. repeat split. exact E.
Qed.

(** X15: the panels of the chart never overlap: the vertical extents set for
    any two different axes are disjoint, whatever is selected, and each lies
    within the figure. *)
Theorem chart_panels_disjoint (ticker : string) (s e : Timestamp)
    (indicators : list string) (k1 k2 : string) (d1 d2 : Q * Q) :
  k1 ≠ k2 →
  domain_of (chart_layout ticker s e indicators) k1 = Some d1 →
  domain_of (chart_layout ticker s e indicators) k2 = Some d2 →
  0 <= d1.1 ∧ d1.1 < d1.2 ∧ d1.2 <= 1 ∧ (d1.2 < d2.1 ∨ d2.2 < d1.1).
Proof.
  intros Hne H1 H2.
  apply chart_panel_cases in H1, H2.
  destruct H1 as [[-> ->] | [(-> & M1 & ->) | [(-> & M1 & ->) | (-> & M1 & ->)]]];
    destruct H2 as [[-> ->] | [(-> & M2 & ->) | [(-> & M2 & ->) | (-> & M2 & ->)]]];
    try congruence; try contradiction; simpl;
    (split; [discriminate|]); (split; [reflexivity|]);
    (split; [discriminate|]);
    first [left; reflexivity | right; reflexivity].
Qed.

(** What the traces of one indicator are drawn against: the main axis,
    or the second axis for RSI, or the third for MACD. *)
Lemma add_indicator_axes (fsqrt : Q → Q) (ind : string)
    (data d : DataFrame) (fig fig' : Figure) :
  add_indicator fsqrt ind (data, fig) = Ok (d, fig') →
  ∃ tr : Figure,
    fig' = fig ++ tr ∧
    Forall (fun t => trace_yaxis t = "y" ∨
                     (trace_yaxis t = "y2" ∧ ind = "RSI") ∨
                     (trace_yaxis t = "y3" ∧ ind = "MACD")) tr.
Proof.
  case_indicator ind; simpl; unfold calculate_rsi, calculate_macd, add_trace;
    repeat match goal with
           | |- context [getitem ?a ?b] => destruct (getitem a b); simpl
           | |- context [index_first ?a] => destruct (index_first a); simpl
           | |- context [index_last ?a] => destruct (index_last a); simpl
           end;
    try discriminate;
    intros [= <- <-]; rewrite <- ?app_assoc;
    try (eexists; split; [reflexivity|]; repeat constructor; simpl; auto; fail).
  exists []. rewrite app_nil_r. split; [reflexivity|constructor].
Qed.

(** X16: every trace of the rendered chart is drawn against an axis to which
    the layout of that chart gives a panel. *)
Theorem chart_traces_have_panels (fsqrt : Q → Q) (ticker : string)
    (s e : Timestamp) (data d : DataFrame) (indicators : list string)
    (fig : Figure) :
  render_chart fsqrt data indicators = Ok (d, fig) →
  Forall (fun t =>
            is_Some (domain_of (chart_layout ticker s e indicators)
                               (axis_entry (trace_yaxis t)))) fig.
Proof.
  unfold render_chart, candlestick_figure.
  destruct (getitem data "Open") as [o|]; simpl; [|discriminate].
  destruct (getitem data "High") as [h|]; simpl; [|discriminate].
  destruct (getitem data "Low") as [l|]; simpl; [|discriminate].
  destruct (getitem data "Close") as [c|]; simpl; [|discriminate].
  destruct (chart_layout_domains ticker s e indicators) as (_ & Hy & Hy2 & Hy3).
  set (L := chart_layout ticker s e indicators) in *.
  assert (∀ t ind, ind ∈ indicators →
            trace_yaxis t = "y" ∨ (trace_yaxis t = "y2" ∧ ind = "RSI") ∨
            (trace_yaxis t = "y3" ∧ ind = "MACD") →
            is_Some (domain_of L (axis_entry (trace_yaxis t)))) as Hcover.
  { intros t ind Hin [E|[[E ->]|[E ->]]]; rewrite E.
    - change (axis_entry "y") with "yaxis". rewrite Hy. eauto.
    - change (axis_entry "y2") with "yaxis2".
      rewrite Hy2, bool_decide_eq_true_2 by assumption. eauto.
    - change (axis_entry "y3") with "yaxis3".
      rewrite Hy3, bool_decide_eq_true_2 by assumption. eauto. }
  assert (Forall (fun t => is_Some (domain_of L (axis_entry (trace_yaxis t))))
                 [Candlestick (df_index data) o h l c]) as H0.
  { repeat constructor. change (is_Some (domain_of L "yaxis")).
    rewrite Hy. eauto. }
  assert (∀ inds : list string,
            (∀ i, i ∈ inds → i ∈ indicators) →
            ∀ (data0 : DataFrame) (fig0 : Figure),
              Forall (fun t => is_Some (domain_of L (axis_entry (trace_yaxis t))))
                     fig0 →
              add_indicators fsqrt inds (data0, fig0) = Ok (d, fig) →
              Forall (fun t => is_Some (domain_of L (axis_entry (trace_yaxis t))))
                     fig) as Hloop.
  { induction inds as [|ind rest IH]; intros Hsub data0 fig0 Hfig.
    - intros [= <- <-]. exact Hfig.
    - rewrite add_indicators_cons.
      destruct (add_indicator fsqrt ind (data0, fig0)) as [[d1 f1]|] eqn:E;
        simpl; [|discriminate].
      destruct (add_indicator_axes _ _ _ _ _ _ E) as (tr & -> & Htr).
      apply IH.
      + intros i Hi. apply Hsub. apply elem_of_cons. right. exact Hi.
      + apply Forall_app. split; [exact Hfig|].
        eapply Forall_impl; [exact Htr|]. intros t Ht.
        apply (Hcover t ind); [|exact Ht].
        apply Hsub. apply elem_of_cons. left. reflexivity. }
  apply Hloop; [auto|exact H0].
Qed.


(** ** The lines of the report *)



Lemma count_newlines_app (a b : string) :
  count_newlines (a +:+ b) = (count_newlines a + count_newlines b)%nat.
Proof.
  induction a as [|c a IH]; [reflexivity|].
  change (String c a +:+ b) with (String c (a +:+ b)).
  cbn [count_newlines]. rewrite IH. lia.
Qed.

Lemma pretty_N_char_no_newline (x : N) :
  Ascii.eqb (pretty_N_char x) "010"%char = false.
Proof. unfold pretty_N_char. repeat case_match; reflexivity. Qed.

Lemma pretty_N_go_newlines (x : N) (s : string) :
  count_newlines (pretty_N_go x s) = count_newlines s.
Proof.
  revert s. induction (N.lt_wf_0 x) as [x _ IH]; intros s.
  destruct (decide (x = 0)%N) as [->|Hx].
  - rewrite pretty_N_go_0. reflexivity.
  - rewrite pretty_N_go_step by lia. rewrite IH.
    + cbn [count_newlines]. rewrite pretty_N_char_no_newline. reflexivity.
    + apply N.div_lt; lia.
Qed.

Lemma pretty_N_newlines (x : N) : count_newlines (pretty x) = 0%nat.
Proof.
  unfold pretty, pretty_N. destruct (decide (x = 0)%N); [reflexivity|].
  apply pretty_N_go_newlines.
Qed.

Lemma zero_pad_newlines (w : nat) (x : N) : count_newlines (zero_pad w x) = 0%nat.
Proof.
  unfold zero_pad. rewrite count_newlines_app, pretty_N_newlines.
  generalize (w - String.length (pretty x))%nat. intros k.
  induction k as [|k IH]; [reflexivity|].
  destruct k as [|k]; [reflexivity|].
  change (replicate (S (S k)) "0") with ("0" :: replicate (S k) "0").
  cbn [String.concat]. cbn [replicate] in *.
  rewrite !count_newlines_app. simpl in *. lia.
Qed.

Lemma strftime_newlines (d : Timestamp) : count_newlines (strftime_Ymd d) = 0%nat.
Proof.
  unfold strftime_Ymd. rewrite !count_newlines_app, !zero_pad_newlines.
  reflexivity.
Qed.

Lemma format_2f_newlines (v : fval) : count_newlines (format_2f v) = 0%nat.
Proof.
  destruct v as [q| | |]; try reflexivity. unfold format_2f.
  rewrite !count_newlines_app, zero_pad_newlines, pretty_N_newlines.
  destruct (Qlt_le_dec q 0); reflexivity.
Qed.

Lemma rsi_line_newlines (item : Timestamp * fval) :
  count_newlines (rsi_line item) = 1%nat.
Proof.
  unfold rsi_line.
  rewrite !count_newlines_app, strftime_newlines, format_2f_newlines.
  reflexivity.
Qed.

Lemma macd_line_newlines (row : Timestamp * (fval * fval)) :
  count_newlines (macd_line row) = 1%nat.
Proof.
  unfold macd_line.
  rewrite !count_newlines_app, strftime_newlines, !format_2f_newlines.
  reflexivity.
Qed.

Lemma glue_newlines {A : Type} (line : A → string) (rows : list A) :
  (∀ r, count_newlines (line r) = 1%nat) →
  count_newlines (glue (line <$> rows)) = length rows.
Proof.
  intros H. induction rows as [|r rows IH]; [reflexivity|].
  csimpl. rewrite count_newlines_app, H, IH. reflexivity.
Qed.

(** X17: the report has one line per heading and one per row shown, and no
    other line break: dates and numbers never contain one. *)
Theorem tech_data_line_count (data : DataFrame) (indicators : list string)
    (close : Series) :
  getitem data "Close" = Ok close →
  length close = length (df_index data) →
  ∃ text : string,
    tech_data data indicators = Ok text ∧
    count_newlines text
    = ((if bool_decide ("RSI" ∈ indicators)
        then 1 + 10 `min` length (df_index data) else 0) +
       (if bool_decide ("MACD" ∈ indicators)
        then 2 + 10 `min` length (df_index data) else 0))%nat.
Proof.
  intros Hclose Hlen.
  destruct (calculate_rsi_returns data close Hclose) as [Ersi Lrsi].
  pose proof (calculate_macd_returns data close Hclose) as Emacd.
  destruct (macd_of_close_length close) as [Lm Ls].
  unfold tech_data. rewrite Ersi, Emacd.
  assert (count_newlines (rsi_data data (rsi_of_close 14 close))
          = (1 + 10 `min` length (df_index data))%nat) as Hr.
  { unfold rsi_data. rewrite fold_left_append, count_newlines_app.
    rewrite (glue_newlines _ _ rsi_line_newlines).
    unfold recent_rsi, items. rewrite length_zip, !tail_length.
    change (count_newlines (NL +:+ "Recent RSI values:")) with 1%nat. lia. }
  assert (count_newlines
            (macd_data data (macd_of_close close).1 (macd_of_close close).2)
          = (2 + 10 `min` length (df_index data))%nat) as Hm.
  { unfold macd_data. rewrite fold_left_append, count_newlines_app.
    rewrite (glue_newlines _ _ macd_line_newlines).
    unfold recent_data. rewrite !length_zip, !tail_length.
    change (count_newlines (NL +:+ NL +:+ "Recent MACD values:")) with 2%nat.
    lia. }
  set (r := rsi_data data (rsi_of_close 14 close)) in *.
  set (m := macd_data data (macd_of_close close).1 (macd_of_close close).2)
    in *.
  destruct (bool_decide ("RSI" ∈ indicators));
    destruct (bool_decide ("MACD" ∈ indicators)).
  - exists (("" +:+ r) +:+ m). split; [reflexivity|].
    rewrite !count_newlines_app, Hr, Hm. reflexivity.
  - exists ("" +:+ r). split; [reflexivity|].
    rewrite !count_newlines_app, Hr. simpl. lia.
  - exists ("" +:+ m). split; [reflexivity|].
    rewrite !count_newlines_app, Hm. reflexivity.
  - exists "". split; reflexivity.
Qed.


(** ** The handler *)

(** X18: the two-decimal text of a finite value shows the sign of the value,
    then the number of hundredths nearest to its magnitude, which is off by
    half a hundredth at most. *)
Theorem format_2f_nearest_hundredth (q : Q) :
  ∃ h : N,
    format_2f (Fin q)
    = (if Qlt_le_dec q 0 then "-" else "") +:+
      pretty (h `div` 100)%N +:+ "." +:+ zero_pad 2 (h `mod` 100)%N ∧
    Qabs (Qabs q - inject_Z (Z.of_N h) / 100) <= 1 # 200.
Proof.
  exists (Z.to_N (hundredths q)). split; [reflexivity|].
  rewrite Z2N.id by apply hundredths_nonneg. apply hundredths_near.
Qed.

(** X19: when every step succeeds and the name of the temporary file was
    free, the handler leaves the file system exactly as it found it and adds
    two lines to the page: the heading and the reply of the model. *)
Theorem analysis_success_restores_files (env : Env) (data : DataFrame)
    (indicators : list string) (fig : Figure) (w : World)
    (p png tech text : string) (response : Response) :
  env_tmpname env = Some p →
  files w !! p = None →
  env_write_image env fig = Some png →
  tech_data data indicators = Ok tech →
  env_chat env "llama3.2-vision"
    [mkMessage "user" (prompt tech) [env_b64encode env png]] = Some response →
  response_content response = Ok text →
  run_ai_analysis env data indicators fig w
  = (Ok (), mkWorld (files w) (page w ++ ["**AI Analysis Results:**"; text])).
Proof.
  intros Hp Hfree Himg Htech Hchat Htext.
  unfold run_ai_analysis, step_bind, named_temporary_file, write_image,
    read_file, lift, chat, st_write, os_remove.
  rewrite Hp. simpl. rewrite Himg. simpl. rewrite lookup_insert_eq. simpl.
  rewrite Htech. simpl. rewrite Hchat. simpl. rewrite Htext. simpl.
  rewrite lookup_insert_eq. f_equal. f_equal.
  - rewrite insert_insert_eq, delete_insert_eq. apply delete_id. exact Hfree.
  - rewrite <- app_assoc. reflexivity.
Qed.

(** X20: when the reply of the model lacks the expected entries, the handler
    raises after the heading is on the page, and the temporary file, which
    holds the exported image, stays behind. *)
Theorem analysis_malformed_reply (env : Env) (data : DataFrame)
    (indicators : list string) (fig : Figure) (w : World)
    (p png tech : string) (response : Response) (e : exn) :
  env_tmpname env = Some p →
  env_write_image env fig = Some png →
  tech_data data indicators = Ok tech →
  env_chat env "llama3.2-vision"
    [mkMessage "user" (prompt tech) [env_b64encode env png]] = Some response →
  response_content response = Raise e →
  run_ai_analysis env data indicators fig w
  = (Raise e, mkWorld (<[p := png]> (files w))
                      (page w ++ ["**AI Analysis Results:**"])).
Proof.
  intros Hp Himg Htech Hchat Htext.
  unfold run_ai_analysis, step_bind, named_temporary_file, write_image,
    read_file, lift, chat, st_write, os_remove.
  rewrite Hp. simpl. rewrite Himg. simpl. rewrite lookup_insert_eq. simpl.
  rewrite Htech. simpl. rewrite Hchat. simpl. rewrite Htext. simpl.
  rewrite insert_insert_eq. reflexivity.
Qed.

(** ** The script *)

Lemma same_ohlcv_sym (d1 d2 : DataFrame) : same_ohlcv d1 d2 → same_ohlcv d2 d1.
Proof.
  intros [H1 H2]. split; [congruence|]. intros k Hk. symmetry. apply H2, Hk.
Qed.

(** The loop on the frame of the session leaves its index and all its
    columns but VWAP as they were, also when it raises, and leaves the
    whole frame as it was when VWAP is not selected. *)
Lemma indicator_loop_stores (fsqrt : Q → Q) (indicators : list string)
    (data : DataFrame) (fig : Figure) :
  same_ohlcv (indicator_loop fsqrt indicators data fig).2 data ∧
  ("VWAP" ∉ indicators → (indicator_loop fsqrt indicators data fig).2 = data).
Proof.
  revert data fig. induction indicators as [|ind rest IH]; intros data fig.
  - simpl. split; [apply same_ohlcv_refl|reflexivity].
  - cbn [indicator_loop].
    destruct (add_indicator fsqrt ind (data, fig)) as [[d1 f1]|e] eqn:E.
    + destruct (IH d1 f1) as [Hs Hn].
      destruct (add_indicator_stores _ _ _ _ _ _ E) as [Hkeep Hwrite].
      split.
      * eapply same_ohlcv_trans; [exact Hs|].
        destruct (decide (ind = "VWAP")) as [Ev|Ev].
        -- destruct (Hwrite Ev) as [v ->]. apply same_ohlcv_setitem.
        -- rewrite (Hkeep Ev). apply same_ohlcv_refl.
      * intros Hnot. apply not_elem_of_cons in Hnot as [H1 H2].
        rewrite (Hn H2). apply Hkeep. congruence.
    + simpl. split; [apply same_ohlcv_refl|reflexivity].
Qed.

(** The loop of the session and the loop of the chart are one loop. *)
Lemma indicator_loop_add_indicators (fsqrt : Q → Q) (indicators : list string)
    (data d : DataFrame) (fig fig' : Figure) :
  add_indicators fsqrt indicators (data, fig) = Ok (d, fig') ↔
  indicator_loop fsqrt indicators data fig = (Ok fig', d).
Proof.
  revert data fig. induction indicators as [|ind rest IH]; intros data fig.
  - simpl. split; intros [= <- <-]; reflexivity.
  - rewrite add_indicators_cons. cbn [indicator_loop].
    destruct (add_indicator fsqrt ind (data, fig)) as [[d1 f1]|e]; simpl.
    + apply IH.
    + split; discriminate.
Qed.

Ltac unfold_script :=
  unfold run_script, render_dashboard, fetch_data, loop_in_session,
    plotly_chart, st_text, in_world, st_write, run_bind, run_ret, run_lift.

(** X21: without fetched data a run shows the title and the sidebar heading
    and nothing else: no chart, no analysis, no file, whatever the widgets
    return. *)
Theorem run_without_data (fsqrt : Q → Q) (svc : Services) (inp : Inputs)
    (app : App) :
  in_fetch inp = false →
  session app !! "stock_data" = None →
  run_script fsqrt svc inp app
  = (Ok (),
     mkApp (session app) (charts app)
           (mkWorld (files (world app))
                    (page (world app) ++
                     ["The ChatGippity Stock Analysis Dashboard";
                      "Configuration"]))).
Proof.
  intros Hf Hs. unfold_script. rewrite Hf. simpl. rewrite Hs.
  rewrite <- app_assoc. reflexivity.
Qed.

(** X22: when the download raises, the run stops there: the session keeps
    what it held, nothing is charted and no success message is shown. *)
Theorem run_fetch_failure (fsqrt : Q → Q) (svc : Services) (inp : Inputs)
    (app : App) :
  in_fetch inp = true →
  svc_download svc (in_ticker inp) (in_start inp) (in_end inp) = None →
  run_script fsqrt svc inp app
  = (Raise OSError,
     mkApp (session app) (charts app)
           (mkWorld (files (world app))
                    (page (world app) ++
                     ["The ChatGippity Stock Analysis Dashboard";
                      "Configuration"]))).
Proof.
  intros Hf Hd. unfold_script. rewrite Hf. simpl. rewrite Hd.
  rewrite <- app_assoc. reflexivity.
Qed.

(** X23: a run on fetched data, when the chart renders: the session holds
    the frame as the indicators left it, the page shows the chart with its
    layout between the headings, and, if asked for, the analysis works on
    that very frame and that very figure. *)
Theorem run_with_data (fsqrt : Q → Q) (svc : Services) (inp : Inputs)
    (app : App) (data d : DataFrame) (fig : Figure) :
  in_fetch inp = false →
  session app !! "stock_data" = Some data →
  render_chart fsqrt data (in_indicators inp) = Ok (d, fig) →
  run_script fsqrt svc inp app
  = let shown :=
      mkApp (<["stock_data" := d]> (session app))
            (charts app ++
             [(fig, chart_layout (in_ticker inp) (in_start inp) (in_end inp)
                                 (in_indicators inp))])
            (mkWorld (files (world app))
                     (page (world app) ++
                      ["The ChatGippity Stock Analysis Dashboard";
                       "Configuration"; "Technical Indicators";
                       "AI-Powered Analysis"])) in
    if in_analyze inp then
      in_world (run_ai_analysis (svc_env svc) d (in_indicators inp) fig) shown
    else (Ok (), shown).
Proof.
  intros Hf Hs Hchart. unfold render_chart in Hchart.
  destruct (candlestick_figure data) as [fig0|] eqn:Ec; simpl in Hchart;
    [|discriminate].
  apply indicator_loop_add_indicators in Hchart.
  unfold_script. rewrite Hf. simpl. rewrite Hs, Ec. simpl.
  rewrite Hchart. simpl. rewrite <- !app_assoc. simpl.
  destruct (in_analyze inp); reflexivity.
Qed.

(** What the guarded body leaves in the session and in the files. *)
Lemma render_dashboard_session (fsqrt : Q → Q) (svc : Services) (inp : Inputs)
    (data : DataFrame) (app : App) :
  ∃ data' : DataFrame,
    same_ohlcv data' data ∧
    ("VWAP" ∉ in_indicators inp → data' = data) ∧
    (session (render_dashboard fsqrt svc inp data app).2 = session app ∨
     session (render_dashboard fsqrt svc inp data app).2
     = <["stock_data" := data']> (session app)) ∧
    (in_analyze inp = false →
     files (world (render_dashboard fsqrt svc inp data app).2)
     = files (world app)).
Proof.
  unfold render_dashboard, loop_in_session, plotly_chart, st_text, in_world,
    st_write, run_bind, run_ret, run_lift.
  destruct (candlestick_figure data) as [fig0|e]; simpl.
  - destruct (indicator_loop_stores fsqrt (in_indicators inp) data fig0)
      as [Hs Hn].
    destruct (indicator_loop fsqrt (in_indicators inp) data fig0)
      as [[f|e] d1]; simpl in *.
    + exists d1. split; [exact Hs|]. split; [exact Hn|].
      destruct (in_analyze inp); simpl.
      * destruct (run_ai_analysis _ _ _ _ _) as [r w']. simpl.
        split; [right; reflexivity|discriminate].
      * split; [right; reflexivity|reflexivity].
    + exists d1. split; [exact Hs|]. split; [exact Hn|].
      split; [right; reflexivity|reflexivity].
  - exists data. split; [apply same_ohlcv_refl|]. split; [reflexivity|].
    split; [left; reflexivity|reflexivity].
Qed.

(** X24: a run without a fetch keeps the prices in the session: the stored
    frame has the index and every column but VWAP it had before, and is the
    same frame if VWAP is not selected; other session keys are not touched.
    This holds whether the run ends normally or with an error. *)
Theorem run_keeps_session_prices (fsqrt : Q → Q) (svc : Services)
    (inp : Inputs) (app : App) (data : DataFrame) :
  in_fetch inp = false →
  session app !! "stock_data" = Some data →
  ∃ data' : DataFrame,
    session (run_script fsqrt svc inp app).2 !! "stock_data" = Some data' ∧
    same_ohlcv data' data ∧
    ("VWAP" ∉ in_indicators inp → data' = data) ∧
    (∀ k, k ≠ "stock_data" →
          session (run_script fsqrt svc inp app).2 !! k = session app !! k).
Proof.
  intros Hf Hs.
  unfold run_script, st_text, in_world, st_write, run_bind, run_ret.
  rewrite Hf. cbn [fst snd world session charts]. rewrite Hs.
  match goal with
  | |- context [render_dashboard fsqrt svc inp data ?a] =>
      destruct (render_dashboard_session fsqrt svc inp data a)
        as (d & Hsame & Hneq & [Hses|Hses] & _)
  end; rewrite Hses; cbn [session].
  - exists data. rewrite Hs.
    split; [reflexivity|]. split; [apply same_ohlcv_refl|].
    split; [reflexivity|]. reflexivity.
  - exists d. rewrite lookup_insert_eq.
    split; [reflexivity|]. split; [exact Hsame|]. split; [exact Hneq|].
    intros k Hk. rewrite lookup_insert_ne by congruence. reflexivity.
Qed.

(** X25: a successful fetch replaces the stored frame: after the run the
    session holds the downloaded frame, up to the VWAP column the run may
    have written, whatever frame was stored before. *)
Theorem run_fetch_replaces_frame (fsqrt : Q → Q) (svc : Services)
    (inp : Inputs) (app : App) (frame : DataFrame) :
  in_fetch inp = true →
  svc_download svc (in_ticker inp) (in_start inp) (in_end inp) = Some frame →
  ∃ data' : DataFrame,
    session (run_script fsqrt svc inp app).2 !! "stock_data" = Some data' ∧
    same_ohlcv data' frame ∧
    ("VWAP" ∉ in_indicators inp → data' = frame).
Proof.
  intros Hf Hd.
  unfold run_script, fetch_data, st_text, in_world, st_write, run_bind, run_ret.
  rewrite Hf. cbn [fst snd world session charts]. rewrite Hd.
  cbn [fst snd world session charts]. rewrite lookup_insert_eq.
  match goal with
  | |- context [render_dashboard fsqrt svc inp frame ?a] =>
      destruct (render_dashboard_session fsqrt svc inp frame a)
        as (d & Hsame & Hneq & [Hses|Hses] & _)
  end; rewrite Hses; cbn [session].
  - exists frame. rewrite lookup_insert_eq.
    split; [reflexivity|]. split; [apply same_ohlcv_refl|]. reflexivity.
  - exists d. rewrite lookup_insert_eq.
    split; [reflexivity|]. split; [exact Hsame|exact Hneq].
Qed.

(** X26: unless the analysis button is pressed, a run leaves the files
    alone, however it ends. *)
Theorem run_without_analysis_keeps_files (fsqrt : Q → Q) (svc : Services)
    (inp : Inputs) (app : App) :
  in_analyze inp = false →
  files (world (run_script fsqrt svc inp app).2) = files (world app).
Proof.
  intros Ha.
  unfold run_script, fetch_data, st_text, in_world, st_write, run_bind, run_ret.
  destruct (in_fetch inp); cbn [fst snd world session charts].
  - destruct (svc_download svc _ _ _) as [frame|];
      cbn [fst snd world session charts files]; [|reflexivity].
    rewrite lookup_insert_eq.
    match goal with
    | |- context [render_dashboard fsqrt svc inp frame ?a] =>
        destruct (render_dashboard_session fsqrt svc inp frame a)
          as (d & _ & _ & _ & Hfiles)
    end.
    rewrite (Hfiles Ha). reflexivity.
  - destruct (session app !! "stock_data") as [data|] eqn:Hs;
      cbn [fst snd world session charts files]; [|reflexivity].
    match goal with
    | |- context [render_dashboard fsqrt svc inp data ?a] =>
        destruct (render_dashboard_session fsqrt svc inp data a)
          as (d & _ & _ & _ & Hfiles)
    end.
    rewrite (Hfiles Ha). reflexivity.
Qed.


(** * The properties on sample inputs *)

Lemma sqrt_3dp_zero (q : Q) : q == 0 → sqrt_3dp q == 0.
Proof. intros H. unfold sqrt_3dp. rewrite H. reflexivity. Qed.

(** On the fifteen rising prices the rolling loss of row 13 is zero and
    the RSI of that row is 100. *)
Lemma rsi_is_100_when_loss_is_zero_witness :
  getitem ramp_frame "Close" = Ok (price_series ramp_close) ∧
  rsi_loss 14 (price_series ramp_close) !! 13%nat = Some (Fin (0 # 14)) ∧
  rsi_of_close 14 (price_series ramp_close) !! 13%nat = Some (Fin 100) ∧
  feq (Fin 100) (Fin 100).
Proof.
  split; [reflexivity|].
  split; [vm_compute; reflexivity|].
  split; [vm_compute; reflexivity|].
  apply (rsi_is_100_when_loss_is_zero ramp_frame (price_series ramp_close)
           (rsi_of_close 14 (price_series ramp_close)) 13 (Fin 100) (0 # 14)).
  - reflexivity.
  - reflexivity.
  - vm_compute; reflexivity.
  - discriminate.
  - vm_compute; reflexivity.
  - reflexivity.
Defined.

(** With zero gain as well, as on the constant column, zero loss leaves
    the RSI undefined. *)
Example rsi_constant_row_13 :
  rsi_loss 14 (price_series constant_close) !! 13%nat = Some (Fin (0 # 14)) ∧
  rsi_gain 14 (price_series constant_close) !! 13%nat = Some (Fin (0 # 14)) ∧
  rsi_of_close 14 (price_series constant_close) !! 13%nat = Some NaN.
Proof. repeat split; vm_compute; reflexivity. Qed.



(** The mean of the prices 1 to 20 is 10.5, of 6 to 25 it is 15.5. *)
Example sma20_month_rows :
  rolling_mean 20 (price_series month_close) !! 18%nat = Some NaN ∧
  rolling_mean 20 (price_series month_close) !! 19%nat = Some (Fin (210 # 20)) ∧
  rolling_mean 20 (price_series month_close) !! 24%nat = Some (Fin (310 # 20)).
Proof. repeat split; vm_compute; reflexivity. Qed.

Lemma bollinger_width_is_4_std_witness :
  getitem month_frame "Close" = Ok (price_series month_close) ∧
  ∃ bb_upper bb_lower : Series,
    add_indicator sqrt_3dp "20-Day Bollinger Bands" (month_frame, [])
    = Ok (month_frame,
          [] ++ [Scatter (df_index month_frame) bb_upper "BB Upper" "y" None;
                 Scatter (df_index month_frame) bb_lower "BB Lower" "y" None]) ∧
    length bb_upper = length month_close ∧
    length bb_lower = length month_close ∧
    ∀ i : nat, (i < length month_close)%nat →
      ((i < 19)%nat → bb_upper !! i = Some NaN ∧ bb_lower !! i = Some NaN) ∧
      ((19 ≤ i)%nat →
         ∃ u l mean var : Q,
           bb_upper !! i = Some (Fin u) ∧ bb_lower !! i = Some (Fin l) ∧
           mean == Qsum (price_at month_close <$> seq (i - 19) 20) / 20 ∧
           var == Qsum ((fun j => (price_at month_close j - mean)
                                  * (price_at month_close j - mean))
                          <$> seq (i - 19) 20) / 19 ∧
           u - l == 4 * sqrt_3dp var).
Proof.
  split; [reflexivity|].
  apply (bollinger_width_is_4_std sqrt_3dp month_frame [] month_close).
  reflexivity.
Defined.

(** At row 19 of the month the twenty prices 1 to 20 have the mean 10.5
    and the sample variance 35; the bands are 4 * 5.916 apart. *)
Example bollinger_month_width_row_19 :
  Qsum (price_at month_close <$> seq 0 20) / 20 == 21 # 2 ∧
  Qsum ((fun j => (price_at month_close j - (21 # 2))
                  * (price_at month_close j - (21 # 2))) <$> seq 0 20) / 19
  == 35 ∧
  sqrt_3dp 35 == 5916 # 1000 ∧
  ∃ (d : DataFrame) (bb_upper bb_lower : Series) (u l : Q),
    add_indicator sqrt_3dp "20-Day Bollinger Bands" (month_frame, [])
    = Ok (d, [Scatter (df_index month_frame) bb_upper "BB Upper" "y" None;
              Scatter (df_index month_frame) bb_lower "BB Lower" "y" None]) ∧
    bb_upper !! 19%nat = Some (Fin u) ∧ bb_lower !! 19%nat = Some (Fin l) ∧
    u - l == 23664 # 1000.
Proof.
  split; [vm_compute; reflexivity|]. split; [vm_compute; reflexivity|].
  split; [vm_compute; reflexivity|].
  do 5 eexists. split; [vm_compute; reflexivity|].
  split; [reflexivity|]. split; [reflexivity|]. vm_compute. reflexivity.
Qed.

(** The sample standard deviation of twenty successive integers is the
    square root of 35, 5.916 to three decimals. *)
Example bollinger_month_row_19 :
  rolling_std sqrt_3dp 20 (price_series month_close) !! 19%nat
  = Some (Fin (5916 # 1000)).
Proof. vm_compute. reflexivity. Qed.

Lemma price_range_check (close : list Q) :
  forallb (fun c => Qle_bool (2 ^ (-1021)) c && Qle_bool c (2 ^ 969)) close
  = true →
  Forall (fun c => 2 ^ (-1021) <= c ∧ c <= 2 ^ 969) close.
Proof.
  intros H. apply Forall_forall. intros c Hc.
  rewrite forallb_forall in H. specialize (H c).
  rewrite andb_true_iff, !Qle_bool_iff in H. apply H.
  apply list_elem_of_In. exact Hc.
Qed.

Lemma vwap_is_ratio_up_to_rounding_witness :
  ∃ vwap : Series,
    add_vwap64 (month_frame, [])
    = Ok (setitem month_frame "VWAP" vwap,
          [] ++ [Scatter (df_index month_frame) vwap "VWAP" "y" None]) ∧
    length vwap = length month_close ∧
    ∀ t : nat, (t < length month_close)%nat →
      (¬ volume_upto month_volume t == 0 →
         ∃ r q : Q,
           vwap !! t = Some (Fin r) ∧
           q == turnover_upto month_close month_volume t
                / volume_upto month_volume t ∧
           q * (1 - rounding_slack t) <= r ∧
           r <= q * (1 + rounding_slack t) ∧
           min_price (take (S t) month_close) <= q ∧
           q <= max_price (take (S t) month_close) ∧
           min_price (take (S t) month_close) * (1 - rounding_slack t) <= r ∧
           r <= max_price (take (S t) month_close) * (1 + rounding_slack t)) ∧
      (volume_upto month_volume t == 0 → vwap !! t = Some NaN).
Proof.
  apply (vwap_is_ratio_up_to_rounding month_frame [] month_close
           month_volume).
  - reflexivity.
  - reflexivity.
  - reflexivity.
  - apply price_range_check. vm_compute. reflexivity.
  - vm_compute. reflexivity.
  - vm_compute. discriminate.
Defined.

(** The rounding at 284.65: the nearest float64 is [close_284_65]. *)
Example round64_284_65 : feq (round64 (28465 # 100)) (Fin close_284_65).
Proof. vm_compute. reflexivity. Qed.

(** On the month the float64 VWAP of the third day is exactly the price of
    that day, 3, and of the fourth day 3.5; on the two-day frame the first
    day is exact as well. *)
Example vwap64_month_rows :
  ∃ vwap d, add_vwap64 (month_frame, [])
            = Ok (d, [Scatter (df_index month_frame) vwap "VWAP" "y" None]) ∧
    vwap !! 0%nat = Some NaN ∧ vwap !! 1%nat = Some NaN ∧
    series_equiv (take 2 (drop 2 vwap)) [Fin 3; Fin (7 # 2)].
Proof.
  do 2 eexists. split; [vm_compute; reflexivity|].
  split; [reflexivity|]. split; [reflexivity|].
  repeat constructor.
Qed.

(** No volume on the first two days: the VWAP is undefined there; on the
    third day it is the price of that day, 3; on the fourth it is 3.5. *)
Example vwap_month_rows :
  ∃ vwap d, add_indicator sqrt_3dp "VWAP" (month_frame, [])
            = Ok (d, [Scatter (df_index month_frame) vwap "VWAP" "y" None]) ∧
    vwap !! 0%nat = Some NaN ∧ vwap !! 1%nat = Some NaN ∧
    series_equiv (take 2 (drop 2 vwap)) [Fin 3; Fin (7 # 2)].
Proof.
  do 2 eexists. split; [vm_compute; reflexivity|].
  split; [reflexivity|]. split; [reflexivity|].
  repeat constructor.
Qed.

Lemma indicators_pure_except_vwap_witness :
  getitem ramp_frame "Close" = Ok (price_series ramp_close) ∧
  getitem ramp_frame "Volume" = Ok (count_series (replicate 15 1%N)) ∧
  df_index ramp_frame ≠ [] ∧
  ∃ (data' : DataFrame) (drawn : list Figure),
    add_indicators sqrt_3dp ["RSI"; "VWAP"; "20-Day SMA"; "MACD"]
      (ramp_frame, [])
    = Ok (data', [] ++ concat drawn) ∧
    Forall2 (fun ind tr =>
               ∃ d, add_indicator sqrt_3dp ind (ramp_frame, []) = Ok (d, tr))
            ["RSI"; "VWAP"; "20-Day SMA"; "MACD"] drawn ∧
    same_ohlcv data' ramp_frame ∧
    ("VWAP" ∉ ["RSI"; "VWAP"; "20-Day SMA"; "MACD"] → data' = ramp_frame) ∧
    ("VWAP" ∈ ["RSI"; "VWAP"; "20-Day SMA"; "MACD"] →
       ∃ vwap : Series, data' = setitem ramp_frame "VWAP" vwap).
Proof.
  split; [reflexivity|]. split; [reflexivity|]. split; [discriminate|].
  apply (indicators_pure_except_vwap sqrt_3dp
           ["RSI"; "VWAP"; "20-Day SMA"; "MACD"] ramp_frame []
           (price_series ramp_close) (count_series (replicate 15 1%N)));
    [reflexivity|reflexivity|discriminate].
Defined.

(** The same traces come out whether VWAP runs before or after the SMA,
    and the stored frame is the same. *)
Example indicator_order_irrelevant :
  ∃ d f1 f2 f3 f4,
    add_indicators sqrt_3dp ["VWAP"; "20-Day SMA"] (ramp_frame, [])
    = Ok (d, [f1; f2]) ∧
    add_indicators sqrt_3dp ["20-Day SMA"; "VWAP"] (ramp_frame, [])
    = Ok (d, [f3; f4]) ∧
    f1 = f4 ∧ f2 = f3.
Proof.
  do 5 eexists. split; [vm_compute; reflexivity|].
  split; [vm_compute; reflexivity|]. split; reflexivity.
Qed.

(** The model client raises: the temporary file stays behind. *)
Lemma temp_file_removed_only_on_success_witness :
  env_tmpname env_model_down = Some "/tmp/tmpq1w2e3.png" ∧
  match run_ai_analysis env_model_down ramp_frame ["RSI"] [] empty_world with
  | (Ok _, w') =>
      files w' !! "/tmp/tmpq1w2e3.png" = None ∧
      all_steps_succeed env_model_down ramp_frame ["RSI"] []
  | (Raise _, w') =>
      is_Some (files w' !! "/tmp/tmpq1w2e3.png") ∧
      ¬ all_steps_succeed env_model_down ramp_frame ["RSI"] []
  end ∧
  ∀ q : string, q ≠ "/tmp/tmpq1w2e3.png" →
    files (run_ai_analysis env_model_down ramp_frame ["RSI"] []
             empty_world).2 !! q
    = files empty_world !! q.
Proof.
  split; [reflexivity|].
  apply (temp_file_removed_only_on_success env_model_down ramp_frame
           ["RSI"] [] empty_world "/tmp/tmpq1w2e3.png").
  reflexivity.
Defined.

Example analysis_model_failure_leaves_file :
  run_ai_analysis env_model_down ramp_frame ["RSI"] [] empty_world
  = (Raise ResponseError, mkWorld {["/tmp/tmpq1w2e3.png" := "PNG"]} []).
Proof. vm_compute. reflexivity. Qed.

(** The model client answers: the page shows the answer and the temporary
    file is gone. *)
Example analysis_success_removes_file :
  run_ai_analysis env_model_up ramp_frame ["RSI"] [] empty_world
  = (Ok (), mkWorld ∅ ["**AI Analysis Results:**"; "HOLD"]).
Proof. vm_compute. reflexivity. Qed.

(** The image export raises: the file created just before stays behind,
    empty. *)
Example analysis_export_failure_leaves_file :
  run_ai_analysis (mkEnv (Some "/tmp/tmpq1w2e3.png") (fun _ => None)
                         (fun b => b) (fun _ _ => None))
                  ramp_frame ["RSI"] [] empty_world
  = (Raise RenderError, mkWorld {["/tmp/tmpq1w2e3.png" := ""]} []).
Proof. vm_compute. reflexivity. Qed.

Lemma ema_adjusted_macd_unadjusted_witness :
  getitem ramp_frame "Close" = Ok (price_series ramp_close) ∧
  ∃ (ema macd signal : Series) (m : list Q),
    add_indicator sqrt_3dp "20-Day EMA" (ramp_frame, [])
    = Ok (ramp_frame,
          [] ++ [Scatter (df_index ramp_frame) ema "EMA (20)" "y" None]) ∧
    calculate_macd ramp_frame = Ok (macd, signal) ∧
    ema = ewm_mean 20 true (price_series ramp_close) ∧
    (∀ t : nat, (t < length ramp_close)%nat →
       ∃ y : Q, ema !! t = Some (Fin y) ∧
                y == ema_normalized (ewm_alpha 20) ramp_close t) ∧
    macd = series_sub (ewm_mean 12 false (price_series ramp_close))
                      (ewm_mean 26 false (price_series ramp_close)) ∧
    signal = ewm_mean 9 false macd ∧
    macd = price_series m ∧
    Forall2 Qeq m (zip_with Qminus (ema_recursive (ewm_alpha 12) ramp_close)
                                   (ema_recursive (ewm_alpha 26) ramp_close)) ∧
    series_equiv signal (price_series (ema_recursive (ewm_alpha 9) m)) ∧
    ∃ (c : list Q) (i : nat) (a u : fval),
      (2 ≤ length c)%nat ∧
      ewm_mean 20 true (price_series c) !! i = Some a ∧
      ewm_mean 20 false (price_series c) !! i = Some u ∧
      ¬ feq a u.
Proof.
  split; [reflexivity|].
  apply (ema_adjusted_macd_unadjusted sqrt_3dp ramp_frame [] ramp_close).
  reflexivity.
Defined.

(** The smoothing factors of the four spans. *)
Example ewm_alpha_of_spans :
  ewm_alpha 20 == 2 # 21 ∧ ewm_alpha 12 == 2 # 13 ∧
  ewm_alpha 26 == 2 # 27 ∧ ewm_alpha 9 == 1 # 5.
Proof. repeat split. Qed.

(** On the closes 1 and 2 the adjusted mean of span 20 is 61/40 at the
    second row, the unadjusted one 23/21. *)
Example ewm_adjusted_vs_unadjusted :
  series_equiv (ewm_mean 20 true (price_series [1; 2])) [Fin 1; Fin (61 # 40)] ∧
  series_equiv (ewm_mean 20 false (price_series [1; 2])) [Fin 1; Fin (23 # 21)].
Proof. split; eval_series; rows_equiv; reflexivity. Qed.

Lemma report_blocks_cover_last_rows_witness :
  ∃ (rsi macd signal : Series) (rsi_lines macd_lines : list string),
    calculate_rsi swing_frame 14 = Ok rsi ∧
    calculate_macd swing_frame = Ok (macd, signal) ∧
    tech_data swing_frame ["MACD"; "RSI"]
    = Ok ((NL +:+ "Recent RSI values:") +:+ glue rsi_lines +:+
          (NL +:+ NL +:+ "Recent MACD values:") +:+ glue macd_lines) ∧
    length rsi_lines = (10 `min` length (df_index swing_frame))%nat ∧
    length macd_lines = (10 `min` length (df_index swing_frame))%nat ∧
    ∀ k : nat, (k < 10 `min` length (df_index swing_frame))%nat →
      ∃ (date : Timestamp) (r m s : fval) (tr tm ts : string),
        df_index swing_frame !! (length (df_index swing_frame) - 10 + k)%nat
        = Some date ∧
        rsi !! (length (df_index swing_frame) - 10 + k)%nat = Some r ∧
        macd !! (length (df_index swing_frame) - 10 + k)%nat = Some m ∧
        signal !! (length (df_index swing_frame) - 10 + k)%nat = Some s ∧
        value_text r tr ∧ value_text m tm ∧ value_text s ts ∧
        rsi_lines !! k = Some (NL +:+ strftime_Ymd date +:+ ": " +:+ tr) ∧
        macd_lines !! k
        = Some (NL +:+ strftime_Ymd date +:+ ": MACD=" +:+ tm +:+
                ", Signal=" +:+ ts).
Proof.
  apply (report_blocks_cover_last_rows swing_frame ["MACD"; "RSI"]
           (price_series swing_close));
    [reflexivity|reflexivity|set_solver|set_solver].
Defined.

(** A frame of three rows gives blocks of three lines. *)
Example report_of_three_rows :
  tech_data (frame_of [1; 2; 3] [1; 1; 1]%N) ["RSI"; "MACD"] = Ok "
Recent RSI values:
2024-01-01: nan
2024-01-02: nan
2024-01-03: nan

Recent MACD values:
2024-01-01: MACD=0.00, Signal=0.00
2024-01-02: MACD=0.08, Signal=0.02
2024-01-03: MACD=0.22, Signal=0.06".
Proof. vm_compute. reflexivity. Qed.

(** No indicator selected: the chart holds the candlesticks only and the
    text is empty. *)
Example chart_without_indicator :
  render_chart sqrt_3dp ramp_frame []
  = Ok (ramp_frame,
        [Candlestick (df_index ramp_frame) (price_series ramp_close)
           (price_series ramp_close) (price_series ramp_close)
           (price_series ramp_close)]).
Proof. reflexivity. Qed.

Example report_without_indicator (data : DataFrame) :
  tech_data data [] = Ok "".
Proof. reflexivity. Qed.

Lemma constant_series_indicators_witness :
  (∀ q : Q, q == 0 → sqrt_3dp q == 0) ∧
  getitem constant_frame "Close" = Ok (price_series constant_close) ∧
  ∃ sma ema bb_upper bb_lower rsi : Series,
    add_indicator sqrt_3dp "20-Day SMA" (constant_frame, [])
    = Ok (constant_frame,
          [] ++ [Scatter (df_index constant_frame) sma "SMA (20)" "y" None]) ∧
    add_indicator sqrt_3dp "20-Day EMA" (constant_frame, [])
    = Ok (constant_frame,
          [] ++ [Scatter (df_index constant_frame) ema "EMA (20)" "y" None]) ∧
    add_indicator sqrt_3dp "20-Day Bollinger Bands" (constant_frame, [])
    = Ok (constant_frame,
          [] ++ [Scatter (df_index constant_frame) bb_upper "BB Upper" "y" None;
                 Scatter (df_index constant_frame) bb_lower "BB Lower" "y" None]) ∧
    calculate_rsi constant_frame 14 = Ok rsi ∧
    series_equiv sma (replicate 19 NaN ++ replicate 11 (Fin 100)) ∧
    series_equiv ema (replicate 30 (Fin 100)) ∧
    series_equiv bb_upper sma ∧
    series_equiv bb_lower sma ∧
    rsi = replicate 30 NaN ∧
    series_equiv (rsi_gain 14 (price_series constant_close))
                 (replicate 13 NaN ++ replicate 17 (Fin 0)) ∧
    series_equiv (rsi_loss 14 (price_series constant_close))
                 (replicate 13 NaN ++ replicate 17 (Fin 0)).
Proof.
  split; [exact sqrt_3dp_zero|]. split; [reflexivity|].
  apply (constant_series_indicators sqrt_3dp constant_frame []).
  - exact sqrt_3dp_zero.
  - reflexivity.
Defined.

(** * The further properties on sample inputs *)


Lemma frame_of_aligned (close : list Q) (volume : list N) :
  length volume = length close → frame_aligned (frame_of close volume).
Proof.
  intros Hlen k s. unfold frame_of. cbn [df_columns df_index].
  unfold january. rewrite length_fmap, length_seq.
  intros H.
  repeat (apply lookup_insert_Some in H as [[_ <-]|[_ H]];
          [unfold price_series, count_series; rewrite ?length_fmap; congruence|]).
  rewrite lookup_empty in H. discriminate.
Qed.



(** On the eighteen-day swing the first thirteen rows have no RSI. *)
Lemma rsi_undefined_before_row_13_witness :
  ∃ rsi : Series,
    calculate_rsi swing_frame 14 = Ok rsi ∧
    length rsi = length (price_series swing_close) ∧
    ∀ i : nat, (i < 13)%nat → (i < length (price_series swing_close))%nat →
               rsi !! i = Some NaN.
Proof.
  apply (rsi_undefined_before_row_13 swing_frame (price_series swing_close)).
  reflexivity.
Defined.


Example rsi_defined_on_swing_row_15 :
  rsi_of_close 14 (price_series swing_close) !! 15%nat ≠ Some NaN ∧
  ¬ price_at swing_close 15 == price_at swing_close 14.
Proof. split; [vm_compute; discriminate|vm_compute; discriminate]. Qed.

(** Row 17 of the swing: a rolling gain of 13/14 and a rolling loss of
    7/14 give an RSI of 65. *)
Lemma rsi_is_gain_share_witness :
  rsi_gain 14 (price_series swing_close) !! 17%nat = Some (Fin (13 # 14)) ∧
  rsi_loss 14 (price_series swing_close) !! 17%nat = Some (Fin (7 # 14)) ∧
  ∃ v : Q,
    rsi_of_close 14 (price_series swing_close) !! 17%nat = Some (Fin v) ∧
    v == 100 * (13 # 14) / ((13 # 14) + (7 # 14)).
Proof.
  split; [vm_compute; reflexivity|]. split; [vm_compute; reflexivity|].
  apply (rsi_is_gain_share swing_frame (price_series swing_close)
           (rsi_of_close 14 (price_series swing_close)) 17 (13 # 14) (7 # 14)).
  - reflexivity.
  - reflexivity.
  - vm_compute; reflexivity.
  - vm_compute; reflexivity.
  - reflexivity.
Defined.



Lemma constant_prices_flat_ema_zero_macd_witness :
  add_indicator sqrt_3dp "20-Day EMA" (constant_frame, [])
  = Ok (constant_frame,
        [] ++ [Scatter (df_index constant_frame) (replicate 30 (Fin 100))
                       "EMA (20)" "y" None]) ∧
  ∃ z : Q, z == 0 ∧
    calculate_macd constant_frame
    = Ok (replicate 30 (Fin z), replicate 30 (Fin z)).
Proof.
  apply (constant_prices_flat_ema_zero_macd sqrt_3dp constant_frame [] 100 30).
  reflexivity.
Defined.



(** The chart of the swing with three indicators, VWAP among them. *)
Lemma render_chart_aligned_witness :
  ∃ (d : DataFrame) (fig : Figure),
    render_chart sqrt_3dp swing_frame ["20-Day SMA"; "VWAP"; "RSI"]
    = Ok (d, fig) ∧
    length fig = 6%nat ∧ frame_aligned d ∧ Forall trace_aligned fig.
Proof.
  destruct (render_chart sqrt_3dp swing_frame ["20-Day SMA"; "VWAP"; "RSI"])
    as [[d fig]|e] eqn:E; [|vm_compute in E; discriminate].
  exists d, fig. split; [reflexivity|].
  split; [vm_compute in E; injection E as _ <-; reflexivity|].
  apply (render_chart_aligned sqrt_3dp swing_frame d
           ["20-Day SMA"; "VWAP"; "RSI"] fig).
  - apply frame_of_aligned. reflexivity.
  - exact E.
Defined.

Lemma add_indicator_missing_close_witness :
  add_indicator sqrt_3dp "RSI" (no_close_frame, []) = Raise (KeyError "Close").
Proof.
  apply (add_indicator_missing_close sqrt_3dp "RSI" no_close_frame []).
  - unfold known_indicators. repeat constructor.
  - reflexivity.
Defined.

Lemma add_indicator_on_empty_frame_witness :
  calculate_rsi empty_frame 14 = Ok (rsi_of_close 14 []) ∧
  add_indicator sqrt_3dp "RSI" (empty_frame, []) = Raise IndexError ∧
  Forall (fun ind =>
            ∃ (d : DataFrame) (tr : Figure),
              add_indicator sqrt_3dp ind (empty_frame, []) = Ok (d, [] ++ tr))
         ["20-Day SMA"; "20-Day EMA"; "20-Day Bollinger Bands"; "VWAP"; "MACD"].
Proof.
  apply (add_indicator_on_empty_frame sqrt_3dp empty_frame [] [] []);
    reflexivity.
Defined.

(** The swing charted a second time, on the frame the first run left. *)
Lemma rerun_draws_same_chart_witness :
  ∃ (d : DataFrame) (drawn : Figure),
    add_indicators sqrt_3dp ["VWAP"; "MACD"] (swing_frame, []) = Ok (d, drawn) ∧
    d ≠ swing_frame ∧
    add_indicators sqrt_3dp ["VWAP"; "MACD"] (d, []) = Ok (d, drawn).
Proof.
  destruct (add_indicators sqrt_3dp ["VWAP"; "MACD"] (swing_frame, []))
    as [[d fig']|e] eqn:E; [|vm_compute in E; discriminate].
  destruct (rerun_draws_same_chart sqrt_3dp ["VWAP"; "MACD"] swing_frame d
              [] fig' [] E) as (drawn & -> & Hagain).
  exists d, drawn. split; [reflexivity|]. split; [|exact Hagain].
  intros ->. vm_compute in E. discriminate.
Defined.

Lemma chart_panels_disjoint_witness :
  0 <= 35 # 100 ∧ 35 # 100 < 55 # 100 ∧ 55 # 100 <= 1 ∧
  (55 # 100 < 1 # 10 ∨ 3 # 10 < 35 # 100).
Proof.
  apply (chart_panels_disjoint "AAPL" (mkTimestamp 2024 1 1)
           (mkTimestamp 2024 1 31) ["MACD"; "RSI"] "yaxis2" "yaxis3"
           (35 # 100, 55 # 100) (1 # 10, 3 # 10)).
  - discriminate.
  - vm_compute; reflexivity.
  - vm_compute; reflexivity.
Defined.

Lemma chart_traces_have_panels_witness :
  ∃ (d : DataFrame) (fig : Figure),
    render_chart sqrt_3dp swing_frame ["MACD"; "RSI"] = Ok (d, fig) ∧
    Forall (fun t =>
              is_Some (domain_of
                         (chart_layout "AAPL" (mkTimestamp 2024 1 1)
                            (mkTimestamp 2024 1 31) ["MACD"; "RSI"])
                         (axis_entry (trace_yaxis t)))) fig.
Proof.
  destruct (render_chart sqrt_3dp swing_frame ["MACD"; "RSI"])
    as [[d fig]|e] eqn:E; [|vm_compute in E; discriminate].
  exists d, fig. split; [reflexivity|].
  apply (chart_traces_have_panels sqrt_3dp "AAPL" (mkTimestamp 2024 1 1)
           (mkTimestamp 2024 1 31) swing_frame d ["MACD"; "RSI"] fig E).
Defined.

(** The report of the swing with both blocks has 23 line breaks. *)
Lemma tech_data_line_count_witness :
  ∃ text : string,
    tech_data swing_frame ["RSI"; "MACD"] = Ok text ∧
    count_newlines text = 23%nat.
Proof.
  apply (tech_data_line_count swing_frame ["RSI"; "MACD"]
           (price_series swing_close)); reflexivity.
Defined.

(** The handler on a well-formed reply: the page shows the heading and the
    reply, and no file is left. *)
Lemma analysis_success_restores_files_witness :
  run_ai_analysis env_model_up ramp_frame [] [] empty_world
  = (Ok (), mkWorld ∅ ([] ++ ["**AI Analysis Results:**"; "HOLD"])).
Proof.
  apply (analysis_success_restores_files env_model_up ramp_frame [] []
           empty_world "/tmp/tmpq1w2e3.png" "PNG" "" "HOLD"
           {["message" := {["content" := "HOLD"]}]});
    reflexivity.
Defined.

Lemma analysis_malformed_reply_witness :
  run_ai_analysis env_model_odd ramp_frame [] [] empty_world
  = (Raise (KeyError "content"),
     mkWorld (<["/tmp/tmpq1w2e3.png" := "PNG"]> ∅)
             ([] ++ ["**AI Analysis Results:**"])).
Proof.
  apply (analysis_malformed_reply env_model_odd ramp_frame [] []
           empty_world "/tmp/tmpq1w2e3.png" "PNG" "" {["message" := ∅]}
           (KeyError "content"));
    reflexivity.
Defined.

Lemma run_without_data_witness :
  run_script sqrt_3dp services_up (sample_inputs false ["RSI"] true) fresh_app
  = (Ok (), mkApp ∅ []
              (mkWorld ∅ ([] ++ ["The ChatGippity Stock Analysis Dashboard";
                                 "Configuration"]))).
Proof.
  apply (run_without_data sqrt_3dp services_up
           (sample_inputs false ["RSI"] true) fresh_app); reflexivity.
Defined.

Lemma run_fetch_failure_witness :
  run_script sqrt_3dp services_down (sample_inputs true ["RSI"] true) loaded_app
  = (Raise OSError,
     mkApp {["stock_data" := ramp_frame]} []
       (mkWorld ∅ ([] ++ ["The ChatGippity Stock Analysis Dashboard";
                          "Configuration"]))).
Proof.
  apply (run_fetch_failure sqrt_3dp services_down
           (sample_inputs true ["RSI"] true) loaded_app); reflexivity.
Defined.

(** A run on the stored ramp with the RSI selected and the analysis asked
    for. *)
Lemma run_with_data_witness :
  ∃ (d : DataFrame) (fig : Figure),
    render_chart sqrt_3dp ramp_frame ["RSI"] = Ok (d, fig) ∧
    run_script sqrt_3dp services_up (sample_inputs false ["RSI"] true)
      loaded_app
    = in_world (run_ai_analysis env_model_up d ["RSI"] fig)
        (mkApp (<["stock_data" := d]> {["stock_data" := ramp_frame]})
               ([] ++ [(fig, chart_layout "AAPL" (mkTimestamp 2024 1 1)
                                          (mkTimestamp 2024 1 31) ["RSI"])])
               (mkWorld ∅ ([] ++ ["The ChatGippity Stock Analysis Dashboard";
                                  "Configuration"; "Technical Indicators";
                                  "AI-Powered Analysis"]))).
Proof.
  destruct (render_chart sqrt_3dp ramp_frame ["RSI"])
    as [[d fig]|e] eqn:E; [|vm_compute in E; discriminate].
  exists d, fig. split; [reflexivity|].
  apply (run_with_data sqrt_3dp services_up (sample_inputs false ["RSI"] true)
           loaded_app ramp_frame d fig).
  - reflexivity.
  - reflexivity.
  - exact E.
Defined.

Lemma run_keeps_session_prices_witness :
  ∃ data' : DataFrame,
    session (run_script sqrt_3dp services_up
               (sample_inputs false ["VWAP"; "RSI"] true) loaded_app).2
      !! "stock_data" = Some data' ∧
    same_ohlcv data' ramp_frame ∧
    ("VWAP" ∉ ["VWAP"; "RSI"] → data' = ramp_frame) ∧
    (∀ k, k ≠ "stock_data" →
          session (run_script sqrt_3dp services_up
                     (sample_inputs false ["VWAP"; "RSI"] true) loaded_app).2
            !! k
          = session loaded_app !! k).
Proof.
  apply (run_keeps_session_prices sqrt_3dp services_up
           (sample_inputs false ["VWAP"; "RSI"] true) loaded_app ramp_frame);
    reflexivity.
Defined.

(** The session held the ramp; a fetch that returns the swing replaces
    it. *)
Lemma run_fetch_replaces_frame_witness :
  ∃ data' : DataFrame,
    session (run_script sqrt_3dp services_up
               (sample_inputs true ["20-Day SMA"] false) loaded_app).2
      !! "stock_data" = Some data' ∧
    same_ohlcv data' swing_frame ∧
    ("VWAP" ∉ ["20-Day SMA"] → data' = swing_frame).
Proof.
  apply (run_fetch_replaces_frame sqrt_3dp services_up
           (sample_inputs true ["20-Day SMA"] false) loaded_app swing_frame);
    reflexivity.
Defined.

Lemma run_without_analysis_keeps_files_witness :
  files (world (run_script sqrt_3dp services_up
                  (sample_inputs true ["MACD"] false) loaded_app).2)
  = files (world loaded_app).
Proof.
  apply (run_without_analysis_keeps_files sqrt_3dp services_up
           (sample_inputs true ["MACD"] false) loaded_app).
  reflexivity.
Defined.
